(** * amt-augpy: the annotation-synchronised augmentation pipeline

    A shallow embedding of [src/amt_augpy/main.py] and
    [src/amt_augpy/merge_audio.py].

    Python code that draws random numbers, logs, calls the per-effect
    transformation functions and touches files is embedded in a state and
    exception monad [M] over a [world].  The random source is a stream of raw
    integers ([entropy]); every call of the [random] module consumes one entry.
    Functions of other packages (the per-effect transformations, numpy,
    librosa, pretty_midi, the float parser and formatter) are fields of an
    environment record [env]. *)

From Stdlib Require Import ZArith String Ascii List Lia.
From stdpp Require Import base decidable countable gmap strings list pretty.

Set Warnings "-clear-no-such-hyp".

Local Open Scope string_scope.
Local Open Scope list_scope.
Local Open Scope Z_scope.

(** ** Python values *)

(** Python floats are kept abstract: the pipeline only compares them, puts
    them in sets, and (in [merge_audios]) adds them. *)
Class PyFloat (F : Type) `{Countable F} := {
  f_zero : F;                 (* 0.0 *)
  f_one : F;                  (* 1.0 *)
  f_add : F → F → F;          (* x + y *)
}.

(** [set.pop()] removes and returns an arbitrary element; the choice is a
    parameter of the model. *)
Class SetPop (V : Type) `{Countable V} := {
  set_pick : gset V → V;
  set_pick_elem : ∀ s : gset V, s ≠ ∅ → set_pick s ∈ s;
}.

(** [str(x)] as used inside an f-string. *)
Class PyStr (V : Type) := py_str : V → string.

Global Instance PyStr_Z : PyStr Z := λ z, pretty z.

Inductive exn :=
  | ValueError
  | IndexError
  | KeyError
  | FileNotFoundError
  | OSError
  | ExternalError (msg : string).

Inductive res (A : Type) :=
  | Ok (a : A)
  | Raise (e : exn).
Arguments Ok {A} a.
Arguments Raise {A} e.

Inductive level := DEBUG | INFO | WARNING | ERROR.

Global Instance level_eq_dec : EqDecision level.
Proof. solve_decision. Defined.

(** ** String helpers (ASCII fragments of the Python [str] methods) *)

(** [s.endswith(suf)] *)
Definition endswith (s suf : string) : bool :=
  let n := String.length s in
  let k := String.length suf in
  (k <=? n)%nat && String.eqb (substring (n - k)%nat k s) suf.

(** [sub in s] on strings: substring containment. *)
Fixpoint str_contains (sub s : string) : bool :=
  String.prefix sub s ||
  match s with
  | EmptyString => false
  | String _ s' => str_contains sub s'
  end.

Definition lower_ascii (c : ascii) : ascii :=
  let n := nat_of_ascii c in
  if (65 <=? n)%nat && (n <=? 90)%nat then ascii_of_nat (n + 32) else c.

(** [s.lower()] *)
Fixpoint lower (s : string) : string :=
  match s with
  | EmptyString => EmptyString
  | String c s' => String (lower_ascii c) (lower s')
  end.

(** Index of the last occurrence of [c] in [s]. *)
Fixpoint rindex (c : ascii) (s : string) : option nat :=
  match s with
  | EmptyString => None
  | String d s' =>
      match rindex c s' with
      | Some i => Some (S i)
      | None => if Ascii.eqb c d then Some 0%nat else None
      end
  end.

(** [x.rsplit(".", 1)[0]] *)
Definition rsplit_dot_head (x : string) : string :=
  match rindex "." x with
  | Some i => substring 0 i x
  | None => x
  end.

(** [os.path.basename(p)] *)
Definition basename (p : string) : string :=
  match rindex "/" p with
  | Some i => substring (S i) (String.length p - S i) p
  | None => p
  end.

(** [os.path.join(a, b)] for two components. *)
Definition path_join (a b : string) : string :=
  if String.prefix "/" b then b
  else if String.eqb a "" || endswith a "/" then a +:+ b
  else a +:+ "/" +:+ b.

(** [s.replace(old, new)] for a non-empty [old]: non-overlapping
    occurrences, left to right. *)
Fixpoint replace_fuel (fuel : nat) (old new s : string) : string :=
  match fuel with
  | O => s
  | S fuel' =>
      match s with
      | EmptyString => EmptyString
      | String c s' =>
          if String.prefix old s
          then new +:+ replace_fuel fuel'
                 old new (substring (String.length old)
                            (String.length s - String.length old) s)
          else String c (replace_fuel fuel' old new s')
      end
  end.

Definition replace (old new s : string) : string :=
  replace_fuel (String.length s) old new s.

(** Python's ASCII whitespace, as removed by [str.strip()]. *)
Definition is_space (c : ascii) : bool :=
  let n := nat_of_ascii c in
  ((9 <=? n)%nat && (n <=? 13)%nat) || ((28 <=? n)%nat && (n <=? 32)%nat).

Fixpoint lstrip (s : string) : string :=
  match s with
  | EmptyString => EmptyString
  | String c s' => if is_space c then lstrip s' else s
  end.

Fixpoint rstrip (s : string) : string :=
  match s with
  | EmptyString => EmptyString
  | String c s' =>
      match rstrip s' with
      | EmptyString => if is_space c then EmptyString else String c EmptyString
      | r => String c r
      end
  end.

(** [s.strip()] *)
Definition strip (s : string) : string := rstrip (lstrip s).

(** [s.split(sep)] for a one-character separator: always at least one
    field. *)
Fixpoint split (sep : ascii) (s : string) : list string :=
  match s with
  | EmptyString => [EmptyString]
  | String c s' =>
      if Ascii.eqb c sep then EmptyString :: split sep s'
      else match split sep s' with
           | f :: fs => String c f :: fs
           | [] => [String c EmptyString]
           end
  end.

(** [f.readlines()]: the lines of a text, each keeping its newline. *)
Fixpoint readlines (s : string) : list string :=
  match s with
  | EmptyString => []
  | String c s' =>
      if Ascii.eqb c "010" then String c EmptyString :: readlines s'
      else match readlines s' with
           | l :: ls => String c l :: ls
           | [] => [String c EmptyString]
           end
  end.

Definition tab : ascii := "009".
Definition TAB : string := String tab EmptyString.
Definition NL : string := String "010" EmptyString.

(** ** Data *)

(** A [pretty_midi.Note]. *)
Record Note (F : Type) := mkNote {
  velocity : Z;
  pitch : Z;
  start : F;
  end_ : F;
}.
Arguments mkNote {F}.
Arguments velocity {F}.
Arguments pitch {F}.
Arguments start {F}.
Arguments end_ {F}.

(** The configuration object ([amt_augpy.config.Config]), with the fields
    [process_effect] and [process_files] read. *)
Record TimeStretchConfig (F : Type) := {
  ts_enabled : bool;
  ts_variations : Z;
  ts_min_factor : F;
  ts_max_factor : F;
  ts_randomized : bool;
}.

Record PitchShiftConfig := {
  ps_enabled : bool;
  ps_variations : Z;
  ps_min_semitones : Z;
  ps_max_semitones : Z;
  ps_randomized : bool;
}.

Record ReverbFilterConfig := {
  rf_enabled : bool;
  rf_variations : Z;
  rf_min_room_scale : Z;
  rf_max_room_scale : Z;
  rf_cutoff_pairs : list (Z * Z);
}.

Record GainChorusConfig (F : Type) := {
  gc_enabled : bool;
  gc_variations : Z;
  gc_min_gain : Z;
  gc_max_gain : Z;
  gc_min_depth : F;
  gc_max_depth : F;
  gc_rates : list F;
}.

Record AddPauseConfig (F : Type) := {
  ap_enabled : bool;
  ap_pause_threshold : F;
  ap_min_pause_duration : F;
  ap_max_pause_duration : F;
}.

Record MergeAudioConfig := {
  ma_enabled : bool;
  ma_merge_num : Z;
}.

Record AddNoiseConfig (F : Type) := {
  an_enabled : bool;
  an_variations : Z;
  an_min_intensity : F;
  an_max_intensity : F;
  an_randomized : bool;
}.

Record Config (F : Type) := {
  add_pause : AddPauseConfig F;
  time_stretch : TimeStretchConfig F;
  pitch_shift : PitchShiftConfig;
  reverb_filter : ReverbFilterConfig;
  gain_chorus : GainChorusConfig F;
  merge_audio : MergeAudioConfig;
  add_noise : AddNoiseConfig F;
  enable_random_suffix : bool;
  num_workers : Z;
  output_dir : string;
}.

Arguments ts_enabled {F}. Arguments ts_variations {F}.
Arguments ts_min_factor {F}. Arguments ts_max_factor {F}.
Arguments ts_randomized {F}.
Arguments gc_enabled {F}. Arguments gc_variations {F}.
Arguments gc_min_gain {F}. Arguments gc_max_gain {F}.
Arguments gc_min_depth {F}. Arguments gc_max_depth {F}.
Arguments gc_rates {F}.
Arguments ap_enabled {F}. Arguments ap_pause_threshold {F}.
Arguments ap_min_pause_duration {F}. Arguments ap_max_pause_duration {F}.
Arguments an_enabled {F}. Arguments an_variations {F}.
Arguments an_min_intensity {F}. Arguments an_max_intensity {F}.
Arguments an_randomized {F}.
Arguments add_pause {F}. Arguments time_stretch {F}.
Arguments pitch_shift {F}. Arguments reverb_filter {F}.
Arguments gain_chorus {F}. Arguments merge_audio {F}.
Arguments add_noise {F}. Arguments enable_random_suffix {F}.
Arguments num_workers {F}. Arguments output_dir {F}.

(** One invocation of a transformation function, with its arguments. *)
Inductive call (F : Type) :=
  | CallPauses (audio ann out : string) (threshold min_pause max_pause : F)
  | CallTimeStretch (audio ann out : string) (factor : F)
  | CallPitchShift (audio ann out : string) (semitones : Z)
  | CallReverb (audio ann out : string) (room_scale low_cutoff high_cutoff : Z)
  | CallGainChorus (audio ann out : string) (gain : Z) (depth rate : F)
  | CallNoise (audio ann out : string) (intensity : F)
  | CallMerge (audios4merge : list string)
      (audio ann input_directory output_directory output_filename : string).
Arguments CallPauses {F}. Arguments CallTimeStretch {F}.
Arguments CallPitchShift {F}. Arguments CallReverb {F}.
Arguments CallGainChorus {F}. Arguments CallNoise {F}.
Arguments CallMerge {F}.

(** What is outside [src/]: the transformation functions, the random source,
    numpy, librosa, pretty_midi's codec, the directory listing, and the
    float parser and formatters. *)
Record env (F : Type) := {
  (* the stream behind the [random] module *)
  entropy : nat → Z;
  (* [round(random.uniform(a, b), 1)] at one raw random value *)
  uniform_round1 : F → F → Z → F;
  (* per-effect transformations: annotation path, [None], or an exception *)
  calculate_time_distance :
    string → string → string → F → F → F → res (option string);
  apply_time_stretch : string → string → string → F → res (option string);
  apply_pitch_shift : string → string → string → Z → res (option string);
  apply_reverb_and_filters :
    string → string → string → Z → Z → Z → res (option string);
  apply_gain_and_chorus :
    string → string → string → Z → F → F → res (option string);
  apply_noise : string → string → string → F → res (option string);
  (* [np.linspace(a, b, num, dtype=float)], [np.linspace(.., dtype=int)],
     [np.logspace(a, b, num, dtype=float)] *)
  np_linspace_float : F → F → Z → res (list F);
  np_linspace_int : Z → Z → Z → res (list Z);
  np_logspace_float : F → F → Z → res (list F);
  (* [librosa.resample(y, orig_sr=.., target_sr=..)] *)
  librosa_resample : list F → Z → Z → list F;
  (* [os.listdir(d)] *)
  listdir : string → res (list string);
  (* [float(s)] and [int(s)]; [None] is a [ValueError] *)
  py_float : string → option F;
  py_int : string → option Z;
  (* [f"{x:.6f}"] and [str(x)] of a float *)
  fmt6 : F → string;
  str_float : F → string;
  (* what [pretty_midi.PrettyMIDI(path)] reads back from a file written by
     [PrettyMIDI.write] for the given instruments, or the error [write]
     raises *)
  midi_codec : list (list (Note F)) → res (list (list (Note F)));
}.
Arguments entropy {F}. Arguments uniform_round1 {F}.
Arguments calculate_time_distance {F}. Arguments apply_time_stretch {F}.
Arguments apply_pitch_shift {F}. Arguments apply_reverb_and_filters {F}.
Arguments apply_gain_and_chorus {F}. Arguments apply_noise {F}.
Arguments np_linspace_float {F}. Arguments np_linspace_int {F}.
Arguments np_logspace_float {F}. Arguments librosa_resample {F}.
Arguments listdir {F}. Arguments py_float {F}. Arguments py_int {F}.
Arguments fmt6 {F}. Arguments str_float {F}. Arguments midi_codec {F}.

(** The mutable state a run threads: the position in the random stream, the
    log, the transformation calls made so far, and the files. *)
Record world (F : Type) := mkWorld {
  rng : nat;
  log : list (level * string);
  calls : list (call F);
  text_files : gmap string string;
  audio_files : gmap string (list F * Z);
  midi_files : gmap string (list (list (Note F)));
}.
Arguments mkWorld {F}.
Arguments rng {F}. Arguments log {F}. Arguments calls {F}.
Arguments text_files {F}. Arguments audio_files {F}. Arguments midi_files {F}.

(** ** The monad *)

Definition M (F A : Type) : Type := world F → res A * world F.

Definition ret {F A} (a : A) : M F A := λ w, (Ok a, w).

Definition bind {F A B} (m : M F A) (k : A → M F B) : M F B :=
  λ w, match m w with
       | (Ok a, w') => k a w'
       | (Raise e, w') => (Raise e, w')
       end.

Definition raise {F A} (e : exn) : M F A := λ w, (Raise e, w).

(** [try: m  except Exception as e: h e] *)
Definition try_except {F A} (m : M F A) (h : exn → M F A) : M F A :=
  λ w, match m w with
       | (Ok a, w') => (Ok a, w')
       | (Raise e, w') => h e w'
       end.

(** A result computed by code outside the model. *)
Definition lift_res {F A} (r : res A) : M F A := λ w, (r, w).

Notation "'let!' x ':=' m 'in' k" := (bind m (λ x, k))
  (at level 10, x pattern, m at level 100, k at level 200).
Notation "m ';;;' k" := (bind m (λ _, k))
  (at level 100, right associativity).

(** [if x:] on an optional path: [None] and the empty string are false. *)
Definition truthy (o : option string) : bool :=
  match o with
  | Some s => negb (String.eqb s "")
  | None => false
  end.

Definition ascii_lowercase : string := "abcdefghijklmnopqrstuvwxyz".

Definition max_attempts : nat := 10.

(** [generate_output_filename(base_name, effect_name, measure,
    random_suffix, extension)] *)
Definition generate_output_filename {V} {V_str : PyStr V}
    (base_name effect_name : string) (measure : V)
    (random_suffix extension : string) : string :=
  if String.eqb random_suffix ""
  then base_name +:+ "_" +:+ effect_name +:+ "_" +:+ py_str measure
         +:+ extension
  else base_name +:+ "_" +:+ effect_name +:+ "_" +:+ py_str measure
         +:+ "_" +:+ random_suffix +:+ extension.

Section Pipeline.
Context {F : Type} {F_eq : EqDecision F} {F_cnt : Countable F}
  {F_ops : PyFloat F} {F_pop : SetPop F} {Z_pop : SetPop Z}.
Variable E : env F.

Local Instance PyStr_F : PyStr F := str_float E.

(** *** Primitive effects *)

Definition logger (lvl : level) (msg : string) : M F unit :=
  λ w, (Ok tt,
        mkWorld (rng w) (log w ++ [(lvl, msg)]) (calls w)
          (text_files w) (audio_files w) (midi_files w)).

Definition next_random : M F Z :=
  λ w, (Ok (entropy E (rng w)),
        mkWorld (S (rng w)) (log w) (calls w)
          (text_files w) (audio_files w) (midi_files w)).

Definition record_call (c : call F) : M F unit :=
  λ w, (Ok tt,
        mkWorld (rng w) (log w) (calls w ++ [c])
          (text_files w) (audio_files w) (midi_files w)).

(** Calling a transformation: the call is recorded, then its outcome is
    returned or raised. *)
Definition invoke (c : call F) (r : res (option string))
    : M F (option string) :=
  record_call c ;;; lift_res r.

(** [random.randint(a, b)] *)
Definition random_randint (a b : Z) : M F Z :=
  if a >? b then raise ValueError
  else let! r := next_random in ret (a + r mod (b - a + 1)).

(** [random.randrange(n)] *)
Definition random_randrange (n : Z) : M F Z :=
  if n <=? 0 then raise ValueError
  else let! r := next_random in ret (r mod n).

(** [random.choice(seq)] *)
Definition random_choice {A} (seq : list A) : M F A :=
  match seq with
  | [] => raise IndexError
  | d :: _ =>
      let! r := next_random in
      ret (nth (Z.to_nat (r mod Z.of_nat (length seq))) seq d)
  end.

(** [round(random.uniform(a, b), 1)] *)
Definition random_uniform_round1 (a b : F) : M F F :=
  let! r := next_random in ret (uniform_round1 E a b r).

(** [for x in l: st = body(x, st)] *)
Fixpoint for_each {A St} (l : list A) (body : A → St → M F St) (st : St)
    : M F St :=
  match l with
  | [] => ret st
  | x :: l' => let! st' := body x st in for_each l' body st'
  end.

(** [for i in range(n): st = body(i, st)] *)
Definition for_range {St} (n : Z) (body : nat → St → M F St) (st : St)
    : M F St :=
  for_each (seq 0 (Z.to_nat n)) body st.

(** *** [random_word] *)

(** ["".join(random.choice(string.ascii_lowercase) for _ in range(n))] *)
Fixpoint random_letters (n : nat) : M F string :=
  match n with
  | O => ret ""
  | S n' =>
      let! c := random_choice (list_ascii_of_string ascii_lowercase) in
      let! rest := random_letters n' in
      ret (String c rest)
  end.

Definition random_word (length : Z) : M F string :=
  if length <=? 0 then ret ""
  else random_letters (Z.to_nat length).

(** [random_word(5) if config.enable_random_suffix else ''] *)
Definition suffix_for (config : Config F) : M F string :=
  if enable_random_suffix config then random_word 5 else ret "".

(** *** The parameter sampler *)

(** The retry loop of one slot:
    [while (x == ident or x in generated) and attempts < max_attempts:
         x = draw(); attempts += 1]
    Every iteration increments [attempts], so [max_attempts] iterations are
    the most the loop can make ([retry_loop_fuel]). *)
Fixpoint retry_loop {V} `{Countable V} (ident : V) (draw : M F V)
    (generated : gset V) (fuel : nat) (x : V) (attempts : nat)
    : M F (V * nat) :=
  match fuel with
  | O => ret (x, attempts)
  | S fuel' =>
      if (bool_decide (x = ident) || bool_decide (x ∈ generated))
         && (attempts <? max_attempts)%nat
      then let! x' := draw in
           retry_loop ident draw generated fuel' x' (S attempts)
      else ret (x, attempts)
  end.

(** One slot of the randomized sampler: the value to add, or [None] where
    the source says [continue]. *)
Definition sample_slot {V} `{Countable V} (ident : V) (draw : M F V)
    (warning : string) (i : nat) (generated : gset V) : M F (option V) :=
  let! (x, attempts) :=
    retry_loop ident draw generated max_attempts ident 0%nat in
  if (attempts =? max_attempts)%nat
  then logger WARNING warning ;;;
       if (0 <? i)%nat then ret None
       else let! x' := draw in ret (Some x')
  else ret (Some x).

(** [for i in range(variations): ...; generated.add(x)] *)
Definition sample_randomized {V} `{Countable V} (ident : V) (draw : M F V)
    (warning : string) (variations : Z) : M F (gset V) :=
  for_range variations
    (λ i generated,
       let! r := sample_slot ident draw warning i generated in
       match r with
       | None => ret generated
       | Some x => ret ({[x]} ∪ generated)
       end)
    ∅.

(** [while len(generated) > variations: generated.pop()]; every iteration
    removes one element, so [size generated + 1] tests of the condition are
    the most the loop can make ([pop_while_longer_fuel]). *)
Fixpoint pop_while_longer {V} `{SetPop V} (fuel : nat) (generated : gset V)
    (variations : Z) : M F (gset V) :=
  match fuel with
  | O => ret generated
  | S fuel' =>
      if Z.of_nat (size generated) >? variations
      then if decide (generated = ∅) then raise KeyError
           else pop_while_longer fuel'
                  (generated ∖ {[set_pick generated]}) variations
      else ret generated
  end.

(** Grid mode:
    [generated = set(list(points)); try: generated.remove(ident) except:
     pass]; [before_trim] is what the source does between the removal and
    the trimming loop. *)
Definition sample_grid {V} `{SetPop V} (ident : V) (points : res (list V))
    (before_trim : gset V → M F unit) (variations : Z) : M F (gset V) :=
  let! pts := lift_res points in
  let generated : gset V := list_to_set pts in
  let generated := generated ∖ {[ident]} in
  before_trim generated ;;;
  pop_while_longer (S (size generated)) generated variations.

(** The sets the three families with a [randomized] switch build. *)
Definition timestretch_factors (config : Config F) : M F (gset F) :=
  let variations := ts_variations (time_stretch config) in
  let min_factor := ts_min_factor (time_stretch config) in
  let max_factor := ts_max_factor (time_stretch config) in
  if ts_randomized (time_stretch config)
  then sample_randomized f_one
         (random_uniform_round1 min_factor max_factor)
         "Could not find unique stretch factor after 10 attempts"
         variations
  else sample_grid f_one
         (np_linspace_float E min_factor max_factor (variations + 1))
         (λ _, ret tt) variations.

Definition pitchshift_semitones_randomized (config : Config F)
    : M F (gset Z) :=
  sample_randomized 0
    (random_randint (ps_min_semitones (pitch_shift config))
       (ps_max_semitones (pitch_shift config)))
    "Could not find unique semitones value after 10 attempts"
    (ps_variations (pitch_shift config)).

Definition pitchshift_semitones_grid (config : Config F) : M F (gset Z) :=
  let variations := ps_variations (pitch_shift config) in
  sample_grid 0
    (np_linspace_int E (ps_min_semitones (pitch_shift config))
       (ps_max_semitones (pitch_shift config)) (variations + 1))
    (λ generated,
       if Z.of_nat (size generated) <? variations
       then logger WARNING "Impossible to have unique semitones values"
       else ret tt)
    variations.

Definition noise_intensities (config : Config F) : M F (gset F) :=
  let variations := an_variations (add_noise config) in
  let min_intensity := an_min_intensity (add_noise config) in
  let max_intensity := an_max_intensity (add_noise config) in
  if an_randomized (add_noise config)
  then sample_randomized f_one
         (random_uniform_round1 min_intensity max_intensity)
         "Could not find unique noise intensity factor after 10 attempts"
         variations
  else sample_grid f_one
         (np_logspace_float E min_intensity max_intensity (variations + 1))
         (λ _, ret tt) variations.

(** *** The effect dispatcher *)

(** [if output_ann_file: new_ann_files.append(output_ann_file)] *)
Definition append_if_truthy (new_ann_files : list string)
    (output_ann_file : option string) : list string :=
  match output_ann_file with
  | Some f => if truthy output_ann_file then new_ann_files ++ [f]
              else new_ann_files
  | None => new_ann_files
  end.

(** [try: output_ann_file = apply(...); if output_ann_file: append
    except Exception as e: logger.error(...)] *)
Definition guarded_apply (c : call F) (r : res (option string))
    (error_message : string) (new_ann_files : list string)
    : M F (list string) :=
  try_except
    (let! output_ann_file := invoke c r in
     ret (append_if_truthy new_ann_files output_ann_file))
    (λ _, logger ERROR error_message ;;; ret new_ann_files).

Section Branches.
Variables (input_directory audio_base audio_ext : string).
Variables (standardized_audio temp_ann_file output_directory : string).
Variable config : Config F.

Definition pauses_branch : M F (list string) :=
  logger INFO "Applying pause manipulation" ;;;
  let! random_suffix := suffix_for config in
  let output_filename :=
    generate_output_filename audio_base "addpauses" 1 random_suffix
      audio_ext in
  let output_file_path := path_join output_directory output_filename in
  let! output_ann_file :=
    invoke
      (CallPauses standardized_audio temp_ann_file output_file_path
         (ap_pause_threshold (add_pause config))
         (ap_min_pause_duration (add_pause config))
         (ap_max_pause_duration (add_pause config)))
      (calculate_time_distance E standardized_audio temp_ann_file
         output_file_path
         (ap_pause_threshold (add_pause config))
         (ap_min_pause_duration (add_pause config))
         (ap_max_pause_duration (add_pause config))) in
  match output_ann_file with
  | Some f => ret [f]
  | None => ret []
  end.

(** The body of [for stretch_factor in generated_factors: ...] *)
Definition timestretch_apply (stretch_factor : F)
    (new_ann_files : list string) : M F (list string) :=
  let! random_suffix := suffix_for config in
  let output_filename :=
    generate_output_filename audio_base "timestretch" stretch_factor
      random_suffix audio_ext in
  let output_file_path := path_join output_directory output_filename in
  logger INFO "Applying time stretch" ;;;
  guarded_apply
    (CallTimeStretch standardized_audio temp_ann_file output_file_path
       stretch_factor)
    (apply_time_stretch E standardized_audio temp_ann_file
       output_file_path stretch_factor)
    "Error applying time stretch" new_ann_files.

Definition timestretch_branch : M F (list string) :=
  let! generated_factors := timestretch_factors config in
  for_each (elements generated_factors) timestretch_apply [].

(** The body of [for semitones in generated_semitones: ...] *)
Definition pitchshift_apply (semitones : Z)
    (new_ann_files : list string) : M F (list string) :=
  let! random_suffix := suffix_for config in
  let output_filename :=
    generate_output_filename audio_base "pitchshift" semitones
      random_suffix audio_ext in
  let output_file_path := path_join output_directory output_filename in
  logger INFO "Applying pitch shift" ;;;
  guarded_apply
    (CallPitchShift standardized_audio temp_ann_file output_file_path
       semitones)
    (apply_pitch_shift E standardized_audio temp_ann_file
       output_file_path semitones)
    "Error applying pitch shift" new_ann_files.

(** In the source the [for semitones in generated_semitones] loop is
    indented under the [else:] of [if config.pitch_shift.randomized]. *)
Definition pitchshift_branch : M F (list string) :=
  if ps_randomized (pitch_shift config)
  then let! generated_semitones :=
         pitchshift_semitones_randomized config in
       ret []
  else let! generated_semitones := pitchshift_semitones_grid config in
       for_each (elements generated_semitones) pitchshift_apply [].

Definition noise_apply (intensity : F) (new_ann_files : list string)
    : M F (list string) :=
  let! random_suffix := suffix_for config in
  let output_filename :=
    generate_output_filename audio_base "noise" intensity random_suffix
      audio_ext in
  let output_file_path := path_join output_directory output_filename in
  logger INFO "Applying noise" ;;;
  guarded_apply
    (CallNoise standardized_audio temp_ann_file output_file_path
       intensity)
    (apply_noise E standardized_audio temp_ann_file output_file_path
       intensity)
    "Error applying gain and chorus" new_ann_files.

Definition noise_branch : M F (list string) :=
  let! generated_intensities := noise_intensities config in
  for_each (elements generated_intensities) noise_apply [].

(** The reverb family samples and applies inside one loop. *)
Definition reverb_apply (room_scale : Z) (new_ann_files : list string)
    : M F (list string) :=
  let! (low_cutoff, high_cutoff) :=
    random_choice (rf_cutoff_pairs (reverb_filter config)) in
  let! random_suffix := suffix_for config in
  let output_filename :=
    generate_output_filename audio_base "reverb_filters" room_scale
      random_suffix audio_ext in
  let output_file_path := path_join output_directory output_filename in
  logger INFO "Applying reverb and filters" ;;;
  guarded_apply
    (CallReverb standardized_audio temp_ann_file output_file_path
       room_scale low_cutoff high_cutoff)
    (apply_reverb_and_filters E standardized_audio temp_ann_file
       output_file_path room_scale low_cutoff high_cutoff)
    "Error applying reverb and filters" new_ann_files.

Definition reverb_slot (i : nat) (st : gset Z * list string)
    : M F (gset Z * list string) :=
  let '(generated_room_scales, new_ann_files) := st in
  let! r :=
    sample_slot 0
      (random_randint (rf_min_room_scale (reverb_filter config))
         (rf_max_room_scale (reverb_filter config)))
      "Could not find unique room scale after 10 attempts"
      i generated_room_scales in
  match r with
  | None => ret st
  | Some room_scale =>
      let! new_ann_files := reverb_apply room_scale new_ann_files in
      ret ({[room_scale]} ∪ generated_room_scales, new_ann_files)
  end.

Definition reverb_loop : M F (gset Z * list string) :=
  for_range (rf_variations (reverb_filter config)) reverb_slot (∅, []).

Definition reverb_branch : M F (list string) :=
  let! (generated_room_scales, new_ann_files) := reverb_loop in
  ret new_ann_files.

(** The gain/chorus family: two retry loops per slot, one exhaustion
    test for both, and [random_suffix = random_word(5)] without looking
    at [config.enable_random_suffix]. *)
Definition chorus_sample_slot (i : nat) (generated_depths : gset F)
    (generated_gains : gset Z) : M F (option (F * Z)) :=
  let gc := gain_chorus config in
  let! (depth, depth_attempts) :=
    retry_loop f_zero
      (random_uniform_round1 (gc_min_depth gc) (gc_max_depth gc))
      generated_depths max_attempts f_zero 0%nat in
  let! (gain, gain_attempts) :=
    retry_loop 0 (random_randint (gc_min_gain gc) (gc_max_gain gc))
      generated_gains max_attempts 0 0%nat in
  if (depth_attempts =? max_attempts)%nat
     || (gain_attempts =? max_attempts)%nat
  then logger WARNING "Could not find unique depth/gain after 10 attempts" ;;;
       if (0 <? i)%nat then ret None
       else let! depth' :=
              random_uniform_round1 (gc_min_depth gc) (gc_max_depth gc) in
            let! gain' :=
              random_randint (gc_min_gain gc) (gc_max_gain gc) in
            ret (Some (depth', gain'))
  else ret (Some (depth, gain)).

Definition chorus_apply (depth : F) (gain : Z)
    (new_ann_files : list string) : M F (list string) :=
  let! chorus_rate := random_choice (gc_rates (gain_chorus config)) in
  let! random_suffix := random_word 5 in
  let output_filename :=
    generate_output_filename audio_base "gain_chorus" gain random_suffix
      audio_ext in
  let output_file_path := path_join output_directory output_filename in
  logger INFO "Applying gain and chorus" ;;;
  guarded_apply
    (CallGainChorus standardized_audio temp_ann_file output_file_path
       gain depth chorus_rate)
    (apply_gain_and_chorus E standardized_audio temp_ann_file
       output_file_path gain depth chorus_rate)
    "Error applying gain and chorus" new_ann_files.

Definition chorus_slot (i : nat) (st : gset F * gset Z * list string)
    : M F (gset F * gset Z * list string) :=
  let '(generated_depths, generated_gains, new_ann_files) := st in
  let! r := chorus_sample_slot i generated_depths generated_gains in
  match r with
  | None => ret st
  | Some (depth, gain) =>
      let! new_ann_files := chorus_apply depth gain new_ann_files in
      ret ({[depth]} ∪ generated_depths, {[gain]} ∪ generated_gains,
           new_ann_files)
  end.

Definition chorus_loop : M F (gset F * gset Z * list string) :=
  for_range (gc_variations (gain_chorus config)) chorus_slot (∅, ∅, []).

Definition chorus_branch : M F (list string) :=
  let! (_, new_ann_files) := chorus_loop in
  ret new_ann_files.

End Branches.

(** *** Files *)

Definition read_text (path : string) : M F string :=
  λ w, match text_files w !! path with
       | Some content => (Ok content, w)
       | None => (Raise FileNotFoundError, w)
       end.

Definition write_text (path content : string) : M F unit :=
  λ w, (Ok tt,
        mkWorld (rng w) (log w) (calls w)
          (<[path := content]> (text_files w)) (audio_files w)
          (midi_files w)).

(** [os.remove(path)] on an annotation file *)
Definition remove_text (path : string) : M F unit :=
  λ w, (Ok tt,
        mkWorld (rng w) (log w) (calls w)
          (delete path (text_files w)) (audio_files w) (midi_files w)).

Definition text_exists (path : string) : M F bool :=
  λ w, (Ok (bool_decide (is_Some (text_files w !! path))), w).

(** [librosa.load(path, sr=None)]: the samples and their rate *)
Definition librosa_load (path : string) : M F (list F * Z) :=
  λ w, match audio_files w !! path with
       | Some a => (Ok a, w)
       | None => (Raise FileNotFoundError, w)
       end.

(** [sf.write(path, samples, sr)] *)
Definition sf_write (path : string) (samples : list F) (sr : Z)
    : M F unit :=
  λ w, (Ok tt,
        mkWorld (rng w) (log w) (calls w) (text_files w)
          (<[path := (samples, sr)]> (audio_files w)) (midi_files w)).

(** [pretty_midi.PrettyMIDI(path)] *)
Definition midi_load (path : string) : M F (list (list (Note F))) :=
  λ w, match midi_files w !! path with
       | Some m => (Ok m, w)
       | None => (Raise FileNotFoundError, w)
       end.

(** [midi.write(path)] *)
Definition midi_write (path : string) (instruments : list (list (Note F)))
    : M F unit :=
  λ w, match midi_codec E instruments with
       | Ok stored =>
           (Ok tt,
            mkWorld (rng w) (log w) (calls w) (text_files w)
              (audio_files w) (<[path := stored]> (midi_files w)))
       | Raise e => (Raise e, w)
       end.

(** [[f(x) for x in l]] *)
Fixpoint map_M {A B} (f : A → M F B) (l : list A) : M F (list B) :=
  match l with
  | [] => ret []
  | x :: l' =>
      let! y := f x in
      let! ys := map_M f l' in
      ret (y :: ys)
  end.

(** *** The annotation codec *)

(** [f"{onset:.6f}\t{offset:.6f}\t{pitch}\t{velocity}\n"] *)
Definition format_note (note : Note F) : string :=
  fmt6 E (start note) +:+ TAB +:+ fmt6 E (end_ note) +:+ TAB
    +:+ py_str (pitch note) +:+ TAB +:+ py_str (velocity note) +:+ NL.

Definition concat_strings (l : list string) : string :=
  foldr String.append "" l.

Definition midi_exists (path : string) : M F bool :=
  λ w, (Ok (bool_decide (is_Some (midi_files w !! path))), w).

Definition midi_to_ann (input_midi output_ann : string) : M F string :=
  try_except
    (let! found := midi_exists input_midi in
     if negb found then raise FileNotFoundError
     else
       let! midi_data := midi_load input_midi in
       write_text output_ann
         (concat_strings (map format_note (concat midi_data))) ;;;
       logger DEBUG "Annotation file created" ;;;
       ret output_ann)
    (λ e,
       match e with
       | FileNotFoundError =>
           logger ERROR "MIDI file not found" ;;; raise e
       | _ => logger ERROR "Error converting MIDI to annotation" ;;; raise e
       end).

(** The body of [for i, line in enumerate(lines)]: the note of a line
    with four fields that all parse, a warning otherwise. *)
Definition decode_line (line : string) (notes : list (Note F))
    : M F (list (Note F)) :=
  match split tab (strip line) with
  | [onset_str; offset_str; pitch_str; velocity_str] =>
      match py_float E onset_str, py_float E offset_str,
            py_int E pitch_str, py_int E velocity_str with
      | Some onset, Some offset, Some pitch, Some velocity =>
          ret (notes ++ [mkNote velocity pitch onset offset])
      | _, _, _, _ => logger WARNING "Error parsing line" ;;; ret notes
      end
  | _ => logger WARNING "Skipping malformed line" ;;; ret notes
  end.

Definition ann_to_midi (ann_file : string) : M F string :=
  let midi_file := replace ".ann" ".mid" ann_file in
  try_except
    (let! content := read_text ann_file in
     let lines := readlines content in
     let! notes := for_each lines decode_line [] in
     midi_write midi_file [notes] ;;;
     ret midi_file)
    (λ e,
       match e with
       | FileNotFoundError =>
           logger ERROR "Annotation file not found" ;;; raise e
       | _ => logger ERROR "Error converting annotation to MIDI" ;;; raise e
       end).

Definition delete_file (file_path : string) : M F bool :=
  let! found := text_exists file_path in
  if negb found
  then logger WARNING "File to delete does not exist" ;;; ret false
  else remove_text file_path ;;;
       logger DEBUG "Deleted file" ;;;
       ret true.

(** *** The merge subsystem ([merge_audio.py]) *)

(** [np.pad(x, (0, n))] *)
Definition np_pad (x : list F) (n : nat) : list F :=
  x ++ replicate n f_zero.

(** [np.sum(rows, axis=0)] for rows of one length: the rows are added
    in order, sample by sample. *)
Definition np_sum_axis0 (rows : list (list F)) : list F :=
  match rows with
  | [] => []
  | r :: rs => foldl (zip_with f_add) r rs
  end.

(** [merge_audios(audios4merge, standardized_audio, temp_ann,
    input_directory, output_directory, output_filename, target_sr)]; the
    [print] of the merged length is left out. *)
Definition merge_audios (audios4merge : list string)
    (standardized_audio temp_ann input_directory output_directory
       output_filename : string) (target_sr : Z) : M F string :=
  let! loaded :=
    map_M (λ x, librosa_load (path_join input_directory x))
      audios4merge in
  let! current := librosa_load standardized_audio in
  let audios := loaded ++ [current] in
  let audios_resampled :=
    map (λ x, librosa_resample E (fst x) (snd x) target_sr) audios in
  let audios_max_length := max_list (map length audios_resampled) in
  let aduis_padded :=
    map (λ x, np_pad x (audios_max_length - length x)) audios_resampled in
  let audios_merged := np_sum_axis0 aduis_padded in
  let ann_files :=
    map (λ x, path_join output_directory
                (rsplit_dot_head x +:+ "_temp.ann")) audios4merge
    ++ [temp_ann] in
  let! contents := map_M read_text ann_files in
  let ann_merged := concat_strings contents in
  write_text (path_join output_directory (output_filename +:+ ".ann"))
    ann_merged ;;;
  sf_write (path_join output_directory (output_filename +:+ ".wav"))
    audios_merged target_sr ;;;
  ret (path_join output_directory (output_filename +:+ ".ann")).

(** *** [grab_audios] and the merge family *)

Definition audio_extensions : list string :=
  [".wav"; ".flac"; ".mp3"; ".m4a"; ".aiff"].

(** [[os.path.basename(f) for f in files
     if f.lower().endswith((".wav", ".flac", ".mp3", ".m4a", ".aiff"))]] *)
Definition audio_names (files : list string) : list string :=
  map basename
    (List.filter (λ f, existsb (endswith (lower f)) audio_extensions) files).

Definition grab_audios (input_directory : string) : M F (list string) :=
  let! files := lift_res (listdir E input_directory) in
  ret (audio_names files).

(** [[x for x in audios if os.path.basename(standardized_audio) not
    in x]]: [not in] between two strings is a substring test. *)
Definition merge_candidates (standardized_audio : string)
    (audios : list string) : list string :=
  List.filter (λ x, negb (str_contains (basename standardized_audio) x))
    audios.

(** [while len(audios4merge) < merge_num:
        audios4merge.append(target_audio_files.pop(
            random.randrange(len(target_audio_files))))]
    Every iteration lengthens [audios4merge] by one, so [merge_num]
    iterations are the most the loop can make. *)
Fixpoint select_audios (fuel : nat) (merge_num : Z)
    (target_audio_files audios4merge : list string)
    : M F (list string) :=
  match fuel with
  | O => ret audios4merge
  | S fuel' =>
      if Z.of_nat (length audios4merge) <? merge_num
      then
        let! k := random_randrange (Z.of_nat (length target_audio_files)) in
        match target_audio_files !! Z.to_nat k with
        | Some x =>
            select_audios fuel' merge_num
              (delete (Z.to_nat k) target_audio_files)
              (audios4merge ++ [x])
        | None => raise IndexError
        end
      else ret audios4merge
  end.

(** ["_".join(l)] *)
Fixpoint join_underscore (l : list string) : string :=
  match l with
  | [] => ""
  | [x] => x
  | x :: l' => x +:+ "_" +:+ join_underscore l'
  end.

Definition default_target_sr : Z := 44100.

Section MergeBranch.
Variables (input_directory standardized_audio : string).
Variables (temp_ann_file output_directory : string).
Variable config : Config F.

(** The call of [merge_audios] is recorded like the calls of the
    transformations. *)
Definition merge_branch : M F (list string) :=
  let merge_num := ma_merge_num (merge_audio config) in
  let! audios := grab_audios input_directory in
  let target_audio_files := merge_candidates standardized_audio audios in
  if Z.of_nat (length target_audio_files) >=? merge_num
  then
    let! audios4merge :=
      select_audios (Z.to_nat merge_num) merge_num
        target_audio_files [] in
    let output_filename :=
      join_underscore
        (map rsplit_dot_head
           (audios4merge ++ [basename standardized_audio]))
      +:+ "_merged" in
    try_except
      (record_call
         (CallMerge audios4merge standardized_audio temp_ann_file
            input_directory output_directory output_filename) ;;;
       let! ann_file :=
         merge_audios audios4merge standardized_audio temp_ann_file
           input_directory output_directory output_filename
           default_target_sr in
       logger INFO "audios4merge have been merged" ;;;
       ret [ann_file])
      (λ _, logger ERROR "Error merging audios4merge" ;;; ret [])
  else
    logger ERROR "No merging is possible" ;;; ret [].
End MergeBranch.

(** *** [process_effect] *)

Definition process_effect_body
    (input_directory effect_type audio_base audio_ext standardized_audio
       temp_ann_file output_directory : string) (config : Config F)
    : M F (list string) :=
  if String.eqb effect_type "pauses" && ap_enabled (add_pause config)
  then pauses_branch audio_base audio_ext standardized_audio temp_ann_file
         output_directory config
  else if String.eqb effect_type "timestretch"
          && ts_enabled (time_stretch config)
  then timestretch_branch audio_base audio_ext standardized_audio
         temp_ann_file output_directory config
  else if String.eqb effect_type "pitchshift"
          && ps_enabled (pitch_shift config)
  then pitchshift_branch audio_base audio_ext standardized_audio
         temp_ann_file output_directory config
  else if String.eqb effect_type "reverb"
          && rf_enabled (reverb_filter config)
  then reverb_branch audio_base audio_ext standardized_audio
         temp_ann_file output_directory config
  else if String.eqb effect_type "chorus"
          && gc_enabled (gain_chorus config)
  then chorus_branch audio_base audio_ext standardized_audio
         temp_ann_file output_directory config
  else if String.eqb effect_type "merge"
          && ma_enabled (merge_audio config)
  then merge_branch input_directory standardized_audio temp_ann_file
         output_directory config
  else if String.eqb effect_type "noise" && an_enabled (add_noise config)
  then noise_branch audio_base audio_ext standardized_audio temp_ann_file
         output_directory config
  else ret [].

(** [try: ...; return new_ann_files
    except Exception as e: logger.error(...); return []] *)
Definition process_effect
    (input_directory effect_type audio_base audio_ext standardized_audio
       temp_ann_file output_directory : string) (config : Config F)
    : M F (list string) :=
  try_except
    (process_effect_body input_directory effect_type audio_base audio_ext
       standardized_audio temp_ann_file output_directory config)
    (λ _, logger ERROR "Error processing effect" ;;; ret []).

(** *** [process_files] *)

Fixpoint all_dots (s : string) : bool :=
  match s with
  | EmptyString => true
  | String c s' => Ascii.eqb c "." && all_dots s'
  end.

(** [os.path.splitext(p)] *)
Definition splitext (p : string) : string * string :=
  let b := basename p in
  match rindex "." b with
  | Some i =>
      if all_dots (substring 0 i b) then (p, "")
      else (substring 0 (String.length p - (String.length b - i)) p,
            substring i (String.length b - i) b)
  | None => (p, "")
  end.




End Pipeline.

(** ** The driver: [gen_ann], [check_matching_files] and parts of [main] *)

Section Driver.
Context {F : Type} {F_eq : EqDecision F} {F_cnt : Countable F}
  {F_ops : PyFloat F} {F_pop : SetPop F} {Z_pop : SetPop Z}.
Variable E : env F.

(** [amt_augpy.convertfiles.standardize_audio(path)]: the standardized
    file and whether a conversion took place, or an exception. *)
Variable standardize_audio : string → res (string * bool).

(** [os.path.isdir(path)] *)
Variable isdir : string → bool.

(** [gen_ann(input_directory, input_audio_file, input_midi_file,
    output_directory, config)]; [os.makedirs] is left out. *)
Definition gen_ann
    (input_directory input_audio_file input_midi_file
       output_directory : string) (config : Config F)
    : M F (string * string * string) :=
  let! output_directory :=
    (if negb (String.eqb (output_dir config) "")
     then logger INFO "Using output directory from config" ;;;
          ret (output_dir config)
     else ret output_directory) in
  logger INFO "Standardizing audio" ;;;
  let! (standardized_audio, was_converted) :=
    lift_res (standardize_audio input_audio_file) in
  (if was_converted : bool then logger INFO "Converted audio format"
   else ret tt) ;;;
  let audio_base := fst (splitext (basename standardized_audio)) in
  let temp_ann_file :=
    path_join output_directory (audio_base +:+ "_temp.ann") in
  logger INFO "Converting MIDI to annotation" ;;;
  midi_to_ann E input_midi_file temp_ann_file ;;;
  ret (input_audio_file, standardized_audio, temp_ann_file).

(** [[f for f in files if f.lower().endswith(ext)]] *)
Definition files_with_extension (ext : string) (files : list string)
    : list string :=
  List.filter (λ f, endswith (lower f) ext) files.

(** [name in names] for a list of strings *)
Definition name_in (name : string) (names : list string) : bool :=
  existsb (String.eqb name) names.

(** The first loop of [check_matching_files], over the WAV files; the
    state is [(matches, wav_missing, total_wav)]. *)
Definition check_wav (mid_files : list string) (wav : string)
    (st : Z * Z * Z) : M F (Z * Z * Z) :=
  let '(matches, wav_missing, total_wav) := st in
  let total_wav := total_wav + 1 in
  let base_name := fst (splitext wav) in
  let midi_name := base_name +:+ ".mid" in
  if negb (name_in midi_name mid_files)
  then logger WARNING "No matching MIDI file" ;;;
       ret (matches, wav_missing + 1, total_wav)
  else ret (matches + 1, wav_missing, total_wav).

(** The second loop, over the MIDI files; the state is
    [(mid_missing, total_mid)]. *)
Definition check_mid (wav_files : list string) (mid : string)
    (st : Z * Z) : M F (Z * Z) :=
  let '(mid_missing, total_mid) := st in
  let total_mid := total_mid + 1 in
  let base_name := fst (splitext mid) in
  let wav_name := base_name +:+ ".wav" in
  if negb (name_in wav_name wav_files)
  then logger WARNING "No matching WAV file" ;;;
       ret (mid_missing + 1, total_mid)
  else ret (mid_missing, total_mid).

(** [check_matching_files(directory)]: [(matches, wav_missing,
    mid_missing)]. *)
Definition check_matching_files (directory : string) : M F (Z * Z * Z) :=
  if negb (isdir directory) then raise FileNotFoundError
  else
    let! (wav_files, mid_files) :=
      try_except
        (let! files := lift_res (listdir E directory) in
         ret (files_with_extension ".wav" files,
              files_with_extension ".mid" files))
        (λ e, logger ERROR "Error listing directory" ;;; raise e) in
    logger INFO "Checking WAV files for matching MIDI files" ;;;
    let! (matches, wav_missing, total_wav) :=
      for_each wav_files (check_wav mid_files) (0, 0, 0) in
    logger INFO "Checking MIDI files for matching WAV files" ;;;
    let! (mid_missing, total_mid) :=
      for_each mid_files (check_mid wav_files) (0, 0) in
    logger INFO "Matching Files Summary" ;;;
    logger INFO "Total WAV files" ;;;
    logger INFO "Total MIDI files" ;;;
    logger INFO "Complete matches found" ;;;
    logger INFO "WAV files without MIDI" ;;;
    logger INFO "MIDI files without WAV" ;;;
    ret (matches, wav_missing, mid_missing).

(** The names [main] takes as marks of a file that was already
    processed. *)
Definition effect_keywords : list string :=
  ["timestretch"; "pitchshift"; "reverb_filters"; "gain_chorus";
   "addpauses"; "merge"; "noise"].

(** [any(keyword in f for keyword in effect_keywords)] *)
Definition has_effect_keyword (f : string) : bool :=
  existsb (λ keyword, str_contains keyword f) effect_keywords.

(** [[f for f in audio_files
      if not any(keyword in f for keyword in effect_keywords)]] *)
Definition unprocessed_files (audio_files : list string) : list string :=
  List.filter (λ f, negb (has_effect_keyword f)) audio_files.

(** The configuration with one [enabled] flag cleared, as [main] does for
    an effect named by [--disable-effect]. *)
Definition disable_effect (effect : string) (config : Config F)
    : Config F :=
  let with_families ap ts ps rf gc ma an :=
    Build_Config F ap ts ps rf gc ma an (enable_random_suffix config)
      (num_workers config) (output_dir config) in
  let ap := add_pause config in
  let ts := time_stretch config in
  let ps := pitch_shift config in
  let rf := reverb_filter config in
  let gc := gain_chorus config in
  let ma := merge_audio config in
  let an := add_noise config in
  if String.eqb effect "pauses"
  then with_families
         (Build_AddPauseConfig F false (ap_pause_threshold ap)
            (ap_min_pause_duration ap) (ap_max_pause_duration ap))
         ts ps rf gc ma an
  else if String.eqb effect "timestretch"
  then with_families ap
         (Build_TimeStretchConfig F false (ts_variations ts)
            (ts_min_factor ts) (ts_max_factor ts) (ts_randomized ts))
         ps rf gc ma an
  else if String.eqb effect "pitchshift"
  then with_families ap ts
         (Build_PitchShiftConfig false (ps_variations ps)
            (ps_min_semitones ps) (ps_max_semitones ps) (ps_randomized ps))
         rf gc ma an
  else if String.eqb effect "reverb"
  then with_families ap ts ps
         (Build_ReverbFilterConfig false (rf_variations rf)
            (rf_min_room_scale rf) (rf_max_room_scale rf)
            (rf_cutoff_pairs rf))
         gc ma an
  else if String.eqb effect "chorus"
  then with_families ap ts ps rf
         (Build_GainChorusConfig F false (gc_variations gc) (gc_min_gain gc)
            (gc_max_gain gc) (gc_min_depth gc) (gc_max_depth gc)
            (gc_rates gc))
         ma an
  else if String.eqb effect "merge"
  then with_families ap ts ps rf gc
         (Build_MergeAudioConfig false (ma_merge_num ma)) an
  else if String.eqb effect "noise"
  then with_families ap ts ps rf gc ma
         (Build_AddNoiseConfig F false (an_variations an)
            (an_min_intensity an) (an_max_intensity an) (an_randomized an))
  else config.

(** [for effect in args.disable_effect: ...] *)
Definition disable_effects (effects : list string) (config : Config F)
    : Config F :=
  fold_left (λ config effect, disable_effect effect config) effects config.

(** The body of [for ann_file in all_ann_files] in [process_files]. *)
Definition convert_annotation (ann_file : string) (_ : unit) : M F unit :=
  try_except
    (ann_to_midi E ann_file ;;; delete_file ann_file ;;; ret tt)
    (λ _, logger ERROR "Error converting to MIDI").

(** [os.path.splitext(audio)[0] + ".mid"] *)
Definition matching_midi (audio : string) : string :=
  fst (splitext audio) +:+ ".mid".

(** The loop of [main] that writes the temporary annotations beforehand:
    [for audio in audio_files:
         audio_files_described.append(gen_ann(...))] *)
Definition generate_annotations (input_directory output_directory : string)
    (config : Config F) (audio_files : list string)
    : M F (list (string * string * string)) :=
  for_each audio_files
    (λ audio audio_files_described,
       let midi_path := path_join input_directory (matching_midi audio) in
       logger INFO "Generating ANN" ;;;
       let! described :=
         gen_ann input_directory
           (path_join input_directory audio) midi_path output_directory
           config in
       ret (audio_files_described ++ [described]))
    [].

(** The last loop of [main]:
    [for _, _, temp_ann_file in audio_files_described:
         delete_file(temp_ann_file)] *)
Definition cleanup_annotations
    (audio_files_described : list (string * string * string)) : M F unit :=
  for_each audio_files_described
    (λ described _, delete_file (snd described) ;;; ret tt) tt.

End Driver.

(** ** Vocabulary of the properties *)

Section Vocabulary.
Context {F : Type} {F_eq : EqDecision F} {F_cnt : Countable F}
  {F_ops : PyFloat F}.
Variable E : env F.

(** A lowercase ASCII letter. *)
Definition is_lowercase_letter (c : ascii) : bool :=
  (97 <=? nat_of_ascii c)%nat && (nat_of_ascii c <=? 122)%nat.


(** Code that calls no transformation. *)
Definition keeps_calls {A} (m : M F A) : Prop :=
  ∀ w, calls (m w).2 = calls w.

(** Whether the first slot of a randomized sampler, started in world [w],
    uses up its retry budget. *)
Definition first_slot_exhausted {V} `{Countable V} (ident : V)
    (draw : M F V) (w : world F) : bool :=
  match retry_loop ident draw ∅ max_attempts ident 0%nat w with
  | (Ok (_, attempts), _) => (attempts =? max_attempts)%nat
  | (Raise _, _) => false
  end.

(** Whether the first gain/chorus slot, started in [w], uses up the
    retry budget of its depth loop or of its gain loop. *)
Definition chorus_first_slot_exhausted (config : Config F) (w : world F)
    : bool :=
  let gc := gain_chorus config in
  match retry_loop f_zero
          (random_uniform_round1 E (gc_min_depth gc) (gc_max_depth gc))
          ∅ max_attempts f_zero 0%nat w with
  | (Ok (_, depth_attempts), w1) =>
      match retry_loop 0
              (random_randint E (gc_min_gain gc) (gc_max_gain gc))
              ∅ max_attempts 0 0%nat w1 with
      | (Ok (_, gain_attempts), _) =>
          (depth_attempts =? max_attempts)%nat
          || (gain_attempts =? max_attempts)%nat
      | (Raise _, _) => false
      end
  | (Raise _, _) => false
  end.

(** The sample of a signal at index [j], zero past its end. *)
Definition sample_at (x : list F) (j : nat) : F := default f_zero (x !! j).

(** The sum, in order, of the samples at index [j] of the signals. *)
Definition sum_at (signals : list (list F)) (j : nat) : F :=
  match signals with
  | [] => f_zero
  | r :: rs => foldl f_add (sample_at r j) (map (λ x, sample_at x j) rs)
  end.

(** The note a line decodes to: the line, stripped, has four tab-separated
    fields, the first two are accepted by [float] and the last two by
    [int]. *)
Definition parse_line (line : string) : option (Note F) :=
  match split tab (strip line) with
  | [onset_str; offset_str; pitch_str; velocity_str] =>
      match py_float E onset_str, py_float E offset_str,
            py_int E pitch_str, py_int E velocity_str with
      | Some onset, Some offset, Some pitch, Some velocity =>
          Some (mkNote velocity pitch onset offset)
      | _, _, _, _ => None
      end
  | _ => None
  end.

(** What the decoder logs for a line. *)
Definition line_warning (line : string) : list (level * string) :=
  match split tab (strip line) with
  | [onset_str; offset_str; pitch_str; velocity_str] =>
      match py_float E onset_str, py_float E offset_str,
            py_int E pitch_str, py_int E velocity_str with
      | Some _, Some _, Some _, Some _ => []
      | _, _, _, _ => [(WARNING, "Error parsing line")]
      end
  | _ => [(WARNING, "Skipping malformed line")]
  end.

(** The world with more log entries. *)
Definition add_log (w : world F) (entries : list (level * string))
    : world F :=
  mkWorld (rng w) (log w ++ entries) (calls w) (text_files w)
    (audio_files w) (midi_files w).

(** The call the time-stretch family makes for one factor and one file
    name suffix. *)
Definition timestretch_call
    (audio_base audio_ext standardized_audio temp_ann_file
       output_directory : string) (stretch_factor : F)
    (random_suffix : string) : call F :=
  CallTimeStretch standardized_audio temp_ann_file
    (path_join output_directory
       (generate_output_filename (V_str := str_float E) audio_base "timestretch"
          stretch_factor random_suffix audio_ext))
    stretch_factor.

(** The [enabled] flag [process_effect] examines for an effect name; no
    flag is examined for a name that is none of the seven. *)
Definition enabled_for (effect : string) (config : Config F) : bool :=
  if String.eqb effect "pauses" then ap_enabled (add_pause config)
  else if String.eqb effect "timestretch"
  then ts_enabled (time_stretch config)
  else if String.eqb effect "pitchshift"
  then ps_enabled (pitch_shift config)
  else if String.eqb effect "reverb"
  then rf_enabled (reverb_filter config)
  else if String.eqb effect "chorus" then gc_enabled (gain_chorus config)
  else if String.eqb effect "merge" then ma_enabled (merge_audio config)
  else if String.eqb effect "noise" then an_enabled (add_noise config)
  else false.

(** What a family keeps of the outcome of one transformation: the
    annotation path when it is a non-empty string. *)
Definition kept_output (r : res (option string)) : list string :=
  match r with
  | Ok output_ann_file => append_if_truthy [] output_ann_file
  | Raise _ => []
  end.

(** The suffix the configuration asks for: none, or five characters. *)
Definition suffix_ok (config : Config F) (random_suffix : string) : Prop :=
  if enable_random_suffix config
  then String.length random_suffix = 5%nat
  else random_suffix = "".

(** [os.path.join(output_directory, generate_output_filename(...))] *)
Definition variant_path {V} {V_str : PyStr V}
    (output_directory audio_base effect_name : string) (measure : V)
    (random_suffix audio_ext : string) : string :=
  path_join output_directory
    (generate_output_filename audio_base effect_name measure random_suffix
       audio_ext).

(** The bound [variations] of [for i in range(variations)] in the families
    that sample by drawing: time-stretch and noise when [randomized] is
    set, reverb and gain/chorus always. *)
Definition drawn_variations (effect : string) (config : Config F)
    : option Z :=
  if String.eqb effect "timestretch"
  then if ts_randomized (time_stretch config)
       then Some (ts_variations (time_stretch config)) else None
  else if String.eqb effect "noise"
  then if an_randomized (add_noise config)
       then Some (an_variations (add_noise config)) else None
  else if String.eqb effect "reverb"
  then Some (rf_variations (reverb_filter config))
  else if String.eqb effect "chorus"
  then Some (gc_variations (gain_chorus config))
  else None.

(** The directory [gen_ann] and [process_files] write to: the one of the
    configuration when it names one. *)
Definition effective_output_directory (config : Config F)
    (output_directory : string) : string :=
  if negb (String.eqb (output_dir config) "") then output_dir config
  else output_directory.

(** A WAV file of the listing without the MIDI file of its name, and a
    MIDI file without its WAV file, as [check_matching_files] tests it. *)
Definition wav_without_mid (mid_files : list string) (wav : string)
    : bool :=
  negb (name_in (fst (splitext wav) +:+ ".mid") mid_files).

Definition mid_without_wav (wav_files : list string) (mid : string)
    : bool :=
  negb (name_in (fst (splitext mid) +:+ ".wav") wav_files).

Definition is_warning (entry : level * string) : bool :=
  bool_decide (entry.1 = WARNING).

(** A text that is empty or ends with a newline: every line of it is
    closed. *)
Fixpoint lines_closed (s : string) : bool :=
  match s with
  | EmptyString => true
  | String c EmptyString => Ascii.eqb c "010"
  | String _ s' => lines_closed s'
  end.

End Vocabulary.

(** Following the spec's words for grid mode: the distinct grid points
    without the identity value, trimmed from the end to [variations] of
    them. *)
Definition grid_trimmed_from_end (ident : Z) (pts : list Z)
    (variations : Z) : list Z :=
  take (Z.to_nat variations)
    (List.filter (λ x, negb (x =? ident)) (remove_dups pts)).


(** ** A concrete instance, for evaluating the model

    Floats are represented by integers counting tenths ([10] is [1.0]); the
    rounded uniform draw maps a raw random value into [[a, b]]; the
    transformations succeed and return [<output path>.ann]; the grids are
    exact where the points are whole tenths; [set.pop()] takes the least
    element; the MIDI codec is lossless. *)
Module Concrete.

Definition least (s : gset Z) : Z :=
  match elements s with
  | [] => 0
  | x :: l => foldr Z.min x l
  end.

Lemma foldr_min_elem (x : Z) (l : list Z) : foldr Z.min x l ∈ x :: l.
Proof.
  induction l as [|y l IH]; simpl; [left|].
  apply elem_of_cons in IH.
  destruct (Z.min_spec y (foldr Z.min x l)) as [[_ Hm]|[_ Hm]];
    rewrite Hm, !elem_of_cons; tauto.
Qed.

Lemma least_elem (s : gset Z) : s ≠ ∅ → least s ∈ s.
Proof.
  intros Hne. unfold least.
  destruct (elements s) as [|x l] eqn:Hel.
  - apply elements_empty_inv in Hel. apply leibniz_equiv in Hel. done.
  - apply elem_of_elements. rewrite Hel. apply foldr_min_elem.
Qed.

Global Instance SetPop_Z : SetPop Z :=
  {| set_pick := least; set_pick_elem := least_elem |}.

Global Instance PyFloat_tenths : PyFloat Z :=
  {| f_zero := 0; f_one := 10; f_add := Z.add |}.

Definition ann_of (out : string) : res (option string) :=
  Ok (Some (out +:+ ".ann")).

(** [num] evenly spaced points from [a] to [b], truncated toward zero. *)
Definition linspace_z (a b num : Z) : res (list Z) :=
  if num <? 0 then Raise ValueError
  else if num =? 1 then Ok [a]
  else Ok (map (λ i, Z.quot (a * (num - 1) + Z.of_nat i * (b - a))
                       (num - 1))
             (seq 0 (Z.to_nat num))).

(** Ten to the power of each point of [linspace_z], in tenths. *)
Definition logspace_tenths (a b num : Z) : res (list Z) :=
  match linspace_z a b num with
  | Ok exponents => Ok (map (λ e, 10 * 10 ^ (e / 10)) exponents)
  | Raise e => Raise e
  end.

Fixpoint parse_digits (s : string) (acc : Z) : option Z :=
  match s with
  | EmptyString => Some acc
  | String c s' =>
      let n := nat_of_ascii c in
      if (48 <=? n)%nat && (n <=? 57)%nat
      then parse_digits s' (10 * acc + Z.of_nat (n - 48))
      else None
  end.

(** [int(s)] on unsigned decimal numerals. *)
Definition int_of_string (s : string) : option Z :=
  if String.eqb s "" then None else parse_digits s 0.

(** [float(s)] on numerals [d+] and [d+.d], in tenths. *)
Definition tenths_of_string (s : string) : option Z :=
  match split "." s with
  | [a] => match int_of_string a with
           | Some n => Some (10 * n)
           | None => None
           end
  | [a; b] =>
      match int_of_string a, int_of_string b with
      | Some n, Some d => if d <? 10 then Some (10 * n + d) else None
      | _, _ => None
      end
  | _ => None
  end.

(** [f"{x:.6f}"] of a non-negative number of tenths. *)
Definition fmt6_tenths (x : Z) : string :=
  pretty (x / 10) +:+ "." +:+ pretty (x mod 10) +:+ "00000".

(** [str(x)] of a non-negative number of tenths. *)
Definition str_tenths (x : Z) : string :=
  pretty (x / 10) +:+ "." +:+ pretty (x mod 10).

Definition E0 (raw : nat → Z) (dir : list string) : env Z := {|
  entropy := raw;
  uniform_round1 := λ a b r, a + r mod (b - a + 1);
  calculate_time_distance := λ _ _ out _ _ _, ann_of out;
  apply_time_stretch := λ _ _ out _, ann_of out;
  apply_pitch_shift := λ _ _ out _, ann_of out;
  apply_reverb_and_filters := λ _ _ out _ _ _, ann_of out;
  apply_gain_and_chorus := λ _ _ out _ _ _, ann_of out;
  apply_noise := λ _ _ out _, ann_of out;
  np_linspace_float := linspace_z;
  np_linspace_int := linspace_z;
  np_logspace_float := logspace_tenths;
  librosa_resample := λ y _ _, y;
  listdir := λ _, Ok dir;
  py_float := tenths_of_string;
  py_int := int_of_string;
  fmt6 := fmt6_tenths;
  str_float := str_tenths;
  midi_codec := λ m, Ok m;
|}.

Definition w0 : world Z := mkWorld 0 [] [] ∅ ∅ ∅.

(** A configuration with every family enabled and one variation each; the
    examples below change one family at a time. *)
Definition config0 : Config Z := {|
  add_pause := {| ap_enabled := true; ap_pause_threshold := 10;
                  ap_min_pause_duration := 10;
                  ap_max_pause_duration := 20 |};
  time_stretch := {| ts_enabled := true; ts_variations := 1;
                     ts_min_factor := 8; ts_max_factor := 12;
                     ts_randomized := true |};
  pitch_shift := {| ps_enabled := true; ps_variations := 4;
                    ps_min_semitones := 1; ps_max_semitones := 2;
                    ps_randomized := true |};
  reverb_filter := {| rf_enabled := true; rf_variations := 1;
                      rf_min_room_scale := 1; rf_max_room_scale := 5;
                      rf_cutoff_pairs := [] |};
  gain_chorus := {| gc_enabled := true; gc_variations := 1;
                    gc_min_gain := 3; gc_max_gain := 3;
                    gc_min_depth := 1; gc_max_depth := 6;
                    gc_rates := [3] |};
  merge_audio := {| ma_enabled := true; ma_merge_num := 1 |};
  add_noise := {| an_enabled := true; an_variations := 2;
                  an_min_intensity := 0; an_max_intensity := 20;
                  an_randomized := false |};
  enable_random_suffix := false;
  num_workers := 1;
  output_dir := "";
|}.

(** The same with pitch-shift in grid mode over [[1, 3]], two variations. *)
Definition config_grid : Config Z := {|
  add_pause := add_pause config0;
  time_stretch := time_stretch config0;
  pitch_shift := {| ps_enabled := true; ps_variations := 2;
                    ps_min_semitones := 1; ps_max_semitones := 3;
                    ps_randomized := false |};
  reverb_filter := reverb_filter config0;
  gain_chorus := gain_chorus config0;
  merge_audio := merge_audio config0;
  add_noise := add_noise config0;
  enable_random_suffix := false;
  num_workers := 1;
  output_dir := "";
|}.

(** [process_effect] for the file [in/a.wav], written to [out]. *)
Definition run_family (E : env Z) (effect_type : string)
    (config : Config Z) : M Z (list string) :=
  process_effect E "in" effect_type "a" ".wav" "in/a.wav" "out/a_temp.ann"
    "out" config.

(** A world with the files a merge of [b.wav] into [a.wav] reads. *)
Definition w_merge : world Z :=
  mkWorld 0 [] []
    (<["out/b_temp.ann" := "0.500000" +:+ TAB +:+ "1.000000" +:+ TAB
                             +:+ "60" +:+ TAB +:+ "80" +:+ NL]>
       (<["out/a_temp.ann" := "0.000000" +:+ TAB +:+ "2.000000" +:+ TAB
                                +:+ "72" +:+ TAB +:+ "90" +:+ NL]> ∅))
    (<["in/b.wav" := ([1; 2; 3], 22050)]>
       (<["in/a.wav" := ([10; 20], 44100)]> ∅))
    ∅.


(** The same with two variations of reverb and of gain/chorus, and one
    pair of cutoff frequencies. *)
Definition config_reverb : Config Z := {|
  add_pause := add_pause config0;
  time_stretch := time_stretch config0;
  pitch_shift := pitch_shift config0;
  reverb_filter := {| rf_enabled := true; rf_variations := 2;
                      rf_min_room_scale := 1; rf_max_room_scale := 5;
                      rf_cutoff_pairs := [(100, 1000)] |};
  gain_chorus := {| gc_enabled := true; gc_variations := 2;
                    gc_min_gain := 1; gc_max_gain := 4;
                    gc_min_depth := 1; gc_max_depth := 6;
                    gc_rates := [3] |};
  merge_audio := merge_audio config0;
  add_noise := add_noise config0;
  enable_random_suffix := false;
  num_workers := 1;
  output_dir := "";
|}.

(** The same with no reverb variation, and with a pitch-shift grid over
    [[0, 1]] that has one non-zero point for two variations. *)
Definition config_short : Config Z := {|
  add_pause := add_pause config0;
  time_stretch := time_stretch config0;
  pitch_shift := {| ps_enabled := true; ps_variations := 2;
                    ps_min_semitones := 0; ps_max_semitones := 1;
                    ps_randomized := false |};
  reverb_filter := {| rf_enabled := true; rf_variations := 0;
                      rf_min_room_scale := 1; rf_max_room_scale := 5;
                      rf_cutoff_pairs := [(100, 1000)] |};
  gain_chorus := gain_chorus config0;
  merge_audio := merge_audio config0;
  add_noise := add_noise config0;
  enable_random_suffix := false;
  num_workers := 1;
  output_dir := "";
|}.

(** [standardize_audio] on recordings that need no conversion. *)
Definition standardize_same (path : string) : res (string * bool) :=
  Ok (path, false).

Definition isdir_any (_ : string) : bool := true.

(** A world with the MIDI file of [in/a.wav] and none for [in/b.wav]. *)
Definition w_midi : world Z :=
  mkWorld 0 [] [] ∅ ∅ (<["in/a.mid" := [[mkNote 80 60 15 20]]]> ∅).

End Concrete.

(** * Properties *)

(** ** The monad and the loops *)

Section MonadFacts.
Context {F : Type}.

Lemma bind_Ok {A B} (m : M F A) (k : A → M F B) w b w' :
  bind m k w = (Ok b, w') →
  ∃ a w1, m w = (Ok a, w1) ∧ k a w1 = (Ok b, w').
Proof.
  unfold bind. destruct (m w) as [[a|e] w1]; [eauto | discriminate].
Qed.

Lemma bind_run {A B} (m : M F A) (k : A → M F B) w a w1 :
  m w = (Ok a, w1) → bind m k w = k a w1.
Proof. unfold bind. intros ->. reflexivity. Qed.

Lemma bind_raise {A B} (m : M F A) (k : A → M F B) w e w1 :
  m w = (Raise e, w1) → bind m k w = (Raise e, w1).
Proof. unfold bind. intros ->. reflexivity. Qed.



(** A loop keeps an invariant indexed by the number of iterations made. *)
Lemma for_each_inv {A St} (I : nat → St → world F → Prop)
    (l : list A) (body : A → St → M F St) :
  (∀ k x st w st' w',
      l !! k = Some x → I k st w → body x st w = (Ok st', w') →
      I (S k) st' w') →
  ∀ st w st' w',
    I 0%nat st w → for_each l body st w = (Ok st', w') →
    I (length l) st' w'.
Proof.
  revert I. induction l as [|x l IH]; intros I Hstep st w st' w' H0 Hrun.
  - simpl in Hrun. injection Hrun as <- <-. exact H0.
  - simpl in Hrun. apply bind_Ok in Hrun as (st1 & w1 & Hb & Hrest).
    apply (IH (λ k, I (S k))) with (st := st1) (w := w1); try done.
    + intros k y st2 w2 st3 w3 Hk HI Hy.
      apply (Hstep (S k) y st2 w2); done.
    + apply (Hstep 0%nat x st w); done.
Qed.


Lemma lookup_seq_0 (n k x : nat) : seq 0 n !! k = Some x → x = k ∧ (k < n)%nat.
Proof. intros H. apply lookup_seq in H. lia. Qed.

End MonadFacts.

Section PipelineFacts.
Context {F : Type} {F_eq : EqDecision F} {F_cnt : Countable F}
  {F_ops : PyFloat F} {F_pop : SetPop F} {Z_pop : SetPop Z}.
Variable E : env F.

(** *** [random_word] *)

Lemma random_choice_lowercase (w : world F) :
  ∃ c w', random_choice E (list_ascii_of_string ascii_lowercase) w
            = (Ok c, w')
          ∧ is_lowercase_letter c = true.
Proof.
  unfold random_choice, ascii_lowercase. cbn [list_ascii_of_string].
  eexists _, _. split; [reflexivity|].
  set (k := Z.to_nat _).
  assert (Hk : (k < 26)%nat).
  { subst k. cbn [length].
    pose proof (Z.mod_pos_bound (entropy E (rng w)) 26 ltac:(lia)). lia. }
  do 26 (destruct k as [|k]; [reflexivity|]). lia.
Qed.

Lemma random_letters_spec (n : nat) (w : world F) :
  ∃ s w', random_letters E n w = (Ok s, w')
          ∧ String.length s = n
          ∧ Forall (λ c, is_lowercase_letter c = true)
              (list_ascii_of_string s).
Proof.
  revert w. induction n as [|n IH]; intros w.
  - exists "", w. repeat split. constructor.
  - destruct (random_choice_lowercase w) as (c & w1 & Hc & Hlow).
    destruct (IH w1) as (s & w2 & Hs & Hlen & Hall).
    exists (String c s), w2. split; [|split].
    + cbn [random_letters].
      rewrite (bind_run _ _ _ _ _ Hc), (bind_run _ _ _ _ _ Hs).
      reflexivity.
    + simpl. congruence.
    + simpl. constructor; assumption.
Qed.

(** *** The retry loop and one slot *)

Section Sampler.
Context {V : Type} {V_eq : EqDecision V} {V_cnt : Countable V}.
Variables (ident : V) (draw : M F V) (warning : string).

Lemma retry_loop_Ok (generated : gset V) fuel x a w y a' w' :
  retry_loop ident draw generated fuel x a w = (Ok (y, a'), w') →
  (a ≤ a' ≤ a + fuel)%nat
  ∧ ((y ≠ ident ∧ y ∉ generated)
     ∨ (max_attempts ≤ a')%nat ∨ a' = (a + fuel)%nat).
Proof.
  revert x a w. induction fuel as [|fuel IH]; intros x a w Hrun.
  - injection Hrun as <- <- <-. split; [lia|]. right. right. lia.
  - cbn [retry_loop] in Hrun.
    destruct ((bool_decide (x = ident) || bool_decide (x ∈ generated))
              && (a <? max_attempts)%nat) eqn:Hc.
    + apply bind_Ok in Hrun as (x' & w1 & _ & Hrun).
      apply IH in Hrun as [Hle Hcase]. split; [lia|].
      destruct Hcase as [?|[?|?]]; [by left | right; by left |].
      right. right. lia.
    + injection Hrun as <- <- <-. split; [lia|].
      apply andb_false_iff in Hc as [Hc|Hc].
      * left. apply orb_false_iff in Hc as [H1 H2].
        apply bool_decide_eq_false in H1, H2. done.
      * right. left. apply Nat.ltb_ge in Hc. done.
Qed.

(** The fuel given to the loop is never what stops it. *)
Lemma retry_loop_fuel (generated : gset V) fuel x a w :
  (max_attempts - a ≤ fuel)%nat →
  retry_loop ident draw generated (S fuel) x a w
  = retry_loop ident draw generated fuel x a w.
Proof.
  revert x a w. induction fuel as [|fuel IH]; intros x a w Hle.
  - cbn [retry_loop].
    replace (a <? max_attempts)%nat with false
      by (symmetry; apply Nat.ltb_ge; lia).
    by rewrite andb_false_r.
  - cbn [retry_loop].
    destruct ((bool_decide (x = ident) || bool_decide (x ∈ generated))
              && (a <? max_attempts)%nat); [|reflexivity].
    unfold bind. destruct (draw w) as [[x'|e] w1]; [|reflexivity].
    rewrite <- (IH x' (S a) w1) by lia. reflexivity.
Qed.


(** A slot after the first adds nothing, or a fresh value other than
    the identity value. *)
Lemma sample_slot_later (i : nat) (generated : gset V) w r w' :
  (0 < i)%nat →
  sample_slot ident draw warning i generated w = (Ok r, w') →
  match r with
  | None => True
  | Some x => x ≠ ident ∧ x ∉ generated
  end.
Proof.
  intros Hi Hrun. unfold sample_slot in Hrun.
  apply bind_Ok in Hrun as ([x a] & w1 & Hloop & Hrun).
  apply retry_loop_Ok in Hloop as [Hle Hcase].
  destruct (a =? max_attempts)%nat eqn:Ha.
  - apply bind_Ok in Hrun as (_ & w2 & _ & Hrun).
    replace (0 <? i)%nat with true in Hrun
      by (symmetry; apply Nat.ltb_lt; done).
    injection Hrun as <- <-. done.
  - injection Hrun as <- <-. apply Nat.eqb_neq in Ha.
    destruct Hcase as [?|[?|?]]; [done | lia | lia].
Qed.

(** The first slot always adds a value; that value is the identity
    value only if the retry budget was used up. *)
Lemma sample_slot_first w r w' :
  sample_slot ident draw warning 0 ∅ w = (Ok r, w') →
  ∃ x, r = Some x
       ∧ (x = ident → first_slot_exhausted ident draw w = true).
Proof.
  intros Hrun. unfold sample_slot in Hrun. unfold first_slot_exhausted.
  apply bind_Ok in Hrun as ([x a] & w1 & Hloop & Hrun).
  rewrite Hloop.
  pose proof (retry_loop_Ok _ _ _ _ _ _ _ _ Hloop) as [Hle Hcase].
  destruct (a =? max_attempts)%nat eqn:Ha.
  - apply bind_Ok in Hrun as (_ & w2 & _ & Hrun).
    cbn [Nat.ltb Nat.leb] in Hrun.
    apply bind_Ok in Hrun as (x' & w3 & _ & Hrun).
    injection Hrun as <- <-. eauto.
  - injection Hrun as <- <-. exists x. split; [done|].
    apply Nat.eqb_neq in Ha.
    destruct Hcase as [[? ?]|[?|?]]; [done | lia | lia].
Qed.


(** The randomized sampler: the identity value gets in only through
    the first slot's fallback. *)
Lemma sample_randomized_identity (variations : Z) w generated w' :
  sample_randomized ident draw warning variations w
    = (Ok generated, w') →
  ident ∈ generated →
  first_slot_exhausted ident draw w = true.
Proof.
  unfold sample_randomized, for_range. intros Hrun.
  pose (I := λ (k : nat) (st : gset V) (w1 : world F),
          (k = 0%nat → st = ∅ ∧ w1 = w)
          ∧ (ident ∈ st → first_slot_exhausted ident draw w = true)).
  assert (HI : I (length (seq 0 (Z.to_nat variations))) generated w').
  { eapply (for_each_inv I); [| |exact Hrun].
    - intros k x st w1 st' w1' Hk [H0 Hid] Hbody.
      apply lookup_seq_0 in Hk as [-> Hlt].
      apply bind_Ok in Hbody as (r & w2 & Hslot & Hret).
      split; [lia|].
      destruct k as [|k].
      + destruct H0 as [-> ->]; [done|].
        apply sample_slot_first in Hslot as (x & -> & Hx).
        injection Hret as <- <-. intros Hin.
        apply Hx. set_solver.
      + apply sample_slot_later in Hslot; [|lia].
        destruct r as [x|]; injection Hret as <- <-; [|done].
        intros Hin. apply Hid. set_solver.
    - split; [done|]. set_solver. }
  apply HI.
Qed.


End Sampler.

(** *** Grid mode *)

Section Grid.
Context {V : Type} {V_eq : EqDecision V} {V_cnt : Countable V}
  {V_pop : SetPop V}.

Lemma pop_while_longer_fuel fuel (generated : gset V) variations
    (w : world F) :
  (size generated < fuel)%nat →
  pop_while_longer (S fuel) generated variations w
  = pop_while_longer fuel generated variations w.
Proof.
  revert generated. induction fuel as [|fuel IH]; intros s Hlt; [lia|].
  cbn [pop_while_longer].
  destruct (Z.of_nat (size s) >? variations); [|reflexivity].
  destruct (decide (s = ∅)) as [|Hne]; [reflexivity|].
  rewrite <- IH; [reflexivity|].
  assert (size s ≠ 0%nat).
  { intros Hz%size_empty_inv. apply Hne. by apply leibniz_equiv. }
  rewrite size_difference, size_singleton.
  - lia.
  - apply singleton_subseteq_l, set_pick_elem, Hne.
Qed.

Lemma pop_while_longer_spec fuel (generated : gset V) variations
    (w : world F) :
  (size generated < fuel)%nat → 0 ≤ variations →
  ∃ trimmed,
    pop_while_longer fuel generated variations w = (Ok trimmed, w)
    ∧ trimmed ⊆ generated
    ∧ size trimmed = Nat.min (Z.to_nat variations) (size generated).
Proof.
  intros Hlt Hv. revert generated Hlt.
  induction fuel as [|fuel IH]; intros s Hlt; [lia|].
  cbn [pop_while_longer].
  destruct (Z.of_nat (size s) >? variations) eqn:Hc.
  - apply Z.gtb_lt in Hc.
    destruct (decide (s = ∅)) as [->|Hne].
    { rewrite size_empty in Hc. lia. }
    assert (Hsz : size (s ∖ {[set_pick s]}) = (size s - 1)%nat).
    { rewrite size_difference, size_singleton; [done|].
      apply singleton_subseteq_l, set_pick_elem, Hne. }
    destruct (IH (s ∖ {[set_pick s]})) as (t & Hrun & Hsub & Hsize);
      [lia|].
    exists t. split; [exact Hrun|]. split; [set_solver|]. lia.
  - exists s. split; [reflexivity|]. split; [done|].
    rewrite Z.gtb_ltb in Hc. apply Z.ltb_ge in Hc. lia.
Qed.

(** Grid mode on the points numpy returns: the distinct points without
    the identity value, cut down to [variations] of them. *)
Lemma sample_grid_spec (ident : V) (pts : list V)
    (before_trim : gset V → M F unit) (variations : Z) (w : world F) :
  0 ≤ variations →
  (∀ s w1, ∃ w2, before_trim s w1 = (Ok tt, w2)) →
  ∃ generated w',
    sample_grid ident (Ok pts) before_trim variations w
      = (Ok generated, w')
    ∧ (ident ∉ generated)
    ∧ (generated ⊆ list_to_set pts ∖ {[ident]})
    ∧ size generated
      = Nat.min (Z.to_nat variations)
          (size (list_to_set pts ∖ {[ident]} : gset V)).
Proof.
  intros Hv Hbt. unfold sample_grid.
  rewrite (bind_run _ _ w pts w) by reflexivity.
  destruct (Hbt (list_to_set pts ∖ {[ident]}) w) as (w2 & Hb).
  rewrite (bind_run _ _ _ _ _ Hb).
  destruct (pop_while_longer_spec
              (S (size (list_to_set pts ∖ {[ident]} : gset V)))
              (list_to_set pts ∖ {[ident]}) variations w2)
    as (t & Hrun & Hsub & Hsize); [lia | done |].
  exists t, w2. split; [exact Hrun|]. split; [set_solver|]. done.
Qed.

Lemma pop_while_longer_subset fuel (generated : gset V) variations
    (w : world F) trimmed w' :
  pop_while_longer fuel generated variations w = (Ok trimmed, w') →
  trimmed ⊆ generated.
Proof.
  revert generated. induction fuel as [|fuel IH]; intros s Hrun.
  - injection Hrun as <- <-. done.
  - cbn [pop_while_longer] in Hrun.
    destruct (Z.of_nat (size s) >? variations).
    + destruct (decide (s = ∅)); [discriminate|].
      apply IH in Hrun. set_solver.
    + injection Hrun as <- <-. done.
Qed.

Lemma sample_grid_identity (ident : V) (points : res (list V))
    (before_trim : gset V → M F unit) (variations : Z) (w : world F)
    generated w' :
  sample_grid ident points before_trim variations w
    = (Ok generated, w') →
  ident ∉ generated.
Proof.
  unfold sample_grid. intros Hrun.
  apply bind_Ok in Hrun as (pts & w1 & _ & Hrun).
  apply bind_Ok in Hrun as (_ & w2 & _ & Hrun).
  apply pop_while_longer_subset in Hrun. set_solver.
Qed.

End Grid.

(** *** The draws *)



Lemma random_randint_range (a b : Z) w x w' :
  random_randint E a b w = (Ok x, w') → a ≤ x ≤ b.
Proof.
  unfold random_randint. destruct (a >? b) eqn:Hab; [discriminate|].
  rewrite Z.gtb_ltb in Hab. apply Z.ltb_ge in Hab.
  intros Hrun. injection Hrun as <- <-.
  pose proof (Z.mod_pos_bound (entropy E (rng w)) (b - a + 1)). lia.
Qed.

(** *** The reverb and gain/chorus loops *)

Section Loops.
Variables (audio_base audio_ext : string).
Variables (standardized_audio temp_ann_file output_directory : string).
Variable config : Config F.

Let reverb_draw : M F Z :=
  random_randint E (rf_min_room_scale (reverb_filter config))
    (rf_max_room_scale (reverb_filter config)).

Lemma reverb_loop_identity w generated new_ann_files w' :
  reverb_loop E audio_base audio_ext standardized_audio temp_ann_file
    output_directory config w = (Ok (generated, new_ann_files), w') →
  0 ∈ generated →
  first_slot_exhausted 0 reverb_draw w = true.
Proof.
  unfold reverb_loop, for_range. intros Hrun.
  pose (I := λ (k : nat) (st : gset Z * list string) (w1 : world F),
          (k = 0%nat → st.1 = ∅ ∧ w1 = w)
          ∧ (0 ∈ st.1 → first_slot_exhausted 0 reverb_draw w = true)).
  enough (HI : I (length (seq 0 (Z.to_nat
                    (rf_variations (reverb_filter config)))))
                 (generated, new_ann_files) w') by apply HI.
  eapply (for_each_inv I); [| |exact Hrun].
  - intros k x [st files] w1 st' w1' Hk [H0 Hid] Hbody.
    apply lookup_seq_0 in Hk as [-> Hlt].
    unfold reverb_slot in Hbody.
    apply bind_Ok in Hbody as (r & w2 & Hslot & Hret).
    split; [lia|]. simpl in *.
    destruct k as [|k].
    + destruct H0 as [-> ->]; [done|].
      apply sample_slot_first in Hslot as (x & -> & Hx).
      apply bind_Ok in Hret as (files' & w3 & _ & Hret).
      injection Hret as <- <-. simpl. intros Hin.
      apply Hx. set_solver.
    + apply sample_slot_later in Hslot; [|lia].
      destruct r as [x|].
      * apply bind_Ok in Hret as (files' & w3 & _ & Hret).
        injection Hret as <- <-. simpl. intros Hin.
        apply Hid. set_solver.
      * injection Hret as <- <-. done.
  - split; [done|]. simpl. set_solver.
Qed.

Lemma chorus_sample_slot_later (i : nat) depths gains w r w' :
  (0 < i)%nat →
  chorus_sample_slot E config i depths gains w = (Ok r, w') →
  match r with
  | None => True
  | Some (depth, gain) => depth ≠ f_zero ∧ gain ≠ 0
  end.
Proof.
  intros Hi Hrun. unfold chorus_sample_slot in Hrun.
  apply bind_Ok in Hrun as ([d da] & w1 & Hd & Hrun).
  apply bind_Ok in Hrun as ([g ga] & w2 & Hg & Hrun).
  apply retry_loop_Ok in Hd as [Hdle Hdc].
  apply retry_loop_Ok in Hg as [Hgle Hgc].
  destruct ((da =? max_attempts)%nat || (ga =? max_attempts)%nat)
    eqn:Hex.
  - apply bind_Ok in Hrun as (_ & w3 & _ & Hrun).
    replace (0 <? i)%nat with true in Hrun
      by (symmetry; apply Nat.ltb_lt; done).
    injection Hrun as <- <-. done.
  - injection Hrun as <- <-.
    apply orb_false_iff in Hex as [Hda Hga].
    apply Nat.eqb_neq in Hda, Hga.
    destruct Hdc as [[? ?]|[?|?]]; [|lia|lia].
    destruct Hgc as [[? ?]|[?|?]]; [done|lia|lia].
Qed.

Lemma chorus_sample_slot_first w r w' :
  chorus_sample_slot E config 0 ∅ ∅ w = (Ok r, w') →
  ∃ depth gain,
    r = Some (depth, gain)
    ∧ (depth = f_zero ∨ gain = 0 →
       chorus_first_slot_exhausted E config w = true).
Proof.
  intros Hrun. unfold chorus_sample_slot in Hrun.
  unfold chorus_first_slot_exhausted.
  apply bind_Ok in Hrun as ([d da] & w1 & Hd & Hrun).
  apply bind_Ok in Hrun as ([g ga] & w2 & Hg & Hrun).
  cbv zeta. rewrite Hd, Hg.
  apply retry_loop_Ok in Hd as [Hdle Hdc].
  apply retry_loop_Ok in Hg as [Hgle Hgc].
  destruct ((da =? max_attempts)%nat || (ga =? max_attempts)%nat)
    eqn:Hex.
  - apply bind_Ok in Hrun as (_ & w3 & _ & Hrun).
    cbn [Nat.ltb Nat.leb] in Hrun.
    apply bind_Ok in Hrun as (d' & w4 & _ & Hrun).
    apply bind_Ok in Hrun as (g' & w5 & _ & Hrun).
    injection Hrun as <- <-. eauto.
  - injection Hrun as <- <-. exists d, g. split; [done|].
    apply orb_false_iff in Hex as [Hda Hga].
    apply Nat.eqb_neq in Hda, Hga.
    destruct Hdc as [[? ?]|[?|?]]; [|lia|lia].
    destruct Hgc as [[? ?]|[?|?]]; [|lia|lia].
    intros [?|?]; done.
Qed.

Lemma chorus_loop_identity w depths gains new_ann_files w' :
  chorus_loop E audio_base audio_ext standardized_audio temp_ann_file
    output_directory config w
    = (Ok (depths, gains, new_ann_files), w') →
  f_zero ∈ depths ∨ 0 ∈ gains →
  chorus_first_slot_exhausted E config w = true.
Proof.
  unfold chorus_loop, for_range. intros Hrun.
  pose (I := λ (k : nat) (st : gset F * gset Z * list string)
               (w1 : world F),
          (k = 0%nat → st.1.1 = ∅ ∧ st.1.2 = ∅ ∧ w1 = w)
          ∧ (f_zero ∈ st.1.1 ∨ 0 ∈ st.1.2 →
             chorus_first_slot_exhausted E config w = true)).
  enough (HI : I (length (seq 0 (Z.to_nat
                    (gc_variations (gain_chorus config)))))
                 (depths, gains, new_ann_files) w') by apply HI.
  eapply (for_each_inv I); [| |exact Hrun].
  - intros k x [[ds gs] files] w1 st' w1' Hk [H0 Hid] Hbody.
    apply lookup_seq_0 in Hk as [-> Hlt].
    unfold chorus_slot in Hbody.
    apply bind_Ok in Hbody as (r & w2 & Hslot & Hret).
    split; [lia|]. simpl in *.
    destruct k as [|k].
    + destruct H0 as (-> & -> & ->); [done|].
      apply chorus_sample_slot_first in Hslot as (d & g & -> & Hx).
      apply bind_Ok in Hret as (files' & w3 & _ & Hret).
      injection Hret as <- <-. simpl. intros Hin.
      apply Hx. set_solver.
    + apply chorus_sample_slot_later in Hslot; [|lia].
      destruct r as [[d g]|].
      * apply bind_Ok in Hret as (files' & w3 & _ & Hret).
        injection Hret as <- <-. simpl. intros Hin.
        apply Hid. set_solver.
      * injection Hret as <- <-. done.
  - split; [done|]. simpl. set_solver.
Qed.

End Loops.

(** *** The sampled parameter sets *)

(** C1 (as amended): the parameter set of every family has no duplicates;
    in grid mode it never contains the identity value (1.0 for the
    stretch factor and the noise intensity, 0 for semitones); in
    randomized mode -- also for the room scale and for the gain and depth
    of gain/chorus, which are always randomized -- it contains the
    identity value only if the first slot used up its retry budget, where
    the fallback draw is accepted unchecked. *)
Theorem sampled_sets_identity_only_by_fallback
    (audio_base audio_ext standardized_audio temp_ann_file
       output_directory : string) (config : Config F) (w : world F) :
  (∀ generated w',
      timestretch_factors E config w = (Ok generated, w') →
      NoDup (elements generated)
      ∧ (f_one ∈ generated →
         ts_randomized (time_stretch config) = true
         ∧ first_slot_exhausted f_one
             (random_uniform_round1 E
                (ts_min_factor (time_stretch config))
                (ts_max_factor (time_stretch config))) w = true))
  ∧ (∀ generated w',
        pitchshift_semitones_randomized E config w = (Ok generated, w') →
        NoDup (elements generated)
        ∧ (0 ∈ generated →
           first_slot_exhausted 0
             (random_randint E (ps_min_semitones (pitch_shift config))
                (ps_max_semitones (pitch_shift config))) w = true))
  ∧ (∀ generated w',
        pitchshift_semitones_grid E config w = (Ok generated, w') →
        NoDup (elements generated) ∧ 0 ∉ generated)
  ∧ (∀ generated w',
        noise_intensities E config w = (Ok generated, w') →
        NoDup (elements generated)
        ∧ (f_one ∈ generated →
           an_randomized (add_noise config) = true
           ∧ first_slot_exhausted f_one
               (random_uniform_round1 E
                  (an_min_intensity (add_noise config))
                  (an_max_intensity (add_noise config))) w = true))
  ∧ (∀ generated new_ann_files w',
        reverb_loop E audio_base audio_ext standardized_audio
          temp_ann_file output_directory config w
          = (Ok (generated, new_ann_files), w') →
        NoDup (elements generated)
        ∧ (0 ∈ generated →
           first_slot_exhausted 0
             (random_randint E (rf_min_room_scale (reverb_filter config))
                (rf_max_room_scale (reverb_filter config))) w = true))
  ∧ (∀ depths gains new_ann_files w',
        chorus_loop E audio_base audio_ext standardized_audio
          temp_ann_file output_directory config w
          = (Ok (depths, gains, new_ann_files), w') →
        NoDup (elements depths) ∧ NoDup (elements gains)
        ∧ (f_zero ∈ depths ∨ 0 ∈ gains →
           chorus_first_slot_exhausted E config w = true)).
Proof.
  repeat split; try apply NoDup_elements.
  - unfold timestretch_factors in H.
    destruct (ts_randomized (time_stretch config)); [done|].
    apply sample_grid_identity in H. done.
  - unfold timestretch_factors in H.
    destruct (ts_randomized (time_stretch config)).
    + eapply sample_randomized_identity; eassumption.
    + apply sample_grid_identity in H. done.
  - intros Hin. eapply sample_randomized_identity; eassumption.
  - eapply sample_grid_identity; eassumption.
  - unfold noise_intensities in H.
    destruct (an_randomized (add_noise config)); [done|].
    apply sample_grid_identity in H. done.
  - unfold noise_intensities in H.
    destruct (an_randomized (add_noise config)).
    + eapply sample_randomized_identity; eassumption.
    + apply sample_grid_identity in H. done.
  - intros Hin. eapply reverb_loop_identity; eassumption.
  - intros Hin. eapply chorus_loop_identity; eassumption.
Qed.


(** C4 (as amended): in grid mode (time-stretch, pitch-shift and noise;
    the other families have none) the sampler takes the [variations + 1]
    points numpy returns -- [np.linspace] over [[min, max]], truncated to
    integers for semitones, and [np.logspace] for the noise intensity --
    keeps the distinct ones, drops the identity value, and removes
    elements with [set.pop()], an arbitrary one each time, until at most
    [variations] are left.  So the identity value never appears, every
    value is a grid point, and the size is exactly the minimum of
    [variations] and the number of distinct grid points other than the
    identity value. *)
Theorem grid_sets_spec (config : Config F) (w : world F) :
  (∀ pts,
      ts_randomized (time_stretch config) = false →
      0 ≤ ts_variations (time_stretch config) →
      np_linspace_float E (ts_min_factor (time_stretch config))
        (ts_max_factor (time_stretch config))
        (ts_variations (time_stretch config) + 1) = Ok pts →
      ∃ generated w',
        timestretch_factors E config w = (Ok generated, w')
        ∧ (f_one ∉ generated)
        ∧ (generated ⊆ list_to_set pts ∖ {[f_one]})
        ∧ size generated
          = Nat.min (Z.to_nat (ts_variations (time_stretch config)))
              (size (list_to_set pts ∖ {[f_one]} : gset F)))
  ∧ (∀ pts,
        0 ≤ ps_variations (pitch_shift config) →
        np_linspace_int E (ps_min_semitones (pitch_shift config))
          (ps_max_semitones (pitch_shift config))
          (ps_variations (pitch_shift config) + 1) = Ok pts →
        ∃ generated w',
          pitchshift_semitones_grid E config w = (Ok generated, w')
          ∧ (0 ∉ generated)
          ∧ (generated ⊆ list_to_set pts ∖ {[0]})
          ∧ size generated
            = Nat.min (Z.to_nat (ps_variations (pitch_shift config)))
                (size (list_to_set pts ∖ {[0]} : gset Z)))
  ∧ (∀ pts,
        an_randomized (add_noise config) = false →
        0 ≤ an_variations (add_noise config) →
        np_logspace_float E (an_min_intensity (add_noise config))
          (an_max_intensity (add_noise config))
          (an_variations (add_noise config) + 1) = Ok pts →
        ∃ generated w',
          noise_intensities E config w = (Ok generated, w')
          ∧ (f_one ∉ generated)
          ∧ (generated ⊆ list_to_set pts ∖ {[f_one]})
          ∧ size generated
            = Nat.min (Z.to_nat (an_variations (add_noise config)))
                (size (list_to_set pts ∖ {[f_one]} : gset F))).
Proof.
  split; [|split].
  - intros pts Hr Hv Hpts. unfold timestretch_factors.
    rewrite Hr, Hpts. apply sample_grid_spec; [done|].
    intros s w1. by exists w1.
  - intros pts Hv Hpts. unfold pitchshift_semitones_grid.
    cbv zeta. rewrite Hpts. apply sample_grid_spec; [done|].
    intros s w1. destruct (_ <? _); by eexists.
  - intros pts Hr Hv Hpts. unfold noise_intensities.
    rewrite Hr, Hpts. apply sample_grid_spec; [done|].
    intros s w1. by exists w1.
Qed.

(** C10: for every integer [length], [random_word] returns without
    raising; the result is the empty string when [length ≤ 0], and
    otherwise has exactly [length] characters; every character is a
    lowercase ASCII letter. *)
Theorem random_word_spec (length : Z) (w : world F) :
  ∃ s w',
    random_word E length w = (Ok s, w')
    ∧ (if length <=? 0 then s = "" else String.length s = Z.to_nat length)
    ∧ Forall (λ c, is_lowercase_letter c = true) (list_ascii_of_string s).
Proof.
  unfold random_word. destruct (length <=? 0).
  - exists "", w. repeat split. constructor.
  - destruct (random_letters_spec (Z.to_nat length) w)
      as (s & w' & Hrun & Hlen & Hall).
    exists s, w'. done.
Qed.

(** *** Code that calls no transformation *)

Lemma keeps_ret {A} (a : A) : keeps_calls (ret a : M F A).
Proof. done. Qed.

Lemma keeps_raise {A} (e : exn) : keeps_calls (raise e : M F A).
Proof. done. Qed.

Lemma keeps_lift_res {A} (r : res A) : keeps_calls (lift_res r : M F A).
Proof. done. Qed.

Lemma keeps_bind {A B} (m : M F A) (k : A → M F B) :
  keeps_calls m → (∀ a, keeps_calls (k a)) → keeps_calls (bind m k).
Proof.
  intros Hm Hk w. unfold bind. specialize (Hm w).
  destruct (m w) as [[a|e] w1]; simpl in *; [|done].
  by rewrite Hk.
Qed.

Lemma keeps_try_except {A} (m : M F A) (h : exn → M F A) :
  keeps_calls m → (∀ e, keeps_calls (h e)) → keeps_calls (try_except m h).
Proof.
  intros Hm Hh w. unfold try_except. specialize (Hm w).
  destruct (m w) as [[a|e] w1]; simpl in *; [done|].
  by rewrite Hh.
Qed.

Lemma keeps_logger lvl msg : keeps_calls (logger lvl msg : M F unit).
Proof. done. Qed.

Lemma keeps_next_random : keeps_calls (next_random E).
Proof. done. Qed.

Lemma keeps_if {A} (b : bool) (m1 m2 : M F A) :
  keeps_calls m1 → keeps_calls m2 → keeps_calls (if b then m1 else m2).
Proof. by destruct b. Qed.

Create HintDb keeps discriminated.
Hint Resolve keeps_ret keeps_raise keeps_lift_res keeps_logger
  keeps_next_random : keeps.
Hint Extern 2 (keeps_calls (bind _ _)) =>
  apply keeps_bind; [|intros ?] : keeps.
Hint Extern 2 (keeps_calls (try_except _ _)) =>
  apply keeps_try_except; [|intros ?] : keeps.
Hint Extern 2 (keeps_calls (if _ then _ else _)) =>
  apply keeps_if : keeps.
Hint Extern 3 (keeps_calls (match ?x with _ => _ end)) =>
  destruct x : keeps.

Lemma keeps_random_randint a b : keeps_calls (random_randint E a b).
Proof. unfold random_randint. auto with keeps. Qed.

Lemma keeps_random_randrange n : keeps_calls (random_randrange E n).
Proof. unfold random_randrange. auto with keeps. Qed.

Lemma keeps_random_uniform_round1 a b :
  keeps_calls (random_uniform_round1 E a b).
Proof. unfold random_uniform_round1. auto with keeps. Qed.

Lemma keeps_for_each {A St} (l : list A) (body : A → St → M F St) st :
  (∀ x st, keeps_calls (body x st)) → keeps_calls (for_each l body st).
Proof.
  intros Hb. revert st. induction l as [|x l IH]; intros st; simpl.
  - apply keeps_ret.
  - apply keeps_bind; [apply Hb | apply IH].
Qed.


Lemma keeps_retry_loop {V} `{Countable V} (ident : V) (draw : M F V)
    generated fuel x a :
  keeps_calls draw → keeps_calls (retry_loop ident draw generated fuel x a).
Proof.
  intros Hd. revert x a. induction fuel as [|fuel IH]; intros x a;
    cbn [retry_loop]; auto with keeps.
Qed.

Lemma keeps_sample_slot {V} `{Countable V} (ident : V) (draw : M F V)
    warning i generated :
  keeps_calls draw →
  keeps_calls (sample_slot ident draw warning i generated).
Proof.
  intros Hd. unfold sample_slot.
  apply keeps_bind; [by apply keeps_retry_loop|].
  intros [x a]. auto with keeps.
Qed.

Lemma keeps_sample_randomized {V} `{Countable V} (ident : V)
    (draw : M F V) warning variations :
  keeps_calls draw →
  keeps_calls (sample_randomized ident draw warning variations).
Proof.
  intros Hd. unfold sample_randomized, for_range.
  apply keeps_for_each. intros i generated.
  apply keeps_bind; [by apply keeps_sample_slot|].
  intros [x|]; apply keeps_ret.
Qed.

(** C3, what the code does against the claim: whenever
    [config.pitch_shift.randomized] is set, [process_effect] samples the
    semitone set and then returns an empty list without calling
    [apply_pitch_shift] for any value: the loop over the set belongs to
    the grid branch only.  (The time-stretch sibling dispatches every
    value once, [timestretch_applies_each_once].) *)
Theorem pitchshift_randomized_applies_nothing
    (input_directory audio_base audio_ext standardized_audio temp_ann_file
       output_directory : string) (config : Config F) (w : world F) :
  ps_enabled (pitch_shift config) = true →
  ps_randomized (pitch_shift config) = true →
  ∃ w',
    process_effect E input_directory "pitchshift" audio_base audio_ext
      standardized_audio temp_ann_file output_directory config w
      = (Ok [], w')
    ∧ calls w' = calls w.
Proof.
  intros Hen Hr. unfold process_effect, process_effect_body.
  cbn [String.eqb Ascii.eqb Bool.eqb andb]. rewrite Hen.
  cbn [andb]. unfold pitchshift_branch. rewrite Hr.
  pose proof (keeps_sample_randomized 0
                (random_randint E (ps_min_semitones (pitch_shift config))
                   (ps_max_semitones (pitch_shift config)))
                "Could not find unique semitones value after 10 attempts"
                (ps_variations (pitch_shift config))
                (keeps_random_randint _ _) w) as Hk.
  unfold try_except, bind, pitchshift_semitones_randomized.
  destruct (sample_randomized _ _ _ _ w) as [[s|e] w1]; simpl in Hk.
  - exists w1. done.
  - eexists. split; [reflexivity|]. exact Hk.
Qed.

(** *** The unit boundary *)






(** *** The merge family *)






(** The fuel given to the selection loop is never what stops it. *)
Lemma select_audios_fuel fuel merge_num target audios4merge (w : world F) :
  merge_num - Z.of_nat (length audios4merge) ≤ Z.of_nat fuel →
  select_audios E (S fuel) merge_num target audios4merge w
  = select_audios E fuel merge_num target audios4merge w.
Proof.
  revert target audios4merge w.
  induction fuel as [|fuel IH]; intros target acc w Hle.
  - cbn [select_audios].
    replace (Z.of_nat (length acc) <? merge_num) with false
      by (symmetry; apply Z.ltb_ge; lia).
    reflexivity.
  - cbn [select_audios].
    destruct (Z.of_nat (length acc) <? merge_num); [|reflexivity].
    unfold bind.
    destruct (random_randrange E (Z.of_nat (length target)) w)
      as [[k|e] w1]; [|reflexivity].
    destruct (target !! Z.to_nat k) as [x|]; [|reflexivity].
    rewrite <- (IH (delete (Z.to_nat k) target) (acc ++ [x]) w1);
      [reflexivity|].
    rewrite length_app. simpl. lia.
Qed.




(** *** [merge_audios] *)

Lemma map_M_pure {A B} (f : A → M F B) (l : list A) (ys : list B)
    (w : world F) :
  Forall2 (λ x y, f x w = (Ok y, w)) l ys → map_M f l w = (Ok ys, w).
Proof.
  induction 1 as [|x y l ys Hx _ IH]; [reflexivity|].
  cbn [map_M]. rewrite (bind_run _ _ _ _ _ Hx), (bind_run _ _ _ _ _ IH).
  reflexivity.
Qed.

Lemma sample_at_np_pad (x : list F) (n j : nat) :
  sample_at (np_pad x n) j = sample_at x j.
Proof.
  unfold sample_at, np_pad.
  destruct (decide (j < length x)%nat) as [Hlt|Hge].
  - by rewrite lookup_app_l.
  - rewrite lookup_app_r by lia.
    rewrite (lookup_ge_None_2 x j) by lia.
    destruct (replicate n f_zero !! (j - length x)%nat) as [y|] eqn:Hy;
      [|done].
    apply lookup_replicate in Hy as [-> _]. done.
Qed.

Lemma length_np_pad (x : list F) (n : nat) :
  length (np_pad x n) = (length x + n)%nat.
Proof. unfold np_pad. by rewrite length_app, length_replicate. Qed.

Lemma foldl_zip_with_length (rs : list (list F)) (r : list F) (L : nat) :
  length r = L → Forall (λ x, length x = L) rs →
  length (foldl (zip_with f_add) r rs) = L.
Proof.
  intros Hr Hrs. revert r Hr.
  induction Hrs as [|x rs Hx _ IH]; intros r Hr; [done|].
  simpl. apply IH. rewrite length_zip_with. lia.
Qed.

Lemma foldl_zip_with_lookup (rs : list (list F)) (r : list F) (L j : nat) :
  length r = L → Forall (λ x, length x = L) rs → (j < L)%nat →
  foldl (zip_with f_add) r rs !! j
  = Some (foldl f_add (sample_at r j) (map (λ x, sample_at x j) rs)).
Proof.
  intros Hr Hrs Hj. revert r Hr.
  induction Hrs as [|x rs Hx _ IH]; intros r Hr.
  - simpl. unfold sample_at.
    destruct (lookup_lt_is_Some_2 r j) as [a Ha]; [lia|]. by rewrite Ha.
  - simpl. rewrite IH by (rewrite length_zip_with; lia).
    f_equal. f_equal. unfold sample_at. rewrite lookup_zip_with.
    destruct (lookup_lt_is_Some_2 r j) as [a Ha]; [lia|].
    destruct (lookup_lt_is_Some_2 x j) as [b Hb]; [lia|].
    by rewrite Ha, Hb.
Qed.

(** Padding every signal to the longest and summing the rows. *)
Lemma padded_sum_spec (signals : list (list F)) :
  signals ≠ [] →
  let L := max_list (map length signals) in
  let merged :=
    np_sum_axis0 (map (λ x, np_pad x (L - length x)) signals) in
  length merged = L
  ∧ ∀ j, (j < L)%nat → merged !! j = Some (sum_at signals j).
Proof.
  intros Hne L merged.
  assert (Hlen : Forall (λ x, length x = L)
                   (map (λ x, np_pad x (L - length x)) signals)).
  { apply Forall_fmap, Forall_forall. intros x Hx. simpl.
    rewrite length_np_pad.
    assert (length x ≤ L)%nat; [|lia].
    apply max_list_elem_of_le, list_elem_of_fmap. eauto. }
  subst merged. destruct signals as [|r rs]; [done|].
  cbn [map np_sum_axis0 fmap list_fmap] in *.
  apply Forall_cons in Hlen as [Hr Hrs]. split.
  - by apply foldl_zip_with_length.
  - intros j Hj. rewrite (foldl_zip_with_lookup _ _ L) by done.
    unfold sum_at. rewrite sample_at_np_pad. f_equal. f_equal.
    rewrite <- list_fmap_compose. apply list_fmap_ext.
    intros i x _. simpl. apply sample_at_np_pad.
Qed.

(** C6: [merge_audios] loads every selected file and the current file,
    resamples each to the one target rate, pads them with zeros to the
    greatest length among the resampled signals and adds them sample by
    sample: the written waveform has that greatest length and each of its
    samples is the sum of the (zero-padded) signals there.  The annotation it
    writes is the text of the selected files' annotations, in selection
    order, followed by the text of the current file's annotation. *)
Theorem merge_audios_spec
    (audios4merge : list string)
    (standardized_audio temp_ann input_directory output_directory
       output_filename : string) (target_sr : Z) (w : world F)
    (loaded : list (list F * Z)) (current : list F * Z)
    (contents : list string) (current_ann : string) :
  Forall2 (λ x a, audio_files w !! path_join input_directory x = Some a)
    audios4merge loaded →
  audio_files w !! standardized_audio = Some current →
  Forall2
    (λ x c,
       text_files w
         !! path_join output_directory (rsplit_dot_head x +:+ "_temp.ann")
       = Some c)
    audios4merge contents →
  text_files w !! temp_ann = Some current_ann →
  let resampled :=
    map (λ a, librosa_resample E a.1 a.2 target_sr) (loaded ++ [current]) in
  let longest := max_list (map length resampled) in
  let ann_path := path_join output_directory (output_filename +:+ ".ann") in
  let wav_path := path_join output_directory (output_filename +:+ ".wav") in
  ∃ merged w',
    merge_audios E audios4merge standardized_audio temp_ann input_directory
      output_directory output_filename target_sr w = (Ok ann_path, w')
    ∧ text_files w' !! ann_path
      = Some (concat_strings (contents ++ [current_ann]))
    ∧ audio_files w' !! wav_path = Some (merged, target_sr)
    ∧ length merged = longest
    ∧ ∀ j, (j < longest)%nat → merged !! j = Some (sum_at resampled j).
Proof.
  intros Hload Hcur Hann Htmp resampled longest ann_path wav_path.
  assert (Hl : map_M (λ x, librosa_load (path_join input_directory x))
                 audios4merge w = (Ok loaded, w)).
  { apply map_M_pure. eapply Forall2_impl; [exact Hload|].
    intros x a Hx. cbv beta in *. unfold librosa_load. by rewrite Hx. }
  assert (Hc : librosa_load standardized_audio w = (Ok current, w)).
  { unfold librosa_load. by rewrite Hcur. }
  assert (Hr : map_M read_text
                 (map (λ x, path_join output_directory
                              (rsplit_dot_head x +:+ "_temp.ann"))
                    audios4merge ++ [temp_ann]) w
               = (Ok (contents ++ [current_ann]), w)).
  { apply map_M_pure. apply Forall2_app.
    - apply Forall2_fmap_l. eapply Forall2_impl; [exact Hann|].
      intros x c Hx. unfold compose, read_text. by rewrite Hx.
    - constructor; [|constructor]. unfold read_text. by rewrite Htmp. }
  destruct (padded_sum_spec resampled) as [Hlen Hsum].
  { subst resampled. destruct loaded; discriminate. }
  eexists _, _. split; [|split; [|split; [|split]]].
  - unfold merge_audios.
    rewrite (bind_run _ _ _ _ _ Hl), (bind_run _ _ _ _ _ Hc). cbv zeta.
    rewrite (bind_run _ _ _ _ _ Hr). reflexivity.
  - cbn [text_files]. apply lookup_insert_eq.
  - cbn [audio_files]. apply lookup_insert_eq.
  - exact Hlen.
  - exact Hsum.
Qed.

(** *** The annotation codec *)

Lemma add_log_nil (w : world F) : add_log w [] = w.
Proof. destruct w. unfold add_log. simpl. by rewrite app_nil_r. Qed.

Lemma add_log_app (w : world F) l1 l2 :
  add_log (add_log w l1) l2 = add_log w (l1 ++ l2).
Proof. unfold add_log. simpl. by rewrite app_assoc. Qed.

Lemma decode_line_run (line : string) (notes : list (Note F)) w :
  decode_line E line notes w
  = (Ok (notes ++ option_list (parse_line E line)),
     add_log w (line_warning E line)).
Proof.
  unfold decode_line, parse_line, line_warning.
  destruct (split tab (strip line)) as [|a [|b [|c [|d [|e l]]]]];
    try (simpl; by rewrite app_nil_r).
  destruct (py_float E a), (py_float E b), (py_int E c), (py_int E d);
    simpl; rewrite ?app_nil_r, ?add_log_nil; reflexivity.
Qed.

Lemma decode_lines_run (lines : list string) (notes : list (Note F)) w :
  for_each lines (decode_line E) notes w
  = (Ok (notes ++ omap (parse_line E) lines),
     add_log w (flat_map (line_warning E) lines)).
Proof.
  revert notes w. induction lines as [|line lines IH]; intros notes w.
  - simpl. by rewrite app_nil_r, add_log_nil.
  - cbn [for_each]. rewrite (bind_run _ _ _ _ _ (decode_line_run _ _ _)).
    rewrite IH, add_log_app. simpl.
    destruct (parse_line E line); simpl; by rewrite <- ?app_assoc, ?app_nil_r.
Qed.



(** *** The dispatch loops *)

Lemma keeps_random_choice {A} (l : list A) : keeps_calls (random_choice E l).
Proof. unfold random_choice. destruct l; auto with keeps. Qed.

Lemma keeps_random_letters n : keeps_calls (random_letters E n).
Proof.
  induction n as [|n IH]; cbn [random_letters]; [apply keeps_ret|].
  apply keeps_bind; [apply keeps_random_choice|]. intros c.
  apply keeps_bind; [apply IH|]. intros rest. apply keeps_ret.
Qed.

(** The suffix of a file name: empty with the switch off, five letters
    with it on. *)
Lemma suffix_for_spec (config : Config F) (w : world F) :
  ∃ random_suffix w',
    suffix_for E config w = (Ok random_suffix, w')
    ∧ calls w' = calls w
    ∧ (if enable_random_suffix config
       then String.length random_suffix = 5%nat
       else random_suffix = "").
Proof.
  unfold suffix_for. destruct (enable_random_suffix config).
  - unfold random_word. cbn [Z.leb Z.compare].
    destruct (random_letters_spec (Z.to_nat 5) w)
      as (sfx & w' & Hrun & Hlen & _).
    exists sfx, w'. split; [exact Hrun|]. split; [|exact Hlen].
    pose proof (keeps_random_letters (Z.to_nat 5) w) as Hk.
    rewrite Hrun in Hk. exact Hk.
  - by exists "", w.
Qed.

Lemma guarded_apply_calls (c : call F) (r : res (option string))
    (error_message : string) (new_ann_files : list string) (w : world F) :
  ∃ new_ann_files' w',
    guarded_apply c r error_message new_ann_files w
      = (Ok new_ann_files', w')
    ∧ calls w' = calls w ++ [c].
Proof.
  unfold guarded_apply, try_except, invoke, bind, record_call, lift_res.
  destruct r as [o|e]; eexists _, _; split; reflexivity.
Qed.

Section Dispatch.
Variables (audio_base audio_ext : string).
Variables (standardized_audio temp_ann_file output_directory : string).
Variable config : Config F.

Let variant_call : F → string → call F :=
  timestretch_call E audio_base audio_ext standardized_audio temp_ann_file
    output_directory.

Lemma timestretch_apply_calls (stretch_factor : F)
    (new_ann_files : list string) (w : world F) :
  ∃ random_suffix new_ann_files' w',
    timestretch_apply E audio_base audio_ext standardized_audio
      temp_ann_file output_directory config stretch_factor new_ann_files w
      = (Ok new_ann_files', w')
    ∧ calls w' = calls w ++ [variant_call stretch_factor random_suffix]
    ∧ (if enable_random_suffix config
       then String.length random_suffix = 5%nat
       else random_suffix = "").
Proof.
  unfold timestretch_apply.
  destruct (suffix_for_spec config w) as (sfx & w1 & Hs & Hc & Hsfx).
  rewrite (bind_run _ _ _ _ _ Hs). cbv zeta.
  unfold bind at 1. cbn [logger].
  match goal with |- context [guarded_apply ?c ?r ?m ?l ?w2] =>
    destruct (guarded_apply_calls c r m l w2) as (l' & w' & Hg & Hcalls) end.
  exists sfx, l', w'. split; [exact Hg|]. split; [|exact Hsfx].
  rewrite Hcalls. cbn [calls]. rewrite Hc. reflexivity.
Qed.

(** The loop over the sampled factors calls [apply_time_stretch] once for
    each, in the order of the iteration. *)
Lemma timestretch_loop_calls (factors : list F)
    (new_ann_files : list string) (w : world F) :
  ∃ suffixes new_ann_files' w',
    for_each factors
      (timestretch_apply E audio_base audio_ext standardized_audio
         temp_ann_file output_directory config) new_ann_files w
      = (Ok new_ann_files', w')
    ∧ length suffixes = length factors
    ∧ calls w' = calls w ++ zip_with variant_call factors suffixes
    ∧ Forall (λ random_suffix,
                if enable_random_suffix config
                then String.length random_suffix = 5%nat
                else random_suffix = "") suffixes.
Proof.
  revert new_ann_files w.
  induction factors as [|x l IH]; intros files w.
  - exists [], files, w. simpl. rewrite app_nil_r. repeat split.
    constructor.
  - destruct (timestretch_apply_calls x files w)
      as (sfx & files1 & w1 & Hx & Hc1 & Hsfx).
    destruct (IH files1 w1) as (ss & files' & w' & Hl & Hlen & Hc & Hall).
    exists (sfx :: ss), files', w'. split; [|split; [|split]].
    + cbn [for_each]. rewrite (bind_run _ _ _ _ _ Hx). exact Hl.
    + simpl. by rewrite Hlen.
    + rewrite Hc, Hc1. simpl. by rewrite <- app_assoc.
    + by constructor.
Qed.

Lemma keeps_pop_while_longer {V} {V_eq : EqDecision V}
    {V_cnt : Countable V} {V_pop : SetPop V} fuel (generated : gset V)
    variations :
  keeps_calls (pop_while_longer fuel generated variations : M F (gset V)).
Proof.
  revert generated. induction fuel as [|fuel IH]; intros s;
    cbn [pop_while_longer]; [apply keeps_ret|].
  destruct (_ >? _); [|apply keeps_ret].
  destruct (decide (s = ∅)); [apply keeps_raise | apply IH].
Qed.

Lemma keeps_timestretch_factors : keeps_calls (timestretch_factors E config).
Proof.
  unfold timestretch_factors.
  destruct (ts_randomized (time_stretch config)).
  - apply keeps_sample_randomized, keeps_random_uniform_round1.
  - unfold sample_grid. apply keeps_bind; [apply keeps_lift_res|].
    intros pts. apply keeps_bind; [apply keeps_ret|]. intros _.
    apply keeps_pop_while_longer.
Qed.

(** The time-stretch family, in both modes, calls [apply_time_stretch]
    exactly once for every value of its sampled set, with a file name built
    by [generate_output_filename]; the suffix is empty when
    [enable_random_suffix] is off and has five letters when it is on. *)
Lemma timestretch_applies_each_once (w : world F) generated w1 :
  timestretch_factors E config w = (Ok generated, w1) →
  ∃ suffixes new_ann_files w',
    timestretch_branch E audio_base audio_ext standardized_audio
      temp_ann_file output_directory config w = (Ok new_ann_files, w')
    ∧ length suffixes = size generated
    ∧ calls w' = calls w ++ zip_with variant_call (elements generated) suffixes
    ∧ Forall (λ random_suffix,
                if enable_random_suffix config
                then String.length random_suffix = 5%nat
                else random_suffix = "") suffixes.
Proof.
  intros Hs. unfold timestretch_branch. rewrite (bind_run _ _ _ _ _ Hs).
  destruct (timestretch_loop_calls (elements generated) [] w1)
    as (ss & files & w' & Hl & Hlen & Hc & Hall).
  exists ss, files, w'. split; [exact Hl|]. split; [exact Hlen|].
  split; [|exact Hall].
  pose proof (keeps_timestretch_factors w) as Hk. rewrite Hs in Hk.
  simpl in Hk. by rewrite Hc, Hk.
Qed.

End Dispatch.

End PipelineFacts.

(** ** Further properties of the code *)

Section MoreFacts.
Context {F : Type} {F_eq : EqDecision F} {F_cnt : Countable F}
  {F_ops : PyFloat F} {F_pop : SetPop F} {Z_pop : SetPop Z}.
Variable E : env F.

(** *** Where sampled values come from, and how many draws they cost *)

Section SamplerDraws.
Context {V : Type} {V_eq : EqDecision V} {V_cnt : Countable V}.
Variables (ident : V) (draw : M F V) (warning : string).

Lemma retry_loop_drawn (generated : gset V) fuel x a w y a' w' :
  retry_loop ident draw generated fuel x a w = (Ok (y, a'), w') →
  (y = x ∧ a' = a ∧ w' = w) ∨ ∃ w1 w2, draw w1 = (Ok y, w2).
Proof.
  revert x a w. induction fuel as [|fuel IH]; intros x a w Hrun.
  - injection Hrun as <- <- <-. by left.
  - cbn [retry_loop] in Hrun. destruct (_ && _).
    + apply bind_Ok in Hrun as (x' & w1 & Hx & Hrun).
      apply IH in Hrun as [(-> & _ & _)|?]; right; eauto.
    + injection Hrun as <- <- <-. by left.
Qed.

(** The value a slot adds was returned by a draw: the initial identity
    value itself is never added without being drawn. *)
Lemma sample_slot_drawn (i : nat) (generated : gset V) w x w' :
  sample_slot ident draw warning i generated w = (Ok (Some x), w') →
  ∃ w1 w2, draw w1 = (Ok x, w2).
Proof.
  intros Hrun. unfold sample_slot in Hrun.
  apply bind_Ok in Hrun as ([y a] & w1 & Hloop & Hrun).
  pose proof Hloop as Hcase. apply retry_loop_Ok in Hcase as [Hle Hcase].
  apply retry_loop_drawn in Hloop.
  destruct (a =? max_attempts)%nat eqn:Ha.
  - apply bind_Ok in Hrun as (_ & w2 & _ & Hrun).
    destruct (0 <? i)%nat; [discriminate|].
    apply bind_Ok in Hrun as (x' & w3 & Hx & Hrun).
    injection Hrun as <- <-. eauto.
  - injection Hrun as <- <-. apply Nat.eqb_neq in Ha.
    destruct Hcase as [[Hne _]|[?|?]]; [|lia|lia].
    destruct Hloop as [(-> & _ & _)|?]; [done|assumption].
Qed.

Lemma sample_randomized_drawn (P : V → Prop) (variations : Z)
    w generated w' :
  (∀ w1 x w2, draw w1 = (Ok x, w2) → P x) →
  sample_randomized ident draw warning variations w = (Ok generated, w') →
  ∀ x, x ∈ generated → P x.
Proof.
  intros HP Hrun. unfold sample_randomized, for_range in Hrun.
  pose (I := λ (_ : nat) (st : gset V) (_ : world F), ∀ x, x ∈ st → P x).
  enough (HI : I (length (seq 0 (Z.to_nat variations))) generated w')
    by exact HI.
  eapply (for_each_inv I); [| |exact Hrun].
  - intros k i st w1 st' w1' _ Hst Hbody.
    apply bind_Ok in Hbody as (r & w2 & Hslot & Hret).
    destruct r as [y|]; injection Hret as <- <-; [|exact Hst].
    apply sample_slot_drawn in Hslot as (w3 & w4 & Hy).
    intros x [->%elem_of_singleton|Hx]%elem_of_union; eauto.
  - intros x Hx. set_solver.
Qed.

(** With a draw that takes one value from the random stream, the retry
    loop takes as many values as it counts attempts. *)
Hypothesis draw_takes_one :
  ∀ w x w', draw w = (Ok x, w') → rng w' = S (rng w).

Lemma retry_loop_rng (generated : gset V) fuel x a w y a' w' :
  retry_loop ident draw generated fuel x a w = (Ok (y, a'), w') →
  (rng w' + a = rng w + a')%nat.
Proof.
  revert x a w. induction fuel as [|fuel IH]; intros x a w Hrun.
  - injection Hrun as <- <- <-. lia.
  - cbn [retry_loop] in Hrun. destruct (_ && _).
    + apply bind_Ok in Hrun as (x' & w1 & Hx & Hrun).
      apply IH in Hrun. apply draw_takes_one in Hx. lia.
    + injection Hrun as <- <- <-. lia.
Qed.

Lemma retry_loop_first_draw (generated : gset V) fuel a w y a' w' :
  retry_loop ident draw generated (S fuel) ident a w = (Ok (y, a'), w') →
  (a < max_attempts)%nat → (a < a')%nat.
Proof.
  intros Hrun Ha. cbn [retry_loop] in Hrun.
  rewrite bool_decide_eq_true_2 in Hrun by done.
  replace (a <? max_attempts)%nat with true in Hrun
    by (symmetry; by apply Nat.ltb_lt).
  cbn [orb andb] in Hrun.
  apply bind_Ok in Hrun as (x' & w1 & _ & Hrun).
  apply retry_loop_Ok in Hrun. lia.
Qed.

Lemma sample_slot_rng (i : nat) (generated : gset V) w r w' :
  sample_slot ident draw warning i generated w = (Ok r, w') →
  (rng w + 1 ≤ rng w'
   ≤ rng w + max_attempts + (if i is O then 1 else 0))%nat.
Proof.
  intros Hrun. unfold sample_slot in Hrun.
  apply bind_Ok in Hrun as ([y a] & w1 & Hloop & Hrun).
  pose proof Hloop as Hbound. apply retry_loop_Ok in Hbound as [Hle _].
  pose proof (retry_loop_rng _ _ _ _ _ _ _ _ Hloop) as Hrng.
  assert (Hone : (0 < a)%nat).
  { eapply retry_loop_first_draw; [exact Hloop|]. unfold max_attempts. lia. }
  destruct (a =? max_attempts)%nat eqn:Ha.
  - apply bind_Ok in Hrun as ([] & w2 & Hlog & Hrun).
    unfold logger in Hlog. injection Hlog as <-.
    destruct i as [|i]; cbn [Nat.ltb Nat.leb] in Hrun.
    + apply bind_Ok in Hrun as (x' & w3 & Hx & Hrun).
      injection Hrun as <- <-. apply draw_takes_one in Hx.
      cbn [rng] in Hx. lia.
    + injection Hrun as <- <-. cbn [rng]. lia.
  - injection Hrun as <- <-. apply Nat.eqb_neq in Ha.
    destruct i; lia.
Qed.

Lemma sample_randomized_rng (variations : Z) w generated w' :
  sample_randomized ident draw warning variations w = (Ok generated, w') →
  (rng w + Z.to_nat variations ≤ rng w'
   ≤ rng w + max_attempts * Z.to_nat variations + 1)%nat.
Proof.
  intros Hrun. unfold sample_randomized, for_range in Hrun.
  pose (I := λ (k : nat) (_ : gset V) (w1 : world F),
          (rng w + k ≤ rng w1
           ≤ rng w + max_attempts * k + (if k is O then 0 else 1))%nat).
  assert (HI : I (length (seq 0 (Z.to_nat variations))) generated w').
  { eapply (for_each_inv I); [| |exact Hrun].
    - intros k i st w1 st' w1' Hk Hst Hbody.
      apply lookup_seq_0 in Hk as [-> Hlt].
      apply bind_Ok in Hbody as (r & w2 & Hslot & Hret).
      apply sample_slot_rng in Hslot.
      assert (w1' = w2) as -> by (destruct r; by injection Hret).
      unfold I in *. destruct k; lia.
    - unfold I. lia. }
  unfold I in HI. rewrite length_seq in HI.
  destruct (Z.to_nat variations); lia.
Qed.

End SamplerDraws.

Lemma random_randint_takes_one (a b : Z) (w : world F) x w' :
  random_randint E a b w = (Ok x, w') → rng w' = S (rng w).
Proof.
  unfold random_randint. destruct (a >? b); [discriminate|].
  intros Hrun. by injection Hrun as <- <-.
Qed.

Lemma random_uniform_round1_takes_one (a b : F) (w : world F) x w' :
  random_uniform_round1 E a b w = (Ok x, w') → rng w' = S (rng w).
Proof. intros Hrun. by injection Hrun as <- <-. Qed.

(** X1: In randomized mode every sampled semitone shift lies between
    [min_semitones] and [max_semitones], the fallback value included. *)
Theorem semitones_within_bounds (config : Config F) (w : world F)
    generated w' :
  pitchshift_semitones_randomized E config w = (Ok generated, w') →
  ∀ x, x ∈ generated →
       ps_min_semitones (pitch_shift config) ≤ x
       ≤ ps_max_semitones (pitch_shift config).
Proof.
  unfold pitchshift_semitones_randomized. intros Hrun.
  eapply sample_randomized_drawn; [|exact Hrun].
  intros w1 x w2 Hx. eapply random_randint_range, Hx.
Qed.

(** X2: The randomized samplers cannot loop for ever: each of the [n] slots
    takes at least one and at most ten values from the random source, and
    the first slot one more for its fallback. *)
Theorem randomized_draw_budget (config : Config F) (w : world F) :
  (∀ generated w',
      ts_randomized (time_stretch config) = true →
      timestretch_factors E config w = (Ok generated, w') →
      (rng w + Z.to_nat (ts_variations (time_stretch config)) ≤ rng w'
       ≤ rng w + 10 * Z.to_nat (ts_variations (time_stretch config)) + 1)%nat)
  ∧ (∀ generated w',
        pitchshift_semitones_randomized E config w = (Ok generated, w') →
        (rng w + Z.to_nat (ps_variations (pitch_shift config)) ≤ rng w'
         ≤ rng w + 10 * Z.to_nat (ps_variations (pitch_shift config)) + 1)%nat)
  ∧ (∀ generated w',
        an_randomized (add_noise config) = true →
        noise_intensities E config w = (Ok generated, w') →
        (rng w + Z.to_nat (an_variations (add_noise config)) ≤ rng w'
         ≤ rng w + 10 * Z.to_nat (an_variations (add_noise config)) + 1)%nat).
Proof.
  split; [|split].
  - intros generated w' Hr Hrun. unfold timestretch_factors in Hrun.
    rewrite Hr in Hrun.
    eapply sample_randomized_rng in Hrun; [exact Hrun|].
    intros w1 x w2. apply random_uniform_round1_takes_one.
  - intros generated w' Hrun. unfold pitchshift_semitones_randomized in Hrun.
    eapply sample_randomized_rng in Hrun; [exact Hrun|].
    intros w1 x w2. apply random_randint_takes_one.
  - intros generated w' Hr Hrun. unfold noise_intensities in Hrun.
    rewrite Hr in Hrun.
    eapply sample_randomized_rng in Hrun; [exact Hrun|].
    intros w1 x w2. apply random_uniform_round1_takes_one.
Qed.

(** *** The reverb family *)

Lemma random_choice_elem {A} (l : list A) (w : world F) x w' :
  random_choice E l w = (Ok x, w') → x ∈ l ∧ calls w' = calls w.
Proof.
  unfold random_choice. destruct l as [|d l]; [discriminate|].
  assert (Hlen : (0 < length (d :: l))%nat) by (simpl; lia).
  remember (d :: l) as seq eqn:Hseq.
  intros Hrun. injection Hrun as <- <-. split; [|reflexivity].
  apply list_elem_of_In, nth_In.
  pose proof (Z.mod_pos_bound (entropy E (rng w))
                (Z.of_nat (length seq))) as Hb.
  lia.
Qed.

Lemma keeps_suffix_for (config : Config F) :
  keeps_calls (suffix_for E config).
Proof.
  unfold suffix_for, random_word. destruct (enable_random_suffix config).
  - destruct (5 <=? 0); [apply keeps_ret | apply keeps_random_letters].
  - apply keeps_ret.
Qed.

Section Reverb.
Variables (audio_base audio_ext : string).
Variables (standardized_audio temp_ann_file output_directory : string).
Variable config : Config F.

(** A call of [apply_reverb_and_filters] for the room scale [x], with a
    cutoff pair of the configuration. *)
Let reverb_call_for (x : Z) (c : call F) : Prop :=
  ∃ out low_cutoff high_cutoff,
    c = CallReverb standardized_audio temp_ann_file out x low_cutoff
          high_cutoff
    ∧ (low_cutoff, high_cutoff) ∈ rf_cutoff_pairs (reverb_filter config).

Lemma reverb_apply_calls (room_scale : Z) (new_ann_files : list string)
    (w : world F) new_ann_files' w' :
  reverb_apply E audio_base audio_ext standardized_audio temp_ann_file
    output_directory config room_scale new_ann_files w
    = (Ok new_ann_files', w') →
  ∃ c, reverb_call_for room_scale c ∧ calls w' = calls w ++ [c].
Proof.
  unfold reverb_apply. intros Hrun.
  apply bind_Ok in Hrun as ([lo hi] & w1 & Hch & Hrun).
  apply random_choice_elem in Hch as [Hin Hc1].
  apply bind_Ok in Hrun as (sfx & w2 & Hs & Hrun).
  pose proof (keeps_suffix_for config w1) as Hc2. rewrite Hs in Hc2.
  simpl in Hc2. cbv zeta in Hrun.
  apply bind_Ok in Hrun as ([] & w3 & Hlog & Hrun).
  unfold logger in Hlog. injection Hlog as <-.
  match type of Hrun with guarded_apply ?c ?r ?m ?l ?w4 = _ =>
    destruct (guarded_apply_calls c r m l w4) as (l' & w5 & Hg & Hc3);
    exists c end.
  rewrite Hg in Hrun. injection Hrun as <- <-.
  split; [by eexists _, _, _|].
  rewrite Hc3. cbn [calls]. by rewrite Hc2, Hc1.
Qed.

(** X3: The reverb family applies every room scale it accepts exactly once:
    the scales of its calls are pairwise distinct, they are the members of
    the sampled set, each lies between [min_room_scale] and
    [max_room_scale], and each call carries a cutoff pair of the
    configuration. *)
Theorem reverb_applies_distinct_scales (w : world F) generated
    new_ann_files w' :
  reverb_loop E audio_base audio_ext standardized_audio temp_ann_file
    output_directory config w = (Ok (generated, new_ann_files), w') →
  ∃ scales made,
    calls w' = calls w ++ made
    ∧ Forall2 reverb_call_for scales made
    ∧ NoDup scales
    ∧ list_to_set scales = generated
    ∧ Forall (λ x, rf_min_room_scale (reverb_filter config) ≤ x
                   ≤ rf_max_room_scale (reverb_filter config)) scales.
Proof.
  unfold reverb_loop, for_range. intros Hrun.
  pose (I := λ (k : nat) (st : gset Z * list string) (w1 : world F),
          (k = 0%nat → st.1 = ∅)
          ∧ ∃ scales made,
              calls w1 = calls w ++ made
              ∧ Forall2 reverb_call_for scales made
              ∧ NoDup scales
              ∧ list_to_set scales = st.1
              ∧ Forall (λ x, rf_min_room_scale (reverb_filter config) ≤ x
                             ≤ rf_max_room_scale (reverb_filter config))
                  scales).
  enough (HI : I (length (seq 0 (Z.to_nat
                    (rf_variations (reverb_filter config)))))
                 (generated, new_ann_files) w') by apply HI.
  eapply (for_each_inv I); [| |exact Hrun].
  - intros k i [st files] w1 st' w1' Hk [H0 Hinv] Hbody.
    apply lookup_seq_0 in Hk as [-> Hlt].
    destruct Hinv as (scales & made & Hc & Hf2 & Hnd & Hset & Hb).
    unfold reverb_slot in Hbody.
    apply bind_Ok in Hbody as (r & w2 & Hslot & Hret).
    split; [lia|]. simpl in *.
    pose proof (keeps_sample_slot E 0
                  (random_randint E
                     (rf_min_room_scale (reverb_filter config))
                     (rf_max_room_scale (reverb_filter config)))
                  "Could not find unique room scale after 10 attempts"
                  k st (keeps_random_randint E _ _) w1) as Hk1.
    rewrite Hslot in Hk1. simpl in Hk1.
    destruct r as [x|]; [|injection Hret as <- <-; simpl;
                           exists scales, made; by rewrite Hk1].
    apply bind_Ok in Hret as (files' & w3 & Happ & Hret).
    injection Hret as <- <-. simpl.
    apply reverb_apply_calls in Happ as (c & Hcall & Hc3).
    assert (Hfresh : x ∉ st).
    { destruct k as [|k].
      - rewrite H0 by done. set_solver.
      - apply sample_slot_later in Hslot; [|lia]. by destruct Hslot. }
    assert (Hrange : rf_min_room_scale (reverb_filter config) ≤ x
                     ≤ rf_max_room_scale (reverb_filter config)).
    { apply sample_slot_drawn in Hslot as (w4 & w5 & Hx).
      eapply random_randint_range, Hx. }
    exists (scales ++ [x]), (made ++ [c]). split; [|split; [|split; [|split]]].
    + by rewrite Hc3, Hk1, Hc, <- app_assoc.
    + apply Forall2_app; [exact Hf2|]. by constructor.
    + apply NoDup_app. split; [exact Hnd|]. split.
      * intros y Hy ->%list_elem_of_singleton. apply Hfresh.
        rewrite <- Hset. by apply elem_of_list_to_set.
      * apply NoDup_singleton.
    + rewrite list_to_set_app_L, Hset. simpl. set_solver.
    + apply Forall_app. split; [exact Hb|]. by constructor.
  - split; [done|]. exists [], []. simpl. rewrite app_nil_r.
    repeat split; constructor.
Qed.

End Reverb.

(** *** Disabled families *)

Ltac eval_eqb :=
  repeat match goal with
         | |- context [String.eqb (String ?c ?a) ?b] =>
             let v := eval vm_compute in (String.eqb (String c a) b) in
             change (String.eqb (String c a) b) with v
         end.

Lemma process_effect_not_enabled
    (input_directory effect audio_base audio_ext standardized_audio
       temp_ann_file output_directory : string) (config : Config F)
    (w : world F) :
  enabled_for effect config = false →
  process_effect E input_directory effect audio_base audio_ext
    standardized_audio temp_ann_file output_directory config w
  = (Ok [], w).
Proof.
  unfold enabled_for, process_effect, process_effect_body, try_except.
  repeat (destruct (String.eqb effect _) eqn:Heq;
          [apply String.eqb_eq in Heq; subst effect; eval_eqb;
           cbn [andb]; intros ->; reflexivity
          |clear Heq]).
  reflexivity.
Qed.

Lemma disable_effect_clears (effect : string) (config : Config F) :
  enabled_for effect (disable_effect effect config) = false.
Proof.
  unfold enabled_for, disable_effect.
  repeat (destruct (String.eqb effect _) eqn:Heq; [reflexivity|clear Heq]).
  reflexivity.
Qed.

Lemma disable_effect_stays_off (effect other : string)
    (config : Config F) :
  enabled_for effect config = false →
  enabled_for effect (disable_effect other config) = false.
Proof.
  unfold enabled_for, disable_effect.
  repeat (destruct (String.eqb other _); [
    repeat (destruct (String.eqb effect _); [by cbn|]); done|]).
  done.
Qed.

Lemma disable_effects_off (effect : string) (effects : list string)
    (config : Config F) :
  effect ∈ effects ∨ enabled_for effect config = false →
  enabled_for effect (disable_effects effects config) = false.
Proof.
  unfold disable_effects. revert config.
  induction effects as [|other effects IH]; intros config [Hin|Hoff];
    cbn [fold_left].
  - by apply elem_of_nil in Hin.
  - exact Hoff.
  - apply elem_of_cons in Hin as [->|Hin].
    + apply IH. right. apply disable_effect_clears.
    + apply IH. by left.
  - apply IH. right. by apply disable_effect_stays_off.
Qed.

(** X4: An effect named by [--disable-effect] does nothing at all, whatever
    else is disabled before or after it: its unit of work returns no
    annotation file, logs nothing, draws nothing and applies nothing. *)
Theorem disabled_effect_does_nothing
    (input_directory effect audio_base audio_ext standardized_audio
       temp_ann_file output_directory : string) (effects : list string)
    (config : Config F) (w : world F) :
  effect ∈ effects →
  process_effect E input_directory effect audio_base audio_ext
    standardized_audio temp_ann_file output_directory
    (disable_effects effects config) w
  = (Ok [], w).
Proof.
  intros Hin. apply process_effect_not_enabled, disable_effects_off.
  by left.
Qed.

Lemma disable_effect_other
    (input_directory effect other audio_base audio_ext standardized_audio
       temp_ann_file output_directory : string) (config : Config F) :
  effect ≠ other →
  process_effect E input_directory effect audio_base audio_ext
    standardized_audio temp_ann_file output_directory
    (disable_effect other config)
  = process_effect E input_directory effect audio_base audio_ext
    standardized_audio temp_ann_file output_directory config.
Proof.
  intros Hne. unfold disable_effect.
  repeat (destruct (String.eqb other _) eqn:Heq;
          [apply String.eqb_eq in Heq; subst other;
           apply String.eqb_neq in Hne;
           unfold process_effect, process_effect_body;
           rewrite ?Hne; cbn [andb];
           repeat (destruct (String.eqb effect _) eqn:Heq';
                   [try discriminate; cbn [andb]; try reflexivity
                   |clear Heq'; cbn [andb]]);
           try reflexivity
          |clear Heq]).
  reflexivity.
Qed.

(** X5: Disabling effects changes nothing for the others: the unit of work of
    an effect that is not named runs exactly as with the configuration
    that was loaded. *)
Theorem disabling_leaves_other_effects
    (input_directory effect audio_base audio_ext standardized_audio
       temp_ann_file output_directory : string) (effects : list string)
    (config : Config F) :
  effect ∉ effects →
  process_effect E input_directory effect audio_base audio_ext
    standardized_audio temp_ann_file output_directory
    (disable_effects effects config)
  = process_effect E input_directory effect audio_base audio_ext
      standardized_audio temp_ann_file output_directory config.
Proof.
  unfold disable_effects. revert config.
  induction effects as [|other effects IH]; intros config Hnot;
    cbn [fold_left]; [reflexivity|].
  apply not_elem_of_cons in Hnot as [Hne Hnot].
  rewrite IH by exact Hnot. by apply disable_effect_other.
Qed.

(** *** Names of the files the effects write *)

Lemma prefix_append (k s : string) : String.prefix k (k +:+ s) = true.
Proof.
  induction k as [|c k IH]; simpl; [by destruct s|].
  destruct (ascii_dec c c); [exact IH|done].
Qed.

Lemma str_contains_prefix (k s : string) :
  String.prefix k s = true → str_contains k s = true.
Proof. intros Hp. destruct s; cbn [str_contains]; rewrite Hp; reflexivity. Qed.

Lemma str_contains_append (k a s : string) :
  str_contains k s = true → str_contains k (a +:+ s) = true.
Proof.
  intros Hs. induction a as [|c a IH]; [exact Hs|].
  change (String c a +:+ s) with (String c (a +:+ s)).
  cbn [str_contains]. rewrite IH. apply orb_true_r.
Qed.

Lemma str_contains_middle (k a b : string) :
  str_contains k (a +:+ k +:+ b) = true.
Proof. apply str_contains_append, str_contains_prefix, prefix_append. Qed.

Lemma has_effect_keyword_middle (k a b : string) :
  k ∈ effect_keywords → has_effect_keyword (a +:+ k +:+ b) = true.
Proof.
  intros Hk. unfold has_effect_keyword. apply existsb_exists.
  exists k. split; [by apply list_elem_of_In|apply str_contains_middle].
Qed.

Lemma append_assoc (a b c : string) : (a +:+ b) +:+ c = a +:+ b +:+ c.
Proof.
  induction a as [|x a IH]; [done|].
  change (String x ((a +:+ b) +:+ c) = String x (a +:+ b +:+ c)).
  by rewrite IH.
Qed.

(** X6: A second run over the same directory skips what the first run wrote:
    every name [generate_output_filename] builds for one of the effect
    tags, and the name of every merged recording, is taken for a file that
    was already processed. *)
Theorem effect_outputs_are_filtered :
  (∀ V (V_str : PyStr V) (base_name effect_name : string) (measure : V)
     (random_suffix extension : string),
      effect_name ∈ effect_keywords →
      has_effect_keyword
        (generate_output_filename base_name effect_name measure
           random_suffix extension) = true)
  ∧ (∀ stem : string,
        has_effect_keyword ((stem +:+ "_merged") +:+ ".wav") = true)
  ∧ (∀ (f : string) (audio_files : list string),
        has_effect_keyword f = true → f ∉ unprocessed_files audio_files).
Proof.
  split; [|split].
  - intros V V_str base_name effect_name measure random_suffix extension Hk.
    unfold generate_output_filename.
    destruct (String.eqb random_suffix "");
      rewrite <- (append_assoc base_name "_");
      by apply has_effect_keyword_middle.
  - intros stem. rewrite append_assoc.
    change ("_merged" +:+ ".wav") with ("_" +:+ "merge" +:+ "d.wav").
    rewrite <- (append_assoc stem "_").
    apply has_effect_keyword_middle. unfold effect_keywords. set_solver.
  - intros f audio_files Hf Hin. unfold unprocessed_files in Hin.
    apply list_elem_of_In, filter_In in Hin as [_ Hin].
    by rewrite Hf in Hin.
Qed.

(** *** Converting the annotations back *)

Lemma ann_to_midi_run (ann_file : string) (w : world F) :
  ann_to_midi E ann_file w
  = match text_files w !! ann_file with
    | None =>
        (Raise FileNotFoundError,
         add_log w [(ERROR, "Annotation file not found")])
    | Some content =>
        let lines := readlines content in
        let w1 := add_log w (flat_map (line_warning E) lines) in
        match midi_codec E [omap (parse_line E) lines] with
        | Ok stored =>
            (Ok (replace ".ann" ".mid" ann_file),
             mkWorld (rng w1) (log w1) (calls w1) (text_files w1)
               (audio_files w1)
               (<[replace ".ann" ".mid" ann_file := stored]>
                  (midi_files w1)))
        | Raise e =>
            (Raise e,
             add_log w1
               [(ERROR,
                 match e with
                 | FileNotFoundError => "Annotation file not found"
                 | _ => "Error converting annotation to MIDI"
                 end)])
        end
    end.
Proof.
  unfold ann_to_midi, try_except.
  destruct (text_files w !! ann_file) as [content|] eqn:Hfile.
  - assert (Hread : read_text ann_file w = (Ok content, w))
      by (unfold read_text; by rewrite Hfile).
    rewrite (bind_run _ _ _ _ _ Hread). cbv zeta.
    rewrite (bind_run _ _ _ _ _ (decode_lines_run E _ _ _)).
    cbn [app]. unfold bind, midi_write.
    destruct (midi_codec E _) as [stored|e]; [reflexivity|].
    by destruct e.
  - assert (Hread : read_text ann_file w = (Raise FileNotFoundError, w))
      by (unfold read_text; by rewrite Hfile).
    rewrite (bind_raise _ _ _ _ _ Hread). reflexivity.
Qed.

(** X7: Converting one annotation file back always returns.  When the file is
    there and the MIDI file can be written, the MIDI file holds the decoded
    notes and the annotation file is removed.  When the MIDI file cannot
    be written the annotation file stays and no MIDI file is stored; when
    the annotation file is missing nothing is stored or removed.  Both
    failures end with the error in the log.  No effect is applied and
    nothing is drawn. *)
Theorem conversion_outcomes (ann_file : string) (w : world F) :
  ∃ w',
    convert_annotation E ann_file tt w = (Ok tt, w')
    ∧ calls w' = calls w ∧ rng w' = rng w
    ∧ audio_files w' = audio_files w
    ∧ match text_files w !! ann_file with
      | None =>
          text_files w' = text_files w ∧ midi_files w' = midi_files w
          ∧ last (log w') = Some (ERROR, "Error converting to MIDI")
      | Some content =>
          let lines := readlines content in
          match midi_codec E [omap (parse_line E) lines] with
          | Ok stored =>
              midi_files w'
              = <[replace ".ann" ".mid" ann_file := stored]> (midi_files w)
              ∧ text_files w' = delete ann_file (text_files w)
              ∧ log w'
                = log w ++ flat_map (line_warning E) lines
                    ++ [(DEBUG, "Deleted file")]
          | Raise _ =>
              text_files w' = text_files w ∧ midi_files w' = midi_files w
              ∧ last (log w') = Some (ERROR, "Error converting to MIDI")
          end
      end.
Proof.
  unfold convert_annotation, try_except, bind at 1.
  rewrite ann_to_midi_run.
  destruct (text_files w !! ann_file) as [content|] eqn:Hfile.
  - cbv zeta. destruct (midi_codec E _) as [stored|e].
    + unfold delete_file, text_exists, bind. cbn.
      rewrite Hfile. rewrite bool_decide_eq_true_2 by eauto. cbn.
      eexists. repeat split. by rewrite <- app_assoc.
    + cbn. eexists. repeat split. cbn [log]. by rewrite last_snoc.
  - cbn. eexists. repeat split; try done. cbn [log]. by rewrite last_snoc.
Qed.

(** *** The families that sample first and apply afterwards *)

Lemma guarded_apply_spec (c : call F) (r : res (option string))
    (error_message : string) (new_ann_files : list string) (w : world F) :
  ∃ w',
    guarded_apply c r error_message new_ann_files w
      = (Ok (new_ann_files ++ kept_output r), w')
    ∧ calls w' = calls w ++ [c].
Proof.
  unfold guarded_apply, try_except, invoke, bind, record_call, lift_res,
    kept_output, append_if_truthy, ret.
  destruct r as [[f|]|e]; cbn [logger fst snd];
    try destruct (truthy (Some f));
    rewrite ?app_nil_r; eexists; split; reflexivity.
Qed.

(** A loop whose body applies one transformation per value. *)
Lemma dispatch_loop {V} (body : V → list string → M F (list string))
    (made : V → string → call F) (kept : V → string → list string)
    (ok : string → Prop) :
  (∀ x new_ann_files w, ∃ random_suffix w',
      body x new_ann_files w
        = (Ok (new_ann_files ++ kept x random_suffix), w')
      ∧ calls w' = calls w ++ [made x random_suffix]
      ∧ ok random_suffix) →
  ∀ (l : list V) new_ann_files w, ∃ suffixes w',
    for_each l body new_ann_files w
      = (Ok (new_ann_files ++ concat (zip_with kept l suffixes)), w')
    ∧ length suffixes = length l
    ∧ calls w' = calls w ++ zip_with made l suffixes
    ∧ Forall ok suffixes.
Proof.
  intros Hbody l. induction l as [|x l IH]; intros files w.
  - exists [], w. simpl. rewrite !app_nil_r. repeat split. constructor.
  - destruct (Hbody x files w) as (sfx & w1 & Hx & Hc1 & Hok).
    destruct (IH (files ++ kept x sfx) w1)
      as (ss & w' & Hl & Hlen & Hc & Hall).
    exists (sfx :: ss), w'. split; [|split; [|split]].
    + cbn [for_each]. rewrite (bind_run _ _ _ _ _ Hx), Hl.
      simpl. by rewrite <- app_assoc.
    + simpl. by rewrite Hlen.
    + rewrite Hc, Hc1. simpl. by rewrite <- app_assoc.
    + by constructor.
Qed.

Section Families.
Variables (audio_base audio_ext : string).
Variables (standardized_audio temp_ann_file output_directory : string).
Variable config : Config F.

Let timestretch_path (x : F) (random_suffix : string) : string :=
  variant_path (V_str := str_float E) output_directory audio_base
    "timestretch" x random_suffix audio_ext.
Let pitchshift_path (x : Z) (random_suffix : string) : string :=
  variant_path output_directory audio_base "pitchshift" x random_suffix
    audio_ext.
Let noise_path (x : F) (random_suffix : string) : string :=
  variant_path (V_str := str_float E) output_directory audio_base "noise"
    x random_suffix audio_ext.

Lemma timestretch_apply_spec (x : F) (new_ann_files : list string)
    (w : world F) :
  ∃ random_suffix w',
    timestretch_apply E audio_base audio_ext standardized_audio
      temp_ann_file output_directory config x new_ann_files w
    = (Ok (new_ann_files
             ++ kept_output
                  (apply_time_stretch E standardized_audio temp_ann_file
                     (timestretch_path x random_suffix) x)), w')
    ∧ calls w'
      = calls w ++ [CallTimeStretch standardized_audio temp_ann_file
                      (timestretch_path x random_suffix) x]
    ∧ suffix_ok config random_suffix.
Proof.
  unfold timestretch_apply.
  destruct (suffix_for_spec E config w) as (sfx & w1 & Hs & Hc & Hsfx).
  rewrite (bind_run _ _ _ _ _ Hs). cbv zeta.
  unfold bind at 1. cbn [logger].
  match goal with |- context [guarded_apply ?c ?r ?m ?l ?w2] =>
    destruct (guarded_apply_spec c r m l w2) as (w' & Hg & Hcalls) end.
  exists sfx, w'. split; [exact Hg|]. split; [|exact Hsfx].
  rewrite Hcalls. cbn [calls]. by rewrite Hc.
Qed.

Lemma pitchshift_apply_spec (x : Z) (new_ann_files : list string)
    (w : world F) :
  ∃ random_suffix w',
    pitchshift_apply E audio_base audio_ext standardized_audio
      temp_ann_file output_directory config x new_ann_files w
    = (Ok (new_ann_files
             ++ kept_output
                  (apply_pitch_shift E standardized_audio temp_ann_file
                     (pitchshift_path x random_suffix) x)), w')
    ∧ calls w'
      = calls w ++ [CallPitchShift standardized_audio temp_ann_file
                      (pitchshift_path x random_suffix) x]
    ∧ suffix_ok config random_suffix.
Proof.
  unfold pitchshift_apply.
  destruct (suffix_for_spec E config w) as (sfx & w1 & Hs & Hc & Hsfx).
  rewrite (bind_run _ _ _ _ _ Hs). cbv zeta.
  unfold bind at 1. cbn [logger].
  match goal with |- context [guarded_apply ?c ?r ?m ?l ?w2] =>
    destruct (guarded_apply_spec c r m l w2) as (w' & Hg & Hcalls) end.
  exists sfx, w'. split; [exact Hg|]. split; [|exact Hsfx].
  rewrite Hcalls. cbn [calls]. by rewrite Hc.
Qed.

Lemma noise_apply_spec (x : F) (new_ann_files : list string)
    (w : world F) :
  ∃ random_suffix w',
    noise_apply E audio_base audio_ext standardized_audio
      temp_ann_file output_directory config x new_ann_files w
    = (Ok (new_ann_files
             ++ kept_output
                  (apply_noise E standardized_audio temp_ann_file
                     (noise_path x random_suffix) x)), w')
    ∧ calls w'
      = calls w ++ [CallNoise standardized_audio temp_ann_file
                      (noise_path x random_suffix) x]
    ∧ suffix_ok config random_suffix.
Proof.
  unfold noise_apply.
  destruct (suffix_for_spec E config w) as (sfx & w1 & Hs & Hc & Hsfx).
  rewrite (bind_run _ _ _ _ _ Hs). cbv zeta.
  unfold bind at 1. cbn [logger].
  match goal with |- context [guarded_apply ?c ?r ?m ?l ?w2] =>
    destruct (guarded_apply_spec c r m l w2) as (w' & Hg & Hcalls) end.
  exists sfx, w'. split; [exact Hg|]. split; [|exact Hsfx].
  rewrite Hcalls. cbn [calls]. by rewrite Hc.
Qed.

(** X8: The time-stretch family, in both modes, calls [apply_time_stretch]
    exactly once for every value of its sampled set and returns, in the
    order of its calls, the annotation paths of the applications that
    succeeded with a non-empty path: an application that raises, or returns
    nothing, adds nothing and the family goes on with the next factor. *)
Theorem timestretch_family_outputs (w : world F) generated w1 :
  timestretch_factors E config w = (Ok generated, w1) →
  ∃ suffixes w',
    timestretch_branch E audio_base audio_ext standardized_audio
      temp_ann_file output_directory config w
    = (Ok (concat
             (zip_with
                (λ x random_suffix,
                   kept_output
                     (apply_time_stretch E standardized_audio temp_ann_file
                        (timestretch_path x random_suffix) x))
                (elements generated) suffixes)), w')
    ∧ length suffixes = size generated
    ∧ calls w'
      = calls w
        ++ zip_with
             (λ x random_suffix,
                CallTimeStretch standardized_audio temp_ann_file
                  (timestretch_path x random_suffix) x)
             (elements generated) suffixes
    ∧ Forall (suffix_ok config) suffixes.
Proof.
  intros Hs. unfold timestretch_branch. rewrite (bind_run _ _ _ _ _ Hs).
  destruct (dispatch_loop _ _ _ _ timestretch_apply_spec
              (elements generated) [] w1)
    as (ss & w' & Hl & Hlen & Hc & Hall).
  exists ss, w'. split; [exact Hl|]. split; [exact Hlen|].
  split; [|exact Hall]. rewrite Hc. f_equal.
  pose proof (keeps_timestretch_factors E config w) as Hk.
  rewrite Hs in Hk. exact Hk.
Qed.

(** X9: In grid mode the pitch-shift family calls [apply_pitch_shift] exactly
    once for every value of its sampled set, and returns the annotation
    paths of the applications that succeeded. *)
Theorem pitchshift_grid_applies_each_once (w : world F) generated w1 :
  ps_randomized (pitch_shift config) = false →
  pitchshift_semitones_grid E config w = (Ok generated, w1) →
  ∃ suffixes w',
    pitchshift_branch E audio_base audio_ext standardized_audio
      temp_ann_file output_directory config w
    = (Ok (concat
             (zip_with
                (λ x random_suffix,
                   kept_output
                     (apply_pitch_shift E standardized_audio temp_ann_file
                        (pitchshift_path x random_suffix) x))
                (elements generated) suffixes)), w')
    ∧ length suffixes = size generated
    ∧ calls w'
      = calls w
        ++ zip_with
             (λ x random_suffix,
                CallPitchShift standardized_audio temp_ann_file
                  (pitchshift_path x random_suffix) x)
             (elements generated) suffixes
    ∧ Forall (suffix_ok config) suffixes.
Proof.
  intros Hgrid Hs. unfold pitchshift_branch. rewrite Hgrid.
  rewrite (bind_run _ _ _ _ _ Hs).
  destruct (dispatch_loop _ _ _ _ pitchshift_apply_spec
              (elements generated) [] w1)
    as (ss & w' & Hl & Hlen & Hc & Hall).
  exists ss, w'. split; [exact Hl|]. split; [exact Hlen|].
  split; [|exact Hall]. rewrite Hc. f_equal.
  unfold pitchshift_semitones_grid, sample_grid in Hs.
  apply bind_Ok in Hs as (pts & w2 & Hp & Hs).
  injection Hp as Hpts <-.
  apply bind_Ok in Hs as ([] & w3 & Hwarn & Hs).
  match type of Hs with pop_while_longer ?n ?s ?v ?w4 = _ =>
    pose proof (keeps_pop_while_longer n s v w4) as Hk end.
  rewrite Hs in Hk. simpl in Hk. rewrite Hk.
  destruct (_ <? _); [|by injection Hwarn as <-].
  unfold logger in Hwarn. by injection Hwarn as <-.
Qed.

(** X10: The noise family, in both modes, calls [apply_noise] exactly once for
    every value of its sampled set, and returns the annotation paths of the
    applications that succeeded. *)
Theorem noise_applies_each_once (w : world F) generated w1 :
  noise_intensities E config w = (Ok generated, w1) →
  ∃ suffixes w',
    noise_branch E audio_base audio_ext standardized_audio
      temp_ann_file output_directory config w
    = (Ok (concat
             (zip_with
                (λ x random_suffix,
                   kept_output
                     (apply_noise E standardized_audio temp_ann_file
                        (noise_path x random_suffix) x))
                (elements generated) suffixes)), w')
    ∧ length suffixes = size generated
    ∧ calls w'
      = calls w
        ++ zip_with
             (λ x random_suffix,
                CallNoise standardized_audio temp_ann_file
                  (noise_path x random_suffix) x)
             (elements generated) suffixes
    ∧ Forall (suffix_ok config) suffixes.
Proof.
  intros Hs. unfold noise_branch. rewrite (bind_run _ _ _ _ _ Hs).
  destruct (dispatch_loop _ _ _ _ noise_apply_spec
              (elements generated) [] w1)
    as (ss & w' & Hl & Hlen & Hc & Hall).
  exists ss, w'. split; [exact Hl|]. split; [exact Hlen|].
  split; [|exact Hall]. rewrite Hc. f_equal.
  unfold noise_intensities in Hs.
  destruct (an_randomized (add_noise config)).
  - pose proof (keeps_sample_randomized E f_one
                  (random_uniform_round1 E
                     (an_min_intensity (add_noise config))
                     (an_max_intensity (add_noise config)))
                  "Could not find unique noise intensity factor after 10 attempts"
                  (an_variations (add_noise config))
                  (keeps_random_uniform_round1 E _ _) w) as Hk.
    rewrite Hs in Hk. exact Hk.
  - unfold sample_grid in Hs.
    apply bind_Ok in Hs as (pts & w2 & Hp & Hs).
    injection Hp as Hpts <-.
    apply bind_Ok in Hs as ([] & w3 & Hwarn & Hs).
    injection Hwarn as <-.
    match type of Hs with pop_while_longer ?n ?s ?v ?w4 = _ =>
      pose proof (keeps_pop_while_longer n s v w4) as Hk end.
    rewrite Hs in Hk. exact Hk.
Qed.

End Families.

(** *** Edge cases of the families *)

Lemma for_range_none {St} (n : Z) (body : nat → St → M F St) (st : St)
    (w : world F) :
  n ≤ 0 → for_range n body st w = (Ok st, w).
Proof.
  intros Hn. unfold for_range. by replace (Z.to_nat n) with 0%nat by lia.
Qed.

(** X11: With [variations] zero or negative, a family that samples by drawing
    does nothing: [range(variations)] is empty, so nothing is drawn, logged
    or applied and no annotation file is returned. *)
Theorem no_variations_no_output
    (input_directory effect audio_base audio_ext standardized_audio
       temp_ann_file output_directory : string) (config : Config F)
    (w : world F) (variations : Z) :
  drawn_variations effect config = Some variations →
  variations ≤ 0 →
  process_effect E input_directory effect audio_base audio_ext
    standardized_audio temp_ann_file output_directory config w
  = (Ok [], w).
Proof.
  unfold drawn_variations, process_effect, process_effect_body, try_except.
  repeat (destruct (String.eqb effect _) eqn:Heq;
          [apply String.eqb_eq in Heq; subst effect; eval_eqb; cbn [andb]
          |clear Heq]);
    try (intros Hnone; discriminate Hnone).
  - destruct (ts_randomized (time_stretch config)) eqn:Hr; [|discriminate].
    intros Hv Hn. injection Hv as Hv. rewrite <- Hv in Hn.
    destruct (ts_enabled _); [|reflexivity].
    unfold timestretch_branch, timestretch_factors, sample_randomized, bind.
    rewrite Hr, for_range_none by exact Hn.
    by rewrite elements_empty.
  - destruct (an_randomized (add_noise config)) eqn:Hr; [|discriminate].
    intros Hv Hn. injection Hv as Hv. rewrite <- Hv in Hn.
    destruct (an_enabled _); [|reflexivity].
    unfold noise_branch, noise_intensities, sample_randomized, bind.
    rewrite Hr, for_range_none by exact Hn.
    by rewrite elements_empty.
  - intros Hv Hn. injection Hv as Hv. rewrite <- Hv in Hn.
    destruct (rf_enabled _); [|reflexivity].
    unfold reverb_branch, reverb_loop, bind.
    by rewrite for_range_none by exact Hn.
  - intros Hv Hn. injection Hv as Hv. rewrite <- Hv in Hn.
    destruct (gc_enabled _); [|reflexivity].
    unfold chorus_branch, chorus_loop, bind.
    by rewrite for_range_none by exact Hn.
Qed.

(** X12: The pause family makes one call of [calculate_time_distance], with the
    file name built for the tag [addpauses] and the measure [1], and returns
    the annotation path it gets, whatever it is: a path that is the empty
    string is kept too, and only [None] gives no output.  An exception of
    the call is logged by the unit of work, which then returns nothing. *)
Theorem pauses_unit_spec
    (input_directory audio_base audio_ext standardized_audio temp_ann_file
       output_directory : string) (config : Config F) (w : world F) :
  ap_enabled (add_pause config) = true →
  ∃ random_suffix w',
    let output_file_path :=
      variant_path output_directory audio_base "addpauses" 1
        random_suffix audio_ext in
    let pause := add_pause config in
    process_effect E input_directory "pauses" audio_base audio_ext
      standardized_audio temp_ann_file output_directory config w
    = (Ok match calculate_time_distance E standardized_audio temp_ann_file
                  output_file_path (ap_pause_threshold pause)
                  (ap_min_pause_duration pause)
                  (ap_max_pause_duration pause) with
          | Ok (Some output_ann_file) => [output_ann_file]
          | Ok None => []
          | Raise _ => []
          end, w')
    ∧ calls w'
      = calls w
        ++ [CallPauses standardized_audio temp_ann_file output_file_path
              (ap_pause_threshold pause) (ap_min_pause_duration pause)
              (ap_max_pause_duration pause)]
    ∧ suffix_ok config random_suffix.
Proof.
  intros Hen. unfold process_effect, process_effect_body.
  eval_eqb. rewrite Hen. cbn [andb].
  unfold pauses_branch, try_except. unfold bind at 1. cbn [logger].
  match goal with |- context [bind (suffix_for E config) ?k ?w1] =>
    destruct (suffix_for_spec E config w1) as (sfx & w2 & Hs & Hc & Hsfx) end.
  rewrite (bind_run _ _ _ _ _ Hs). cbv zeta.
  unfold invoke, record_call, lift_res, bind, variant_path.
  exists sfx.
  destruct (calculate_time_distance E _ _ _ _ _ _) as [[f|]|e];
    eexists; (split; [reflexivity|]); cbn [calls logger snd fst];
    rewrite ?Hc; by split.
Qed.

(** *** [merge_audios] on missing files *)



(** *** The driver: annotations before and after the effects *)

Section DriverFacts.
Variable standardize_audio : string → res (string * bool).
Variable isdir : string → bool.

Lemma midi_to_ann_run (input_midi output_ann : string) (w : world F) :
  midi_to_ann E input_midi output_ann w
  = match midi_files w !! input_midi with
    | Some midi_data =>
        (Ok output_ann,
         mkWorld (rng w) (log w ++ [(DEBUG, "Annotation file created")])
           (calls w)
           (<[output_ann :=
                concat_strings (map (format_note E) (concat midi_data))]>
              (text_files w))
           (audio_files w) (midi_files w))
    | None =>
        (Raise FileNotFoundError,
         add_log w [(ERROR, "MIDI file not found")])
    end.
Proof.
  unfold midi_to_ann, try_except, midi_exists, midi_load, bind at 1.
  destruct (midi_files w !! input_midi) as [midi_data|] eqn:Hm.
  - rewrite bool_decide_eq_true_2 by eauto. cbn [negb].
    unfold bind. rewrite Hm. reflexivity.
  - rewrite bool_decide_eq_false_2 by (intros [? [=]]). reflexivity.
Qed.

Lemma logger_run (lvl : level) (msg : string) (w : world F) :
  logger lvl msg w = (Ok tt, add_log w [(lvl, msg)]).
Proof. reflexivity. Qed.

Lemma gen_ann_run
    (input_directory input_audio_file input_midi_file
       output_directory : string) (config : Config F) (w : world F)
    (standardized_audio : string) (was_converted : bool) :
  standardize_audio input_audio_file
  = Ok (standardized_audio, was_converted) →
  let temp_ann_file :=
    path_join (effective_output_directory config output_directory)
      (fst (splitext (basename standardized_audio)) +:+ "_temp.ann") in
  gen_ann E standardize_audio input_directory input_audio_file
    input_midi_file output_directory config w
  = (midi_to_ann E input_midi_file temp_ann_file ;;;
     ret (input_audio_file, standardized_audio, temp_ann_file))
      (add_log w
         ((if negb (String.eqb (output_dir config) "")
           then [(INFO, "Using output directory from config")] else [])
          ++ [(INFO, "Standardizing audio")]
          ++ (if was_converted then [(INFO, "Converted audio format")]
              else [])
          ++ [(INFO, "Converting MIDI to annotation")])).
Proof.
  intros Hstd temp_ann_file. subst temp_ann_file.
  unfold gen_ann, effective_output_directory. rewrite Hstd.
  destruct (negb (String.eqb (output_dir config) ""));
    destruct was_converted;
    repeat first
      [ rewrite (bind_run (logger _ _ ;;; ret _) _ _ _ (add_log _ [_])
                   eq_refl); cbv beta iota
      | rewrite (bind_run _ _ _ _ _ (logger_run _ _ _)); cbv beta iota
      | rewrite (bind_run (lift_res _) _ _ _ _ eq_refl); cbv beta iota
      | rewrite (bind_run (ret _) _ _ _ _ eq_refl); cbv beta iota ];
    rewrite ?add_log_app; reflexivity.
Qed.


Lemma gen_ann_keeps_midi
    (input_directory input_audio_file input_midi_file
       output_directory : string) (config : Config F) (w : world F) r w' :
  gen_ann E standardize_audio input_directory input_audio_file
    input_midi_file output_directory config w = (r, w') →
  midi_files w' = midi_files w
  ∧ (midi_files w !! input_midi_file = None → ∃ e, r = Raise e)
  ∧ (∀ p, is_Some (text_files w !! p) → is_Some (text_files w' !! p))
  ∧ (∀ d, r = Ok d →
          d.1.1 = input_audio_file ∧ is_Some (text_files w' !! d.2)).
Proof.
  intros Hrun.
  destruct (standardize_audio input_audio_file) as [[std conv]|e] eqn:Hstd.
  - rewrite (gen_ann_run _ _ _ _ _ _ _ _ Hstd) in Hrun. unfold bind in Hrun.
    rewrite midi_to_ann_run in Hrun. cbn [midi_files add_log] in Hrun.
    destruct (midi_files w !! input_midi_file) as [midi_data|].
    + injection Hrun as <- <-. cbn [midi_files text_files fst snd].
      split; [done|]. split; [done|]. split.
      * intros p Hp.
        destruct (decide (path_join
                            (effective_output_directory config
                               output_directory)
                            (fst (splitext (basename std)) +:+ "_temp.ann")
                          = p)) as [->|Hne].
        -- rewrite lookup_insert_eq. by eexists.
        -- by rewrite lookup_insert_ne.
      * intros d [= <-]. cbn [fst snd]. rewrite lookup_insert_eq.
        split; [done|by eexists].
    + injection Hrun as <- <-. cbn [midi_files text_files].
      split; [done|]. split; [eauto|]. split; [done|]. intros d [=].
  - unfold gen_ann in Hrun. rewrite Hstd in Hrun.
    destruct (negb (String.eqb (output_dir config) ""));
      cbn [bind logger ret lift_res] in Hrun;
      injection Hrun as <- <-; cbn [midi_files text_files];
      (split; [done|]); (split; [eauto|]); (split; [done|]);
      intros d [=].
Qed.

(** X15: Annotation generation has no error handling: when one recording of
    the list has no MIDI file of its name in the input directory, the loop
    raises, so no later recording gets its annotation and the run ends. *)
Theorem missing_midi_aborts_generation
    (input_directory output_directory : string) (config : Config F)
    (audio_files : list string) (w : world F) :
  Exists
    (λ audio,
       midi_files w !! path_join input_directory (matching_midi audio)
       = None) audio_files →
  ∃ e w',
    generate_annotations E standardize_audio input_directory
      output_directory config audio_files w = (Raise e, w').
Proof.
  unfold generate_annotations.
  match goal with |- context [for_each _ ?b _ _] => set (body := b) end.
  generalize (@nil (string * string * string)).
  intros acc Hex. revert acc w Hex.
  induction audio_files as [|audio l IH]; intros acc w Hex;
    [by apply Exists_nil in Hex|].
  cbn [for_each].
  assert (Hlog : logger INFO "Generating ANN" w
                 = (Ok tt, add_log w [(INFO, "Generating ANN")]))
    by reflexivity.
  unfold bind at 1, body at 1. rewrite (bind_run _ _ _ _ _ Hlog).
  match goal with
  | |- context [bind (gen_ann E standardize_audio ?a ?b ?c ?d ?g) ?k ?w1] =>
      destruct (gen_ann E standardize_audio a b c d g w1) as [r w2] eqn:Hg;
      unfold bind at 1; rewrite Hg
  end.
  apply gen_ann_keeps_midi in Hg as (Hm & Hmiss & _).
  cbn [midi_files add_log] in *.
  apply Exists_cons in Hex as [Hhere|Hlater].
  - destruct (Hmiss Hhere) as [e ->]. by eexists _, _.
  - destruct r as [d|e]; [|by eexists _, _].
    cbn [ret]. apply IH.
    eapply Exists_impl; [exact Hlater|]. intros x Hx. cbv beta in *.
    by rewrite Hm.
Qed.

(** X16: When annotation generation returns, it has one entry for each
    recording, in order, and the temporary annotation of every entry is
    there when the effects start. *)
Theorem generated_annotations_exist
    (input_directory output_directory : string) (config : Config F)
    (audio_files : list string) (w : world F) described w' :
  generate_annotations E standardize_audio input_directory
    output_directory config audio_files w = (Ok described, w') →
  Forall2 (λ audio d, d.1.1 = path_join input_directory audio)
    audio_files described
  ∧ Forall (λ d, is_Some (text_files w' !! d.2)) described.
Proof.
  unfold generate_annotations. intros Hrun.
  pose (I := λ (k : nat) (st : list (string * string * string))
               (w1 : world F),
          Forall2 (λ audio d, d.1.1 = path_join input_directory audio)
            (take k audio_files) st
          ∧ Forall (λ d, is_Some (text_files w1 !! d.2)) st).
  enough (HI : I (length audio_files) described w').
  { destruct HI as [H2 Hall]. by rewrite firstn_all in H2. }
  eapply (for_each_inv I); [| |exact Hrun].
  - intros k audio st w1 st' w1' Hk [H2 Hall] Hbody.
    apply bind_Ok in Hbody as ([] & w2 & Hlog & Hbody).
    unfold logger in Hlog. injection Hlog as <-.
    apply bind_Ok in Hbody as (d & w3 & Hg & Hret).
    injection Hret as <- <-.
    pose proof Hg as Hkeep.
    apply gen_ann_keeps_midi in Hkeep as (_ & _ & Hmono & Hnew).
    cbn [text_files] in Hmono. split.
    + rewrite (take_S_r _ _ _ Hk). apply Forall2_app; [exact H2|].
      constructor; [|constructor]. by apply Hnew.
    + apply Forall_app. split.
      * eapply Forall_impl; [exact Hall|]. intros d0 Hd0. by apply Hmono.
      * constructor; [|constructor]. by apply Hnew.
  - split; [rewrite take_0|]; constructor.
Qed.

Lemma delete_file_run (file_path : string) (w : world F) :
  ∃ r w',
    delete_file file_path w = (Ok r, w')
    ∧ text_files w' = delete file_path (text_files w)
    ∧ midi_files w' = midi_files w ∧ audio_files w' = audio_files w
    ∧ calls w' = calls w.
Proof.
  unfold delete_file, text_exists, bind at 1.
  destruct (text_files w !! file_path) as [content|] eqn:Hf.
  - rewrite bool_decide_eq_true_2 by eauto. cbn.
    eexists _, _. repeat split.
  - rewrite bool_decide_eq_false_2 by (intros [? [=]]). cbn.
    eexists _, _. repeat split. by rewrite delete_id.
Qed.

(** X17: The final clean-up removes the temporary annotation of every entry,
    whether or not it is still there, and touches no other file. *)
Theorem cleanup_removes_temp_annotations
    (audio_files_described : list (string * string * string))
    (w : world F) :
  ∃ w',
    cleanup_annotations audio_files_described w = (Ok tt, w')
    ∧ (∀ p, text_files w' !! p
            = if bool_decide (p ∈ map snd audio_files_described)
              then None else text_files w !! p)
    ∧ midi_files w' = midi_files w ∧ audio_files w' = audio_files w
    ∧ calls w' = calls w.
Proof.
  unfold cleanup_annotations. revert w.
  induction audio_files_described as [|d l IH]; intros w.
  - exists w. split; [done|]. split; [|done]. intros p.
    rewrite bool_decide_eq_false_2; [done|]. cbn. apply not_elem_of_nil.
  - cbn [for_each].
    destruct (delete_file_run d.2 w) as (r & w1 & Hd & Ht & Hm & Ha & Hc).
    unfold bind at 1, bind at 1. rewrite Hd. cbn [ret].
    destruct (IH w1) as (w' & Hrun & Ht' & Hm' & Ha' & Hc').
    exists w'. split; [exact Hrun|].
    split; [|by rewrite Hm', Ha', Hc'].
    intros p. rewrite Ht', Ht. cbn [map].
    destruct (decide (p = d.2)) as [->|Hne].
    + rewrite lookup_delete_eq.
      rewrite (bool_decide_eq_true_2 (d.2 ∈ d.2 :: _)) by left.
      by destruct (bool_decide _).
    + rewrite lookup_delete_ne by done.
      destruct (decide (p ∈ map snd l)) as [Hin|Hnin].
      * rewrite !bool_decide_eq_true_2; [done|by right|done].
      * rewrite !bool_decide_eq_false_2; [done| |done].
        by intros [?|?]%elem_of_cons.
Qed.

(** *** [check_matching_files] *)

Lemma check_wav_loop (mid_files l : list string) (matches wav_missing
    total_wav : Z) (w : world F) :
  for_each l (check_wav mid_files) (matches, wav_missing, total_wav) w
  = (Ok (matches
           + Z.of_nat (length (List.filter
                                 (λ x, negb (wav_without_mid mid_files x))
                                 l)),
         wav_missing
           + Z.of_nat (length (List.filter (wav_without_mid mid_files) l)),
         total_wav + Z.of_nat (length l)),
     add_log w
       (map (λ _, (WARNING, "No matching MIDI file"))
          (List.filter (wav_without_mid mid_files) l))).
Proof.
  revert matches wav_missing total_wav w.
  induction l as [|x l IH]; intros m wm t w.
  - cbn. rewrite !Z.add_0_r, add_log_nil. reflexivity.
  - cbn [for_each List.filter]. unfold bind at 1, check_wav at 1.
    fold (wav_without_mid mid_files x).
    destruct (wav_without_mid mid_files x); cbn [negb];
      unfold bind; cbn [logger ret]; rewrite IH; cbn [length map];
      match goal with
      | |- (Ok (?a, ?b, ?c), _) = (Ok (?a', ?b', ?c'), _) =>
          replace a with a' by lia; replace b with b' by lia;
          replace c with c' by lia
      end; f_equal.
    unfold add_log. cbn. by rewrite <- app_assoc.
Qed.

Lemma check_mid_loop (wav_files l : list string) (mid_missing
    total_mid : Z) (w : world F) :
  for_each l (check_mid wav_files) (mid_missing, total_mid) w
  = (Ok (mid_missing
           + Z.of_nat (length (List.filter (mid_without_wav wav_files) l)),
         total_mid + Z.of_nat (length l)),
     add_log w
       (map (λ _, (WARNING, "No matching WAV file"))
          (List.filter (mid_without_wav wav_files) l))).
Proof.
  revert mid_missing total_mid w.
  induction l as [|x l IH]; intros mm t w.
  - cbn. rewrite !Z.add_0_r, add_log_nil. reflexivity.
  - cbn [for_each List.filter]. unfold bind at 1, check_mid at 1.
    fold (mid_without_wav wav_files x).
    destruct (mid_without_wav wav_files x); cbn [negb];
      unfold bind; cbn [logger ret]; rewrite IH; cbn [length map];
      match goal with
      | |- (Ok (?a, ?b), _) = (Ok (?a', ?b'), _) =>
          replace a with a' by lia; replace b with b' by lia
      end; f_equal.
    unfold add_log. cbn. by rewrite <- app_assoc.
Qed.

Lemma warnings_length {A} (msg : string) (l : list A) :
  length (List.filter is_warning (map (λ _, (WARNING, msg)) l)) = length l.
Proof.
  induction l as [|x l IH]; [reflexivity|].
  cbn [map List.filter]. unfold is_warning at 1. cbn [fst].
  rewrite bool_decide_eq_true_2 by reflexivity. cbn [length].
  by rewrite IH.
Qed.

Lemma filter_split_length {A} (f : A → bool) (l : list A) :
  (length (List.filter (λ x, negb (f x)) l) + length (List.filter f l)
   = length l)%nat.
Proof.
  induction l as [|x l IH]; [reflexivity|].
  cbn [List.filter]. destruct (f x); cbn [negb length]; lia.
Qed.

(** X18: [check_matching_files] on a directory: every WAV file is counted once,
    as a match or as a WAV file without MIDI; the MIDI files without WAV
    are counted apart; one warning is logged for each file counted as
    missing its partner, and no file is touched. *)
Theorem check_matching_files_counts (directory : string)
    (files : list string) (w : world F) :
  isdir directory = true →
  listdir E directory = Ok files →
  let wav_files := files_with_extension ".wav" files in
  let mid_files := files_with_extension ".mid" files in
  ∃ matches wav_missing mid_missing w',
    check_matching_files E isdir directory w
    = (Ok (matches, wav_missing, mid_missing), w')
    ∧ matches + wav_missing = Z.of_nat (length wav_files)
    ∧ wav_missing
      = Z.of_nat (length (List.filter (wav_without_mid mid_files)
                            wav_files))
    ∧ mid_missing
      = Z.of_nat (length (List.filter (mid_without_wav wav_files)
                            mid_files))
    ∧ Z.of_nat (length (List.filter is_warning (log w')))
      = Z.of_nat (length (List.filter is_warning (log w)))
        + wav_missing + mid_missing
    ∧ text_files w' = text_files w ∧ audio_files w' = audio_files w
    ∧ midi_files w' = midi_files w ∧ calls w' = calls w.
Proof.
  intros Hdir Hls wav_files mid_files.
  assert (Hlist :
            try_except
              (let! files := lift_res (listdir E directory) in
               ret (files_with_extension ".wav" files,
                    files_with_extension ".mid" files))
              (λ e, logger ERROR "Error listing directory" ;;; raise e) w
            = (Ok (wav_files, mid_files), w)).
  { unfold try_except, bind, lift_res. by rewrite Hls. }
  unfold check_matching_files. rewrite Hdir. cbn [negb].
  rewrite (bind_run _ _ _ _ _ Hlist). cbv beta iota.
  rewrite (bind_run _ _ _ _ _ (logger_run _ _ _)).
  rewrite (bind_run _ _ _ _ _ (check_wav_loop _ _ _ _ _ _)). cbv beta iota.
  rewrite (bind_run _ _ _ _ _ (logger_run _ _ _)).
  rewrite (bind_run _ _ _ _ _ (check_mid_loop _ _ _ _ _)). cbv beta iota.
  do 6 rewrite (bind_run _ _ _ _ _ (logger_run _ _ _)).
  rewrite !add_log_app. unfold ret.
  eexists _, _, _, _. split; [reflexivity|].
  split; [|split; [|split; [|split]]].
  - pose proof (filter_split_length (wav_without_mid mid_files) wav_files).
    lia.
  - lia.
  - lia.
  - cbn [log add_log]. rewrite !List.filter_app, !length_app, !warnings_length.
    assert (Hinfo : ∀ msg : string, is_warning (INFO, msg) = false)
      by reflexivity.
    cbn [List.filter]. rewrite !Hinfo. cbn [length]. lia.
  - repeat split.
Qed.

End DriverFacts.

(** *** The gain/chorus family *)

Section Chorus.
Variables (audio_base audio_ext : string).
Variables (standardized_audio temp_ann_file output_directory : string).
Variable config : Config F.

(** A call of [apply_gain_and_chorus] for a depth and a gain, with a rate
    of the configuration. *)
Let chorus_call_for (p : F * Z) (c : call F) : Prop :=
  ∃ out chorus_rate,
    c = CallGainChorus standardized_audio temp_ann_file out p.2 p.1
          chorus_rate
    ∧ chorus_rate ∈ gc_rates (gain_chorus config).

Lemma chorus_apply_calls (depth : F) (gain : Z)
    (new_ann_files : list string) (w : world F) new_ann_files' w' :
  chorus_apply E audio_base audio_ext standardized_audio temp_ann_file
    output_directory config depth gain new_ann_files w
    = (Ok new_ann_files', w') →
  ∃ c, chorus_call_for (depth, gain) c ∧ calls w' = calls w ++ [c].
Proof.
  unfold chorus_apply. intros Hrun.
  apply bind_Ok in Hrun as (rate & w1 & Hch & Hrun).
  apply random_choice_elem in Hch as [Hin Hc1].
  apply bind_Ok in Hrun as (sfx & w2 & Hs & Hrun).
  assert (Hc2 : calls w2 = calls w1).
  { unfold random_word in Hs. cbn [Z.leb Z.compare] in Hs.
    pose proof (keeps_random_letters E (Z.to_nat 5) w1) as Hk.
    rewrite Hs in Hk. exact Hk. }
  cbv zeta in Hrun.
  apply bind_Ok in Hrun as ([] & w3 & Hlog & Hrun).
  unfold logger in Hlog. injection Hlog as <-.
  match type of Hrun with guarded_apply ?c ?r ?m ?l ?w4 = _ =>
    destruct (guarded_apply_calls c r m l w4) as (l' & w5 & Hg & Hc3);
    exists c end.
  rewrite Hg in Hrun. injection Hrun as <- <-.
  split; [by eexists _, _|].
  rewrite Hc3. cbn [calls]. by rewrite Hc2, Hc1.
Qed.

Lemma retry_loop_keeps_initial {V} {V_eq : EqDecision V}
    {V_cnt : Countable V} (ident : V) (draw : M F V) (generated : gset V)
    fuel x a w y a' w' :
  retry_loop ident draw generated fuel x a w = (Ok (y, a'), w') →
  y = x ∨ (∃ w1 w2, draw w1 = (Ok y, w2)).
Proof.
  intros Hrun. apply retry_loop_drawn in Hrun as [(-> & _ & _)|?]; eauto.
Qed.

Lemma chorus_sample_slot_later_calls (i : nat) depths gains w r w' :
  chorus_sample_slot E config i depths gains w = (Ok r, w') →
  calls w' = calls w.
Proof.
  intros Hrun. unfold chorus_sample_slot in Hrun. cbv zeta in Hrun.
  apply bind_Ok in Hrun as ([d da] & w1 & Hd & Hrun).
  apply bind_Ok in Hrun as ([g ga] & w2 & Hg & Hrun).
  pose proof (keeps_retry_loop E f_zero _ depths max_attempts f_zero 0%nat
                (keeps_random_uniform_round1 E
                   (gc_min_depth (gain_chorus config))
                   (gc_max_depth (gain_chorus config))) w) as Hk1.
  rewrite Hd in Hk1. cbn [snd] in Hk1.
  pose proof (keeps_retry_loop E 0 _ gains max_attempts 0 0%nat
                (keeps_random_randint E
                   (gc_min_gain (gain_chorus config))
                   (gc_max_gain (gain_chorus config))) w1) as Hk2.
  rewrite Hg in Hk2. cbn [snd] in Hk2.
  destruct (_ || _).
  - apply bind_Ok in Hrun as ([] & w3 & Hlog & Hrun).
    unfold logger in Hlog. injection Hlog as <-.
    destruct (0 <? i)%nat.
    + injection Hrun as _ <-. cbn [calls]. by rewrite Hk2, Hk1.
    + apply bind_Ok in Hrun as (d' & w4 & Hd' & Hrun).
      apply bind_Ok in Hrun as (g' & w5 & Hg' & Hrun).
      injection Hrun as _ <-.
      apply random_uniform_round1_takes_one in Hd' as Hr1.
      injection Hd' as _ <-.
      pose proof (keeps_random_randint E
                    (gc_min_gain (gain_chorus config))
                    (gc_max_gain (gain_chorus config))) as Hk4.
      match type of Hg' with random_randint E ?a ?b ?w6 = _ =>
        specialize (Hk4 w6) end.
      rewrite Hg' in Hk4. cbn [snd calls] in Hk4.
      by rewrite Hk4, Hk2, Hk1.
  - injection Hrun as _ <-. by rewrite Hk2, Hk1.
Qed.

Lemma chorus_sample_slot_fresh (i : nat) depths gains w depth gain w' :
  chorus_sample_slot E config i depths gains w
    = (Ok (Some (depth, gain)), w') →
  ((0 < i)%nat → (depth ∉ depths) ∧ (gain ∉ gains))
  ∧ (gain ≠ 0 ∨ i = 0%nat)
  ∧ (gain = 0
     ∨ gc_min_gain (gain_chorus config) ≤ gain
       ≤ gc_max_gain (gain_chorus config))
  ∧ calls w' = calls w.
Proof.
  intros Hrun. unfold chorus_sample_slot in Hrun. cbv zeta in Hrun.
  apply bind_Ok in Hrun as ([d da] & w1 & Hd & Hrun).
  apply bind_Ok in Hrun as ([g ga] & w2 & Hg & Hrun).
  pose proof (keeps_retry_loop E f_zero _ depths max_attempts f_zero 0%nat
                (keeps_random_uniform_round1 E
                   (gc_min_depth (gain_chorus config))
                   (gc_max_depth (gain_chorus config))) w) as Hk1.
  rewrite Hd in Hk1. cbn [snd] in Hk1.
  pose proof (keeps_retry_loop E 0 _ gains max_attempts 0 0%nat
                (keeps_random_randint E
                   (gc_min_gain (gain_chorus config))
                   (gc_max_gain (gain_chorus config))) w1) as Hk2.
  rewrite Hg in Hk2. cbn [snd] in Hk2.
  pose proof Hg as Hgd. apply retry_loop_keeps_initial in Hgd.
  apply retry_loop_Ok in Hd as [Hdle Hdc].
  apply retry_loop_Ok in Hg as [Hgle Hgc].
  destruct ((da =? max_attempts)%nat || (ga =? max_attempts)%nat)
    eqn:Hex.
  - apply bind_Ok in Hrun as ([] & w3 & Hlog & Hrun).
    unfold logger in Hlog. injection Hlog as <-.
    destruct i as [|i]; [|discriminate]. cbn [Nat.ltb Nat.leb] in Hrun.
    apply bind_Ok in Hrun as (d' & w4 & Hd' & Hrun).
    apply bind_Ok in Hrun as (g' & w5 & Hg' & Hrun).
    injection Hrun as <- <- <-.
    split; [lia|]. split; [by right|]. split.
    + right. eapply random_randint_range, Hg'.
    + pose proof (keeps_random_uniform_round1 E
                    (gc_min_depth (gain_chorus config))
                    (gc_max_depth (gain_chorus config))
                    (mkWorld (rng w2) (log w2 ++ [(WARNING,
                       "Could not find unique depth/gain after 10 attempts")])
                       (calls w2) (text_files w2) (audio_files w2)
                       (midi_files w2))) as Hk3.
      rewrite Hd' in Hk3. cbn [snd calls] in Hk3.
      pose proof (keeps_random_randint E
                    (gc_min_gain (gain_chorus config))
                    (gc_max_gain (gain_chorus config)) w4) as Hk4.
      rewrite Hg' in Hk4. cbn [snd] in Hk4.
      by rewrite Hk4, Hk3, Hk2, Hk1.
  - injection Hrun as <- <- <-.
    apply orb_false_iff in Hex as [Hda Hga].
    apply Nat.eqb_neq in Hda, Hga.
    destruct Hdc as [[Hd0 Hdf]|[?|?]]; [|lia|lia].
    destruct Hgc as [[Hg0 Hgf]|[?|?]]; [|lia|lia].
    split; [done|]. split; [by left|]. split; [|by rewrite Hk2, Hk1].
    right. destruct Hgd as [->|(w3 & w4 & Hdraw)]; [done|].
    eapply random_randint_range, Hdraw.
Qed.

(** X19: The gain/chorus family applies every accepted pair of a depth and a
    gain exactly once.  The depths of its calls are pairwise distinct and
    so are the gains, which the file names are built from; they are the
    members of the two sampled sets; every gain except a zero gain of the
    first slot lies between [min_gain] and [max_gain]; and each call
    carries a rate of the configuration. *)
Theorem chorus_applies_distinct_pairs (w : world F) depths gains
    new_ann_files w' :
  chorus_loop E audio_base audio_ext standardized_audio temp_ann_file
    output_directory config w = (Ok (depths, gains, new_ann_files), w') →
  ∃ pairs made,
    calls w' = calls w ++ made
    ∧ Forall2 chorus_call_for pairs made
    ∧ NoDup (map fst pairs) ∧ NoDup (map snd pairs)
    ∧ list_to_set (map fst pairs) = depths
    ∧ list_to_set (map snd pairs) = gains
    ∧ Forall (λ gain, gc_min_gain (gain_chorus config) ≤ gain
                      ≤ gc_max_gain (gain_chorus config))
        (List.filter (λ gain, negb (gain =? 0)) (map snd pairs))
    ∧ (0 ∉ tail (map snd pairs)).
Proof.
  unfold chorus_loop, for_range. intros Hrun.
  pose (I := λ (k : nat) (st : gset F * gset Z * list string)
               (w1 : world F),
          (k = 0%nat → st.1.1 = ∅ ∧ st.1.2 = ∅)
          ∧ ∃ pairs made,
              calls w1 = calls w ++ made
              ∧ Forall2 chorus_call_for pairs made
              ∧ NoDup (map fst pairs) ∧ NoDup (map snd pairs)
              ∧ list_to_set (map fst pairs) = st.1.1
              ∧ list_to_set (map snd pairs) = st.1.2
              ∧ Forall (λ gain, gc_min_gain (gain_chorus config) ≤ gain
                                ≤ gc_max_gain (gain_chorus config))
                  (List.filter (λ gain, negb (gain =? 0)) (map snd pairs))
              ∧ (0 ∉ tail (map snd pairs))
              ∧ (k = 0%nat → pairs = [])).
  enough (HI : I (length (seq 0 (Z.to_nat
                    (gc_variations (gain_chorus config)))))
                 (depths, gains, new_ann_files) w').
  { destruct HI as (_ & pairs & made & ? & ? & ? & ? & ? & ? & ? & ? & _).
    by exists pairs, made. }
  eapply (for_each_inv I); [| |exact Hrun].
  - intros k i [[ds gs] files] w1 st' w1' Hk [H0 Hinv] Hbody.
    apply lookup_seq_0 in Hk as [-> Hlt].
    destruct Hinv
      as (pairs & made & Hc & Hf2 & Hnd1 & Hnd2 & Hs1 & Hs2 & Hb & Ht & Hk0).
    unfold chorus_slot in Hbody.
    apply bind_Ok in Hbody as (r & w2 & Hslot & Hret).
    split; [lia|]. cbn [fst snd] in *.
    destruct r as [[d g]|].
    2: { injection Hret as <- <-. cbn [fst snd].
         apply chorus_sample_slot_later_calls in Hslot.
         exists pairs, made. rewrite Hslot.
         repeat (split; [assumption|]). lia. }
    apply bind_Ok in Hret as (files' & w3 & Happ & Hret).
    injection Hret as <- <-. cbn [fst snd].
    apply chorus_apply_calls in Happ as (c & Hcall & Hc3).
    apply chorus_sample_slot_fresh in Hslot
      as (Hfresh & Hnz & Hrange & Hc2).
    assert (Hf : (d ∉ ds) ∧ (g ∉ gs)).
    { destruct k as [|k]; [|apply Hfresh; lia].
      destruct H0 as [-> ->]; [done|]. set_solver. }
    destruct Hf as [Hfd Hfg].
    exists (pairs ++ [(d, g)]), (made ++ [c]).
    rewrite !map_app. cbn [map fst snd].
    split; [by rewrite Hc3, Hc2, Hc, <- app_assoc|].
    split; [apply Forall2_app; [exact Hf2|by constructor]|].
    split.
    { apply NoDup_app. split; [exact Hnd1|]. split; [|apply NoDup_singleton].
      intros y Hy ->%list_elem_of_singleton. apply Hfd.
      rewrite <- Hs1. by apply elem_of_list_to_set. }
    split.
    { apply NoDup_app. split; [exact Hnd2|]. split; [|apply NoDup_singleton].
      intros y Hy ->%list_elem_of_singleton. apply Hfg.
      rewrite <- Hs2. by apply elem_of_list_to_set. }
    split; [rewrite list_to_set_app_L, Hs1; cbn; set_solver|].
    split; [rewrite list_to_set_app_L, Hs2; cbn; set_solver|].
    split.
    { rewrite List.filter_app. apply Forall_app. split; [exact Hb|].
      cbn [List.filter]. destruct (g =? 0) eqn:Hg0; cbn [negb];
        [constructor|].
      constructor; [|constructor]. apply Z.eqb_neq in Hg0.
      by destruct Hrange. }
    split; [|lia].
    destruct k as [|k].
    + rewrite Hk0 by done. cbn. apply not_elem_of_nil.
    + destruct (map snd pairs) as [|g0 gl] eqn:Hgl.
      * cbn. apply not_elem_of_nil.
      * cbn [app tail] in *.
        intros [?|Hg%list_elem_of_singleton]%elem_of_app; [done|].
        destruct Hnz; [congruence|lia].
  - split; [done|]. exists [], []. cbn. rewrite app_nil_r.
    repeat split; try constructor. apply not_elem_of_nil.
Qed.

End Chorus.

(** *** What the merge family reads *)

Lemma readlines_nil (s : string) : readlines s = [] → s = "".
Proof.
  destruct s as [|c s]; [done|]. cbn [readlines].
  destruct (Ascii.eqb c "010"); [done|]. by destruct (readlines s).
Qed.

Lemma lines_closed_tail (c : ascii) (s : string) :
  lines_closed (String c s) = true → lines_closed s = true.
Proof. destruct s; [done|]. by cbn [lines_closed]. Qed.

Lemma readlines_app (a b : string) :
  lines_closed a = true → readlines (a +:+ b) = readlines a ++ readlines b.
Proof.
  induction a as [|c a IH]; intros Hc; [reflexivity|].
  change (String c a +:+ b) with (String c (a +:+ b)).
  cbn [readlines]. rewrite IH by (eapply lines_closed_tail, Hc).
  destruct (Ascii.eqb c "010") eqn:Hnl; [reflexivity|].
  destruct (readlines a) as [|l ls] eqn:Hl; [|reflexivity].
  apply readlines_nil in Hl as ->. cbn [lines_closed] in Hc. congruence.
Qed.

Lemma lines_closed_app_r (a b : string) :
  b ≠ "" → lines_closed (a +:+ b) = lines_closed b.
Proof.
  intros Hb. induction a as [|c a IH]; [reflexivity|].
  change (String c a +:+ b) with (String c (a +:+ b)).
  cbn [lines_closed]. destruct (a +:+ b) eqn:Hab; [|exact IH].
  destruct a; [|discriminate]. by cbn in Hab.
Qed.

Lemma append_nil_r (a : string) : a +:+ "" = a.
Proof.
  induction a as [|c a IH]; [reflexivity|].
  change (String c a +:+ "") with (String c (a +:+ "")). by rewrite IH.
Qed.

Lemma lines_closed_app (a b : string) :
  lines_closed a = true → lines_closed b = true →
  lines_closed (a +:+ b) = true.
Proof.
  intros Ha Hb. destruct b as [|c b]; [by rewrite append_nil_r|].
  by rewrite lines_closed_app_r.
Qed.

Lemma lines_closed_prepend (a b : string) :
  lines_closed b = true ∧ b ≠ "" →
  lines_closed (a +:+ b) = true ∧ a +:+ b ≠ "".
Proof.
  intros [Hc Hb]. split; [by rewrite lines_closed_app_r|].
  destruct a; [exact Hb|discriminate].
Qed.

Lemma lines_closed_format_note (note : Note F) :
  lines_closed (format_note E note) = true.
Proof.
  unfold format_note. apply lines_closed_prepend.
  do 6 apply lines_closed_prepend. by split.
Qed.

Lemma lines_closed_concat (texts : list string) :
  Forall (λ t, lines_closed t = true) texts →
  lines_closed (concat_strings texts) = true.
Proof.
  induction 1 as [|t texts Ht _ IH]; [reflexivity|].
  cbn [concat_strings foldr]. by apply lines_closed_app.
Qed.

Lemma decode_concat (texts : list string) :
  Forall (λ t, lines_closed t = true) texts →
  omap (parse_line E) (readlines (concat_strings texts))
  = concat (map (λ t, omap (parse_line E) (readlines t)) texts).
Proof.
  induction 1 as [|t texts Ht _ IH]; [reflexivity|].
  cbn [concat_strings foldr map concat].
  rewrite readlines_app by exact Ht. rewrite omap_app. f_equal. exact IH.
Qed.

(** X20: The merged annotation is the texts of the merged recordings one after
    the other.  Every text [midi_to_ann] writes ends its last line, so no
    line of one recording runs into the first line of the next: decoding
    the merged annotation gives the notes each text decodes to, recording
    by recording, in the order of the merge. *)
Theorem merged_annotation_decodes (instruments : list (list (Note F))) :
  let texts :=
    map (λ notes, concat_strings (map (format_note E) notes)) instruments in
  omap (parse_line E) (readlines (concat_strings texts))
  = concat (map (λ t, omap (parse_line E) (readlines t)) texts).
Proof.
  intros texts. apply decode_concat. subst texts.
  apply Forall_fmap, Forall_forall. intros notes _. cbn.
  apply lines_closed_concat, Forall_fmap, Forall_forall.
  intros note _. apply lines_closed_format_note.
Qed.

Lemma substring_0_length (s : string) :
  substring 0 (String.length s) s = s.
Proof. induction s as [|c s IH]; [reflexivity|]. cbn. by rewrite IH. Qed.

Lemma rindex_lt (c : ascii) (s : string) (i : nat) :
  rindex c s = Some i → (i < String.length s)%nat.
Proof.
  revert i. induction s as [|d s IH]; intros i; [discriminate|].
  cbn [rindex String.length]. destruct (rindex c s) as [j|].
  - intros [= <-]. specialize (IH j eq_refl). lia.
  - destruct (Ascii.eqb c d); [|discriminate]. intros [= <-]. lia.
Qed.

Lemma rindex_after_last (c : ascii) (s : string) (i : nat) :
  rindex c s = Some i →
  rindex c (substring (S i) (String.length s - S i) s) = None.
Proof.
  revert i. induction s as [|d s IH]; intros i; [discriminate|].
  cbn [rindex]. destruct (rindex c s) as [j|] eqn:Hj.
  - intros [= <-]. cbn [String.length substring Nat.sub]. by apply IH.
  - destruct (Ascii.eqb c d); [|discriminate]. intros [= <-].
    cbn [String.length substring Nat.sub]. rewrite Nat.sub_0_r.
    by rewrite substring_0_length.
Qed.

Lemma rindex_basename (p : string) : rindex "/" (basename p) = None.
Proof.
  unfold basename. destruct (rindex "/" p) as [i|] eqn:Hi; [|exact Hi].
  by apply rindex_after_last.
Qed.

Lemma splitext_rsplit (p : string) :
  (∀ i, rindex "." (basename p) = Some i →
        all_dots (substring 0 i (basename p)) = false) →
  fst (splitext (basename p)) = rsplit_dot_head (basename p).
Proof.
  intros Hdots. unfold splitext, rsplit_dot_head.
  assert (Hb : basename (basename p) = basename p).
  { unfold basename at 1. by rewrite rindex_basename. }
  rewrite Hb. destruct (rindex "." (basename p)) as [i|] eqn:Hi; [|done].
  rewrite (Hdots i eq_refl). cbn [fst]. apply rindex_lt in Hi.
  f_equal. lia.
Qed.

Section Handover.
Variable standardize_audio : string → res (string * bool).

(** X21: The merge family looks for the annotation of a selected recording [x]
    at [x.rsplit(".", 1)[0] + "_temp.ann"], while [gen_ann] names it with
    [os.path.splitext].  For a name whose part before the last dot is not
    made of dots only, the two agree: what [gen_ann] wrote for the
    recording is what [merge_audios] reads for it. *)
Theorem merge_finds_generated_annotation
    (input_directory input_audio_file input_midi_file
       output_directory : string) (config : Config F) (w : world F)
    (standardized_audio : string) (was_converted : bool)
    (midi_data : list (list (Note F))) :
  standardize_audio input_audio_file
  = Ok (standardized_audio, was_converted) →
  midi_files w !! input_midi_file = Some midi_data →
  let x := basename standardized_audio in
  (∀ i, rindex "." x = Some i → all_dots (substring 0 i x) = false) →
  ∃ temp_ann_file w',
    gen_ann E standardize_audio input_directory input_audio_file
      input_midi_file output_directory config w
    = (Ok (input_audio_file, standardized_audio, temp_ann_file), w')
    ∧ read_text
        (path_join (effective_output_directory config output_directory)
           (rsplit_dot_head x +:+ "_temp.ann")) w'
      = (Ok (concat_strings (map (format_note E) (concat midi_data))), w').
Proof.
  intros Hstd Hmidi x Hdots.
  eexists _, _. split.
  - rewrite (gen_ann_run standardize_audio _ _ _ _ _ _ _ _ Hstd).
    unfold bind. rewrite midi_to_ann_run. cbn [midi_files add_log].
    rewrite Hmidi. reflexivity.
  - unfold read_text. cbn [text_files]. subst x.
    rewrite <- (splitext_rsplit _ Hdots). by rewrite lookup_insert_eq.
Qed.

End Handover.

(** *** The pitch-shift grid *)

Lemma pop_while_longer_run {V} {V_eq : EqDecision V} {V_cnt : Countable V}
    {V_pop : SetPop V} fuel (generated : gset V) variations (w : world F)
    trimmed w' :
  pop_while_longer fuel generated variations w = (Ok trimmed, w') →
  (size generated < fuel)%nat →
  w' = w
  ∧ if Z.of_nat (size generated) >? variations
    then Z.of_nat (size trimmed) = variations
    else trimmed = generated.
Proof.
  revert generated. induction fuel as [|fuel IH]; intros s Hrun Hlt; [lia|].
  cbn [pop_while_longer] in Hrun.
  destruct (Z.of_nat (size s) >? variations) eqn:Hc.
  - destruct (decide (s = ∅)) as [|Hne]; [discriminate|].
    assert (Hpick : set_pick s ∈ s) by (by apply set_pick_elem).
    assert (Hsize : size s = S (size (s ∖ {[set_pick s]}))).
    { rewrite (union_difference_L {[set_pick s]} s) at 1 by set_solver.
      rewrite size_union by set_solver. by rewrite size_singleton. }
    apply IH in Hrun as [-> Hcase]; [|lia]. split; [done|].
    apply Z.gtb_lt in Hc.
    destruct (Z.of_nat (size (s ∖ {[set_pick s]})) >? variations) eqn:Hc';
      [exact Hcase|].
    subst trimmed. rewrite Z.gtb_ltb in Hc'. apply Z.ltb_ge in Hc'. lia.
  - by injection Hrun as <- <-.
Qed.

(** X22: In grid mode the pitch-shift sampler draws nothing, and it logs its
    warning exactly when the set it returns has fewer values than
    [variations]: the grid had too few distinct non-zero points. *)
Theorem pitchshift_grid_warns_on_shortfall (config : Config F)
    (w : world F) generated w' :
  pitchshift_semitones_grid E config w = (Ok generated, w') →
  w' = add_log w
         (if Z.of_nat (size generated) <? ps_variations (pitch_shift config)
          then [(WARNING, "Impossible to have unique semitones values")]
          else []).
Proof.
  unfold pitchshift_semitones_grid, sample_grid. cbv zeta. intros Hrun.
  apply bind_Ok in Hrun as (pts & w1 & Hpts & Hrun).
  injection Hpts as Hpts <-.
  apply bind_Ok in Hrun as ([] & w2 & Hwarn & Hrun).
  apply pop_while_longer_run in Hrun as [-> Hcase]; [|lia].
  set (before := list_to_set pts ∖ {[0]} : gset Z) in *.
  destruct (Z.of_nat (size before) <? ps_variations (pitch_shift config))
    eqn:Hlt.
  - apply Z.ltb_lt in Hlt.
    replace (Z.of_nat (size before) >? ps_variations (pitch_shift config))
      with false in Hcase by (symmetry; rewrite Z.gtb_ltb; apply Z.ltb_ge; lia).
    subst generated. replace (_ <? _) with true
      by (symmetry; apply Z.ltb_lt; lia).
    unfold logger in Hwarn. by injection Hwarn as <-.
  - apply Z.ltb_ge in Hlt. injection Hwarn as <-.
    replace (Z.of_nat (size generated) <? ps_variations (pitch_shift config))
      with false; [by rewrite add_log_nil|].
    symmetry. apply Z.ltb_ge.
    destruct (Z.of_nat (size before) >? ps_variations (pitch_shift config));
      [lia|by subst generated].
Qed.

(** *** A run with nothing to do *)


End MoreFacts.

(** ** The properties on concrete runs *)

Import Concrete.

(** C1, as written, fails: with the stretch factor drawn from [0.8, 1.2]
    and every draw equal to 1.0, the first slot uses up its ten attempts,
    the fallback draw is taken unchecked, and the sampled set is {1.0}. *)
Lemma timestretch_fallback_is_identity :
  (∃ (generated : gset Z) (w' : world Z),
      timestretch_factors (E0 (λ _, 2) []) config0 w0 = (Ok generated, w')
      ∧ (f_one : Z) ∈ generated
      ∧ elements generated = [f_one])
  ∧ calls (run_family (E0 (λ _, 2) []) "timestretch" config0 w0).2
    = [CallTimeStretch "in/a.wav" "out/a_temp.ann"
         "out/a_timestretch_1.0.wav" f_one].
Proof.
  split; [|vm_compute; reflexivity].
  eexists _, _. split; [vm_compute; reflexivity|].
  split; [|vm_compute; reflexivity].
  apply elem_of_elements. vm_compute. left.
Qed.

Lemma sampled_sets_witness :
  ∃ (generated : gset Z) (w' : world Z),
    timestretch_factors (E0 (λ _, 2) []) config0 w0 = (Ok generated, w')
    ∧ NoDup (elements generated)
    ∧ ((f_one : Z) ∈ generated →
       ts_randomized (time_stretch config0) = true
       ∧ first_slot_exhausted (f_one : Z)
           (random_uniform_round1 (E0 (λ _, 2) [])
              (ts_min_factor (time_stretch config0))
              (ts_max_factor (time_stretch config0))) w0 = true).
Proof.
  eexists _, _. split; [vm_compute; reflexivity|].
  eapply (proj1 (sampled_sets_identity_only_by_fallback (E0 (λ _, 2) [])
                   "a" ".wav" "in/a.wav" "out/a_temp.ann" "out" config0 w0)).
  vm_compute. reflexivity.
Defined.



(** C3 at a failing input: pitch-shift is enabled and randomized, the
    sampled set is {1, 2}, and [process_effect] returns no annotation file
    and calls [apply_pitch_shift] for neither value. *)
Lemma pitchshift_randomized_witness :
  (∃ (generated : gset Z) (w' : world Z),
      pitchshift_semitones_randomized (E0 Z.of_nat []) config0 w0
        = (Ok generated, w')
      ∧ elements generated = [2; 1])
  ∧ ∃ w' : world Z, run_family (E0 Z.of_nat []) "pitchshift" config0 w0 = (Ok [], w')
          ∧ calls w' = calls w0.
Proof.
  split.
  - eexists _, _. split; vm_compute; reflexivity.
  - apply pitchshift_randomized_applies_nothing; reflexivity.
Defined.


(** C4, as written, fails.  Two semitone variations on the grid [1, 2, 3]
    of [np.linspace(1, 3, 3, dtype=int)]: no point is the identity value,
    so one of the three is removed by [set.pop()]; where that takes the
    least element the result is {2, 3}, not the grid trimmed from its end,
    {1, 2}.  Two noise variations between 0.0 and 2.0: the points of
    [np.logspace(0.0, 2.0, 3)] are 1.0, 10.0 and 100.0, and the result,
    {10.0, 100.0}, lies outside [[0.0, 2.0]]. *)
Lemma grid_counterexample :
  (np_linspace_int (E0 Z.of_nat []) 1 3 3 = Ok [1; 2; 3]
   ∧ grid_trimmed_from_end 0 [1; 2; 3] 2 = [1; 2]
   ∧ ∃ (generated : gset Z) (w' : world Z),
       pitchshift_semitones_grid (E0 Z.of_nat []) config_grid w0
         = (Ok generated, w')
       ∧ elements generated = [3; 2]
       ∧ generated ≠ list_to_set (grid_trimmed_from_end 0 [1; 2; 3] 2))
  ∧ (np_logspace_float (E0 Z.of_nat []) 0 20 3 = Ok [10; 100; 1000]
     ∧ ∃ (generated : gset Z) (w' : world Z),
         noise_intensities (E0 Z.of_nat []) config0 w0 = (Ok generated, w')
         ∧ elements generated = [100; 1000]
         ∧ Forall (λ x, an_max_intensity (add_noise config0) < x)
             (elements generated)).
Proof.
  split.
  - split; [reflexivity|]. split; [reflexivity|].
    eexists _, _. split; [vm_compute; reflexivity|].
    split; [vm_compute; reflexivity|].
    intros Heq. assert (Hin : (1 : Z) ∈ (list_to_set [1; 2] : gset Z))
      by set_solver.
    change (grid_trimmed_from_end 0 [1; 2; 3] 2) with [1; 2] in Heq.
    rewrite <- Heq in Hin. apply elem_of_elements in Hin.
    vm_compute in Hin. set_solver.
  - split; [reflexivity|].
    eexists _, _. split; [vm_compute; reflexivity|].
    split; [vm_compute; reflexivity|].
    apply Forall_forall. intros x Hx. vm_compute in Hx.
    apply elem_of_cons in Hx as [->|Hx]; [reflexivity|].
    apply elem_of_cons in Hx as [->|Hx]; [reflexivity|].
    by apply elem_of_nil in Hx.
Qed.

Lemma grid_sets_witness :
  ∃ (generated : gset Z) (w' : world Z),
    pitchshift_semitones_grid (E0 Z.of_nat []) config_grid w0
      = (Ok generated, w')
    ∧ (0 ∉ generated)
    ∧ (generated ⊆ list_to_set [1; 2; 3] ∖ {[0]})
    ∧ size generated
      = Nat.min (Z.to_nat (ps_variations (pitch_shift config_grid)))
          (size (list_to_set [1; 2; 3] ∖ {[0]} : gset Z)).
Proof.
  apply (proj1 (proj2 (grid_sets_spec (E0 Z.of_nat []) config_grid w0))
           [1; 2; 3]); [simpl; lia | reflexivity].
Defined.



Lemma merge_audios_witness :
  ∃ (merged : list Z) (w' : world Z),
    merge_audios (E0 Z.of_nat []) ["b.wav"] "in/a.wav" "out/a_temp.ann"
      "in" "out" "b_a_merged" 44100 w_merge
      = (Ok "out/b_a_merged.ann", w')
    ∧ text_files w' !! "out/b_a_merged.ann"
      = Some ("0.500000" +:+ TAB +:+ "1.000000" +:+ TAB +:+ "60" +:+ TAB
              +:+ "80" +:+ NL +:+ "0.000000" +:+ TAB +:+ "2.000000" +:+ TAB
              +:+ "72" +:+ TAB +:+ "90" +:+ NL)
    ∧ audio_files w' !! "out/b_a_merged.wav" = Some (merged, 44100)
    ∧ length merged = 3%nat
    ∧ ∀ j, (j < 3)%nat →
           merged !! j = Some (sum_at [[1; 2; 3]; [10; 20]] j).
Proof.
  apply (merge_audios_spec (E0 Z.of_nat []) ["b.wav"] "in/a.wav"
           "out/a_temp.ann" "in" "out" "b_a_merged" 44100 w_merge
           [([1; 2; 3], 22050)] ([10; 20], 44100)
           ["0.500000" +:+ TAB +:+ "1.000000" +:+ TAB +:+ "60" +:+ TAB
            +:+ "80" +:+ NL]
           ("0.000000" +:+ TAB +:+ "2.000000" +:+ TAB +:+ "72" +:+ TAB
            +:+ "90" +:+ NL)).
  - constructor; [vm_compute; reflexivity | constructor].
  - vm_compute. reflexivity.
  - constructor; [vm_compute; reflexivity | constructor].
  - vm_compute. reflexivity.
Defined.



(** C9: [generate_output_filename] builds
    [{base}_{effect}_{measure}{extension}] when the suffix is empty and
    [{base}_{effect}_{measure}_{suffix}{extension}] otherwise.  At the
    failing input -- the gain/chorus family with
    [enable_random_suffix] off -- the file name still carries a random
    five-letter suffix, so two runs with the same base name, effect and
    gain get different names. *)
Theorem chorus_suffix_ignores_switch :
  (∀ base_name effect_name (measure : Z) extension,
      generate_output_filename base_name effect_name measure "" extension
      = base_name +:+ "_" +:+ effect_name +:+ "_" +:+ py_str measure
          +:+ extension)
  ∧ enable_random_suffix config0 = false
  ∧ calls (run_family (E0 Z.of_nat []) "chorus" config0 w0).2
    = [CallGainChorus "in/a.wav" "out/a_temp.ann"
         "out/a_gain_chorus_3_defgh.wav" 3 1 3]
  ∧ calls (run_family (E0 (λ n, Z.of_nat n * 5) []) "chorus" config0 w0).2
    = [CallGainChorus "in/a.wav" "out/a_temp.ann"
         "out/a_gain_chorus_3_puzej.wav" 3 1 3].
Proof.
  split; [reflexivity|]. split; [reflexivity|].
  split; vm_compute; reflexivity.
Qed.

(** *** Further properties on concrete runs *)

Lemma semitones_bounds_witness :
  ∃ (generated : gset Z) (w' : world Z),
    pitchshift_semitones_randomized (E0 Z.of_nat []) config0 w0
      = (Ok generated, w')
    ∧ ∀ x, x ∈ generated →
           ps_min_semitones (pitch_shift config0) ≤ x
           ≤ ps_max_semitones (pitch_shift config0).
Proof.
  eexists _, _. split; [vm_compute; reflexivity|].
  eapply (semitones_within_bounds (E0 Z.of_nat []) config0 w0).
  vm_compute. reflexivity.
Defined.

Lemma draw_budget_witness :
  ∃ (generated : gset Z) (w' : world Z),
    pitchshift_semitones_randomized (E0 Z.of_nat []) config0 w0
      = (Ok generated, w')
    ∧ (rng w0 + Z.to_nat (ps_variations (pitch_shift config0)) ≤ rng w'
       ≤ rng w0 + 10 * Z.to_nat (ps_variations (pitch_shift config0)) + 1)%nat.
Proof.
  eexists _, _. split; [vm_compute; reflexivity|].
  eapply (proj1 (proj2 (randomized_draw_budget (E0 Z.of_nat []) config0
                         w0))).
  vm_compute. reflexivity.
Defined.

Lemma reverb_scales_witness :
  ∃ (scales : list Z) (made : list (call Z)) (generated : gset Z)
    (new_ann_files : list string) (w' : world Z),
    reverb_loop (E0 Z.of_nat []) "a" ".wav" "in/a.wav" "out/a_temp.ann" "out"
      config_reverb w0 = (Ok (generated, new_ann_files), w')
    ∧ calls w' = calls w0 ++ made
    ∧ length made = length scales
    ∧ NoDup scales
    ∧ list_to_set scales = generated.
Proof.
  assert (Hrun : ∃ (g : gset Z) (f : list string) (w' : world Z),
             reverb_loop (E0 Z.of_nat []) "a" ".wav" "in/a.wav"
               "out/a_temp.ann" "out" config_reverb w0 = (Ok (g, f), w'))
    by (eexists _, _, _; vm_compute; reflexivity).
  destruct Hrun as (g & f & w' & Hrun).
  destruct (reverb_applies_distinct_scales _ _ _ _ _ _ _ _ _ _ _ Hrun)
    as (scales & made & Hc & Hf2 & Hnd & Hset & _).
  exists scales, made, g, f, w'. split; [exact Hrun|]. split; [exact Hc|].
  split; [symmetry; eapply Forall2_length, Hf2|]. by split.
Defined.

Lemma disabled_effect_witness :
  run_family (E0 Z.of_nat []) "reverb"
    (disable_effects ["noise"; "reverb"] config0) w0
  = (Ok [], w0).
Proof.
  apply (disabled_effect_does_nothing (E0 Z.of_nat []) "in" "reverb" "a"
           ".wav" "in/a.wav" "out/a_temp.ann" "out" ["noise"; "reverb"]
           config0 w0).
  by repeat constructor.
Defined.

Lemma other_effects_witness :
  run_family (E0 Z.of_nat []) "timestretch"
    (disable_effects ["noise"; "reverb"] config0)
  = run_family (E0 Z.of_nat []) "timestretch" config0.
Proof.
  apply (disabling_leaves_other_effects (E0 Z.of_nat []) "in" "timestretch"
           "a" ".wav" "in/a.wav" "out/a_temp.ann" "out" ["noise"; "reverb"]
           config0).
  intros Hin. repeat (apply elem_of_cons in Hin as [Hin|Hin];
                      [discriminate|]).
  by apply elem_of_nil in Hin.
Defined.

Lemma filtered_outputs_witness :
  has_effect_keyword
    (generate_output_filename "a" "noise" (5 : Z) "abcde" ".wav") = true
  ∧ "a_b_merged.wav" ∉ unprocessed_files ["a.wav"; "a_b_merged.wav"].
Proof.
  split.
  - apply (proj1 effect_outputs_are_filtered).
    unfold effect_keywords. by repeat constructor.
  - apply (proj2 (proj2 effect_outputs_are_filtered)).
    apply (proj1 (proj2 effect_outputs_are_filtered) "a_b").
Defined.

Lemma timestretch_outputs_witness :
  ∃ (generated : gset Z) (suffixes new_ann_files : list string)
    (w' : world Z),
    run_family (E0 Z.of_nat []) "timestretch" config0 w0
      = (Ok new_ann_files, w')
    ∧ length suffixes = size generated
    ∧ length (calls w') = size generated
    ∧ Forall (suffix_ok config0) suffixes.
Proof.
  assert (Hs : ∃ (g : gset Z) (w1 : world Z),
             timestretch_factors (E0 Z.of_nat []) config0 w0 = (Ok g, w1))
    by (eexists _, _; vm_compute; reflexivity).
  destruct Hs as (g & w1 & Hs).
  destruct (timestretch_family_outputs (E0 Z.of_nat []) "a" ".wav" "in/a.wav"
              "out/a_temp.ann" "out" config0 w0 g w1 Hs)
    as (ss & w' & Hrun & Hlen & Hc & Hall).
  exists g, ss. eexists _, w'. split; [|split; [exact Hlen|split; [|exact Hall]]].
  - unfold run_family, process_effect, process_effect_body, try_except.
    cbn [String.eqb Ascii.eqb Bool.eqb andb config0 ts_enabled time_stretch
           ap_enabled add_pause].
    rewrite Hrun. reflexivity.
  - rewrite Hc. cbn [calls w0 app]. rewrite length_zip_with.
    rewrite Hlen. unfold size, set_size. cbn. lia.
Defined.

Lemma pitchshift_grid_witness :
  ∃ (generated : gset Z) (suffixes new_ann_files : list string)
    (w' : world Z),
    pitchshift_branch (E0 Z.of_nat []) "a" ".wav" "in/a.wav" "out/a_temp.ann"
      "out" config_grid w0 = (Ok new_ann_files, w')
    ∧ length suffixes = size generated
    ∧ Forall (suffix_ok config_grid) suffixes.
Proof.
  assert (Hs : ∃ (g : gset Z) (w1 : world Z),
             pitchshift_semitones_grid (E0 Z.of_nat []) config_grid w0
             = (Ok g, w1))
    by (eexists _, _; vm_compute; reflexivity).
  destruct Hs as (g & w1 & Hs).
  destruct (pitchshift_grid_applies_each_once (E0 Z.of_nat []) "a" ".wav"
              "in/a.wav" "out/a_temp.ann" "out" config_grid w0 g w1
              eq_refl Hs)
    as (ss & w' & Hrun & Hlen & Hc & Hall).
  exists g, ss. eexists _, w'. split; [exact Hrun|]. by split.
Defined.

Lemma noise_witness :
  ∃ (generated : gset Z) (suffixes new_ann_files : list string)
    (w' : world Z),
    noise_branch (E0 Z.of_nat []) "a" ".wav" "in/a.wav" "out/a_temp.ann"
      "out" config0 w0 = (Ok new_ann_files, w')
    ∧ length suffixes = size generated
    ∧ Forall (suffix_ok config0) suffixes.
Proof.
  assert (Hs : ∃ (g : gset Z) (w1 : world Z),
             noise_intensities (E0 Z.of_nat []) config0 w0 = (Ok g, w1))
    by (eexists _, _; vm_compute; reflexivity).
  destruct Hs as (g & w1 & Hs).
  destruct (noise_applies_each_once (E0 Z.of_nat []) "a" ".wav" "in/a.wav"
              "out/a_temp.ann" "out" config0 w0 g w1 Hs)
    as (ss & w' & Hrun & Hlen & Hc & Hall).
  exists g, ss. eexists _, w'. split; [exact Hrun|]. by split.
Defined.

Lemma no_variations_witness :
  run_family (E0 Z.of_nat []) "reverb" config_short w0 = (Ok [], w0).
Proof.
  apply (no_variations_no_output (E0 Z.of_nat []) "in" "reverb" "a" ".wav"
           "in/a.wav" "out/a_temp.ann" "out" config_short w0 0);
    [reflexivity|lia].
Defined.

Lemma pauses_unit_witness :
  ∃ (random_suffix : string) (new_ann_files : list string) (w' : world Z),
    run_family (E0 Z.of_nat []) "pauses" config0 w0 = (Ok new_ann_files, w')
    ∧ calls w'
      = [CallPauses "in/a.wav" "out/a_temp.ann"
           (variant_path "out" "a" "addpauses" 1 random_suffix ".wav")
           10 10 20]
    ∧ suffix_ok config0 random_suffix.
Proof.
  destruct (pauses_unit_spec (E0 Z.of_nat []) "in" "a" ".wav" "in/a.wav"
              "out/a_temp.ann" "out" config0 w0 eq_refl)
    as (sfx & w' & Hrun & Hc & Hs).
  exists sfx. eexists _, w'. split; [exact Hrun|]. split; [exact Hc|exact Hs].
Defined.



Lemma missing_midi_witness :
  ∃ (e : exn) (w' : world Z),
    generate_annotations (E0 Z.of_nat []) standardize_same "in" "out" config0
      ["a.wav"; "b.wav"] w_midi = (Raise e, w').
Proof.
  apply (missing_midi_aborts_generation (E0 Z.of_nat []) standardize_same
           "in" "out" config0 ["a.wav"; "b.wav"] w_midi).
  apply Exists_cons_tl, Exists_cons_hd. vm_compute. reflexivity.
Defined.

Lemma generated_annotations_witness :
  ∃ (described : list (string * string * string)) (w' : world Z),
    generate_annotations (E0 Z.of_nat []) standardize_same "in" "out" config0
      ["a.wav"] w_midi = (Ok described, w')
    ∧ Forall2 (λ audio d, d.1.1 = path_join "in" audio) ["a.wav"] described
    ∧ Forall (λ d, is_Some (text_files w' !! d.2)) described.
Proof.
  assert (Hrun : ∃ (described : list (string * string * string))
                   (w' : world Z),
             generate_annotations (E0 Z.of_nat []) standardize_same "in"
               "out" config0 ["a.wav"] w_midi = (Ok described, w'))
    by (eexists _, _; vm_compute; reflexivity).
  destruct Hrun as (described & w' & Hrun).
  exists described, w'. split; [exact Hrun|].
  exact (generated_annotations_exist _ _ _ _ _ _ _ _ _ Hrun).
Defined.

(** [D.WAV] finds [D.mid], but [D.mid] looks for [D.wav]: the pair is
    counted as a match and as a MIDI file without WAV. *)
Lemma matching_counts_witness :
  ∃ (matches wav_missing mid_missing : Z) (w' : world Z),
    check_matching_files
      (E0 Z.of_nat ["a.wav"; "a.mid"; "b.wav"; "c.mid"; "D.WAV"; "D.mid"])
      isdir_any "out" w0
    = (Ok (matches, wav_missing, mid_missing), w')
    ∧ matches + wav_missing = 3 ∧ wav_missing = 1 ∧ mid_missing = 2.
Proof.
  destruct (check_matching_files_counts
              (E0 Z.of_nat ["a.wav"; "a.mid"; "b.wav"; "c.mid"; "D.WAV";
                            "D.mid"])
              isdir_any "out"
              ["a.wav"; "a.mid"; "b.wav"; "c.mid"; "D.WAV"; "D.mid"] w0
              eq_refl eq_refl)
    as (m & wm & mm & w' & Hrun & H1 & H2 & H3 & _).
  exists m, wm, mm, w'. split; [exact Hrun|].
  split; [exact H1|]. split; [exact H2|exact H3].
Defined.

Lemma chorus_pairs_witness :
  ∃ (pairs : list (Z * Z)) (made : list (call Z)) (depths gains : gset Z)
    (new_ann_files : list string) (w' : world Z),
    chorus_loop (E0 Z.of_nat []) "a" ".wav" "in/a.wav" "out/a_temp.ann" "out"
      config_reverb w0 = (Ok (depths, gains, new_ann_files), w')
    ∧ calls w' = calls w0 ++ made
    ∧ length made = length pairs
    ∧ NoDup (map fst pairs) ∧ NoDup (map snd pairs)
    ∧ list_to_set (map snd pairs) = gains.
Proof.
  assert (Hrun : ∃ (d g : gset Z) (f : list string) (w' : world Z),
             chorus_loop (E0 Z.of_nat []) "a" ".wav" "in/a.wav"
               "out/a_temp.ann" "out" config_reverb w0
             = (Ok (d, g, f), w'))
    by (eexists _, _, _, _; vm_compute; reflexivity).
  destruct Hrun as (d & g & f & w' & Hrun).
  destruct (chorus_applies_distinct_pairs _ _ _ _ _ _ _ _ _ _ _ _ Hrun)
    as (pairs & made & Hc & Hf2 & Hnd1 & Hnd2 & _ & Hs2 & _).
  exists pairs, made, d, g, f, w'. split; [exact Hrun|]. split; [exact Hc|].
  split; [symmetry; eapply Forall2_length, Hf2|]. by repeat split.
Defined.

Lemma handover_witness :
  ∃ (temp_ann_file : string) (w' : world Z),
    gen_ann (E0 Z.of_nat []) standardize_same "in" "in/a.wav" "in/a.mid"
      "out" config0 w_midi
    = (Ok ("in/a.wav", "in/a.wav", temp_ann_file), w')
    ∧ read_text "out/a_temp.ann" w'
      = (Ok ("1.500000" +:+ TAB +:+ "2.000000" +:+ TAB +:+ "60" +:+ TAB
             +:+ "80" +:+ NL), w').
Proof.
  apply (merge_finds_generated_annotation (E0 Z.of_nat []) standardize_same
           "in" "in/a.wav" "in/a.mid" "out" config0 w_midi "in/a.wav" false
           [[mkNote 80 60 15 20]] eq_refl eq_refl).
  intros i Hi. vm_compute in Hi. injection Hi as <-. reflexivity.
Defined.

Lemma grid_warning_witness :
  ∃ (generated : gset Z) (w' : world Z),
    pitchshift_semitones_grid (E0 Z.of_nat []) config_short w0
      = (Ok generated, w')
    ∧ size generated = 1%nat
    ∧ w' = add_log w0
             (if Z.of_nat (size generated)
                 <? ps_variations (pitch_shift config_short)
              then [(WARNING, "Impossible to have unique semitones values")]
              else []).
Proof.
  eexists _, _. split; [vm_compute; reflexivity|].
  split; [vm_compute; reflexivity|].
  eapply (pitchshift_grid_warns_on_shortfall (E0 Z.of_nat []) config_short
            w0).
  vm_compute. reflexivity.
Defined.

